(** * Ducker: MIDI-triggered sidechain ducking audio effect

    A shallow embedding of [src/dsp/ducker.c] and the properties of its
    envelope state machine, trigger dispatcher, block processor and
    parameter store.

    C [float] is IEEE-754 binary32 and C [double] is binary64; both are
    modelled with the Standard Library's executable specification
    [SpecFloat] (round to nearest, ties to even), one rounding per C
    operation (no fused multiply-add contraction).  C [int] is a 32-bit
    two's-complement integer carried in [Z]. *)

From Stdlib Require Import ZArith List Bool Lia String Ascii DecimalString.
From Stdlib Require Import SpecFloat.
Import ListNotations.

Local Open Scope Z_scope.

(** ** Machine integers *)

Definition INT_MIN : Z := -2147483648.
Definition INT_MAX : Z := 2147483647.

(** Signed overflow of [int] is undefined in C; the model takes the
    two's-complement result the target hardware produces. *)
Definition wrap32 (z : Z) : Z := (z + 2147483648) mod 4294967296 - 2147483648.

(** ** Binary floating point *)

Module F32.
Definition prec : Z := 24.
Definition emax : Z := 128.

Definition float := spec_float.

Definition add : float -> float -> float := SFadd prec emax.
Definition sub : float -> float -> float := SFsub prec emax.
Definition mul : float -> float -> float := SFmul prec emax.
Definition div : float -> float -> float := SFdiv prec emax.
Definition ltb : float -> float -> bool := SFltb.
Definition gtb (x y : float) : bool := SFltb y x.
Definition leb : float -> float -> bool := SFleb.
Definition valid : float -> bool := valid_binary prec emax.

(** [(float)n] for an integer [n]. *)
Definition of_Z (n : Z) : float := binary_normalize prec emax n 0 false.

(** Truncation toward zero of a finite value, as an unbounded integer. *)
Definition trunc (x : float) : Z :=
  match x with
  | S754_finite s m e =>
      let a := match e with
               | Zneg p => Z.shiftr (Zpos m) (Zpos p)
               | _ => Z.shiftl (Zpos m) e
               end in
      if s then - a else a
  | _ => 0
  end.

(** [(int)x].  C leaves the conversion undefined when the truncated
    value does not fit (and for NaN); the model takes the result of the
    AArch64 conversion instruction of the target: saturation, and 0 for
    NaN. *)
Definition to_int (x : float) : Z :=
  match x with
  | S754_nan => 0
  | S754_infinity s => if s then INT_MIN else INT_MAX
  | _ => Z.max INT_MIN (Z.min INT_MAX (trunc x))
  end.

(** [(int16_t)x], same convention with the 16-bit range. *)
Definition to_int16 (x : float) : Z :=
  match x with
  | S754_nan => 0
  | S754_infinity s => if s then -32768 else 32767
  | _ => Z.max (-32768) (Z.min 32767 (trunc x))
  end.

Definition zero : float := S754_zero false.
Definition one : float := Eval cbv in of_Z 1.
Definition two : float := Eval cbv in of_Z 2.
Definition three : float := Eval cbv in of_Z 3.
End F32.

Module F64.
Definition prec : Z := 53.
Definition emax : Z := 1024.

Definition float := spec_float.

Definition add : float -> float -> float := SFadd prec emax.
Definition mul : float -> float -> float := SFmul prec emax.
Definition div : float -> float -> float := SFdiv prec emax.
Definition gtb (x y : float) : bool := SFltb y x.
Definition of_Z (n : Z) : float := binary_normalize prec emax n 0 false.

(** [(double)x] for a binary32 [x]: exact, the representation is kept
    canonical by normalising. *)
Definition of_f32 (x : F32.float) : float :=
  match x with
  | S754_finite s m e => binary_round prec emax s m e
  | _ => x
  end.

(** [(float)x] for a binary64 [x]: one rounding to binary32. *)
Definition to_f32 (x : float) : F32.float :=
  match x with
  | S754_finite s m e => binary_round F32.prec F32.emax s m e
  | _ => x
  end.

(** [(int)x] for a binary64 [x], with the convention of [F32.to_int]. *)
Definition to_int (x : float) : Z := F32.to_int x.
End F64.

Definition float : Type := F32.float.

(** ** The instance *)

Definition SAMPLE_RATE : Z := 44100.

(** Envelope phases *)
Definition PHASE_IDLE : Z := 0.
Definition PHASE_ATTACK : Z := 1.
Definition PHASE_HOLD : Z := 2.
Definition PHASE_RELEASE : Z := 3.

(** Curve types *)
Definition CURVE_LINEAR : Z := 0.
Definition CURVE_EXPO : Z := 1.
Definition CURVE_SCURVE : Z := 2.
Definition CURVE_PUMP : Z := 3.

(** Mode types *)
Definition MODE_TRIGGER : Z := 0.
Definition MODE_GATE : Z := 1.

(** [ducker_instance_t].  The [module_dir] buffer is written once at
    creation and never read, it is left out. *)
Record ducker_instance : Type := mkInst {
  channel : Z;          (* 0=omni, 1-16 *)
  trigger_note : Z;     (* 0-127 *)
  mode : Z;             (* MODE_TRIGGER or MODE_GATE *)
  depth : float;        (* 0.0-1.0 *)
  attack : float;       (* 0.0-1.0 -> 0-50ms *)
  hold : float;         (* 0.0-1.0 -> 0-500ms *)
  release : float;      (* 0.0-1.0 -> 0-1000ms *)
  curve : Z;            (* CURVE_* *)
  vel_sens : float;     (* 0.0-1.0 *)
  phase : Z;            (* PHASE_* *)
  phase_pos : Z;        (* sample counter within phase *)
  phase_len : Z;        (* total samples in current phase *)
  vel_depth : float;    (* computed depth for current trigger *)
  envelope : float;     (* current envelope value: 1.0=pass, 0.0=max duck *)
  active_notes : Z      (* count of held notes (for gate mode) *)
}.

Definition set_phase (i : ducker_instance) (v : Z) : ducker_instance :=
  mkInst (channel i) (trigger_note i) (mode i) (depth i) (attack i) (hold i)
    (release i) (curve i) (vel_sens i) v (phase_pos i) (phase_len i)
    (vel_depth i) (envelope i) (active_notes i).

Definition set_phase_pos (i : ducker_instance) (v : Z) : ducker_instance :=
  mkInst (channel i) (trigger_note i) (mode i) (depth i) (attack i) (hold i)
    (release i) (curve i) (vel_sens i) (phase i) v (phase_len i)
    (vel_depth i) (envelope i) (active_notes i).

Definition set_phase_len (i : ducker_instance) (v : Z) : ducker_instance :=
  mkInst (channel i) (trigger_note i) (mode i) (depth i) (attack i) (hold i)
    (release i) (curve i) (vel_sens i) (phase i) (phase_pos i) v
    (vel_depth i) (envelope i) (active_notes i).

Definition set_vel_depth (i : ducker_instance) (v : float) : ducker_instance :=
  mkInst (channel i) (trigger_note i) (mode i) (depth i) (attack i) (hold i)
    (release i) (curve i) (vel_sens i) (phase i) (phase_pos i) (phase_len i)
    v (envelope i) (active_notes i).

Definition set_envelope (i : ducker_instance) (v : float) : ducker_instance :=
  mkInst (channel i) (trigger_note i) (mode i) (depth i) (attack i) (hold i)
    (release i) (curve i) (vel_sens i) (phase i) (phase_pos i) (phase_len i)
    (vel_depth i) v (active_notes i).

Definition set_active_notes (i : ducker_instance) (v : Z) : ducker_instance :=
  mkInst (channel i) (trigger_note i) (mode i) (depth i) (attack i) (hold i)
    (release i) (curve i) (vel_sens i) (phase i) (phase_pos i) (phase_len i)
    (vel_depth i) (envelope i) v.

(** ** Envelope helpers *)

Definition clampf (x lo hi : float) : float :=
  if F32.ltb x lo then lo
  else if F32.gtb x hi then hi
  else x.

(** [SAMPLE_RATE / 1000.0f], one binary32 division. *)
Definition samples_per_ms : float :=
  Eval cbv in F32.div (F32.of_Z SAMPLE_RATE) (F32.of_Z 1000).

Definition ms_to_samples (ms : float) : Z :=
  F32.to_int (F32.mul ms samples_per_ms).

Definition attack_samples (inst : ducker_instance) : Z :=
  ms_to_samples (F32.mul (attack inst) (F32.of_Z 50)).

Definition hold_samples (inst : ducker_instance) : Z :=
  ms_to_samples (F32.mul (hold inst) (F32.of_Z 500)).

Definition release_samples (inst : ducker_instance) : Z :=
  ms_to_samples (F32.mul (release inst) (F32.of_Z 1000)).

(** Shape a 0-1 time value using the selected curve. *)
Definition shape_curve (curve : Z) (t : float) (is_release : bool) : float :=
  let t := clampf t F32.zero F32.one in
  if curve =? CURVE_EXPO then F32.mul t t
  else if curve =? CURVE_SCURVE then
    F32.mul (F32.mul t t) (F32.sub F32.three (F32.mul F32.two t))
  else if curve =? CURVE_PUMP then
    if is_release then
      let inv := F32.sub F32.one t in
      F32.sub F32.one (F32.mul (F32.mul inv inv) inv)
    else t
  else t.

Definition start_attack (inst : ducker_instance) : ducker_instance :=
  let inst := set_phase inst PHASE_ATTACK in
  let inst := set_phase_pos inst 0 in
  let inst := set_phase_len inst (attack_samples inst) in
  if phase_len inst <=? 0 then
    let inst := set_envelope inst (F32.sub F32.one (vel_depth inst)) in
    let inst := set_phase inst PHASE_HOLD in
    let inst := set_phase_pos inst 0 in
    let inst := set_phase_len inst (hold_samples inst) in
    if (phase_len inst <=? 0) && (mode inst =? MODE_TRIGGER) then
      let inst := set_phase inst PHASE_RELEASE in
      let inst := set_phase_pos inst 0 in
      set_phase_len inst (release_samples inst)
    else inst
  else inst.

Definition start_release (inst : ducker_instance) : ducker_instance :=
  let inst := set_phase inst PHASE_RELEASE in
  let inst := set_phase_pos inst 0 in
  let inst := set_phase_len inst (release_samples inst) in
  if phase_len inst <=? 0 then
    let inst := set_phase inst PHASE_IDLE in
    set_envelope inst F32.one
  else inst.


(** ** Block processor *)

(** The envelope switch at the top of the loop body of
    [v2_process_block]: one sample tick of the state machine. *)
Definition advance_one_sample (inst : ducker_instance) : ducker_instance :=
  if phase inst =? PHASE_ATTACK then
    let inst :=
      if phase_len inst >? 0 then
        let t := F32.div (F32.of_Z (phase_pos inst)) (F32.of_Z (phase_len inst)) in
        let shaped := shape_curve (curve inst) t false in
        set_envelope inst (F32.sub F32.one (F32.mul (vel_depth inst) shaped))
      else inst in
    let inst := set_phase_pos inst (wrap32 (phase_pos inst + 1)) in
    if phase_pos inst >=? phase_len inst then
      let inst := set_envelope inst (F32.sub F32.one (vel_depth inst)) in
      let inst := set_phase inst PHASE_HOLD in
      let inst := set_phase_pos inst 0 in
      let inst := set_phase_len inst (hold_samples inst) in
      if (phase_len inst <=? 0) && (mode inst =? MODE_TRIGGER) then
        let inst := set_phase inst PHASE_RELEASE in
        let inst := set_phase_pos inst 0 in
        set_phase_len inst (release_samples inst)
      else inst
    else inst
  else if phase inst =? PHASE_HOLD then
    let inst := set_envelope inst (F32.sub F32.one (vel_depth inst)) in
    let inst := set_phase_pos inst (wrap32 (phase_pos inst + 1)) in
    if (mode inst =? MODE_TRIGGER) && (phase_pos inst >=? phase_len inst) then
      let inst := set_phase inst PHASE_RELEASE in
      let inst := set_phase_pos inst 0 in
      set_phase_len inst (release_samples inst)
    else inst
  else if phase inst =? PHASE_RELEASE then
    let inst :=
      if phase_len inst >? 0 then
        let t := F32.div (F32.of_Z (phase_pos inst)) (F32.of_Z (phase_len inst)) in
        let shaped := shape_curve (curve inst) t true in
        set_envelope inst
          (F32.add (F32.sub F32.one (vel_depth inst))
                   (F32.mul (vel_depth inst) shaped))
      else inst in
    let inst := set_phase_pos inst (wrap32 (phase_pos inst + 1)) in
    if phase_pos inst >=? phase_len inst then
      let inst := set_phase inst PHASE_IDLE in
      set_envelope inst F32.one
    else inst
  else inst.

Definition int16_hi : float := Eval cbv in F32.of_Z 32767.
Definition int16_lo : float := Eval cbv in F32.of_Z (-32768).

(** The product of one channel sample with the gain, before the clamp. *)
Definition scaled_sample (gain : float) (x : Z) : float :=
  F32.mul (F32.of_Z x) gain.

(** Clamp to int16 range. *)
Definition clamp_int16 (l : float) : float :=
  let l := if F32.gtb l int16_hi then int16_hi else l in
  if F32.ltb l int16_lo then int16_lo else l.

(** Apply gain: scale, clamp, convert back to [int16_t]. *)
Definition apply_gain (gain : float) (x : Z) : Z :=
  F32.to_int16 (clamp_int16 (scaled_sample gain x)).

(** [audio_inout[k] = v]; a store outside the buffer is not modelled. *)
Fixpoint store (audio : list Z) (k : nat) (v : Z) : list Z :=
  match audio, k with
  | [], _ => []
  | _ :: tl, O => v :: tl
  | x :: tl, S k' => x :: store tl k' v
  end.

(** The loop of [v2_process_block] from frame [i], [n] frames to go. *)
Fixpoint process_frames (n : nat) (i : nat) (inst : ducker_instance)
    (audio : list Z) : ducker_instance * list Z :=
  match n with
  | O => (inst, audio)
  | S n' =>
      let inst := advance_one_sample inst in
      let gain := envelope inst in
      let l := apply_gain gain (nth (i * 2) audio 0) in
      let r := apply_gain gain (nth (i * 2 + 1) audio 0) in
      let audio := store audio (i * 2) l in
      let audio := store audio (i * 2 + 1) r in
      process_frames n' (S i) inst audio
  end.

(** [audio_inout] is the interleaved stereo buffer of [int16_t] samples. *)
Definition v2_process_block (inst : ducker_instance) (audio_inout : list Z)
    (frames : Z) : ducker_instance * list Z :=
  process_frames (Z.to_nat frames) 0 inst audio_inout.

(** The gains the loop applies to the next [n] frames, in order. *)
Fixpoint gain_trace (n : nat) (inst : ducker_instance) : list float :=
  match n with
  | O => []
  | S n' =>
      let inst := advance_one_sample inst in
      envelope inst :: gain_trace n' inst
  end.

(** ** MIDI handler *)

Definition byte_val (b : Byte.byte) : Z := Z.of_N (Byte.to_N b).

(** The note-on branch of [ducker_on_midi]. *)
Definition note_on (inst : ducker_instance) (vel : Z) : ducker_instance :=
  let inst := set_active_notes inst (wrap32 (active_notes inst + 1)) in
  (* Compute velocity-scaled depth *)
  let vel_scale :=
    if F32.gtb (vel_sens inst) F32.zero then
      F32.add (F32.sub F32.one (vel_sens inst))
              (F32.mul (vel_sens inst)
                       (F32.div (F32.of_Z vel) (F32.of_Z 127)))
    else F32.one in
  let inst := set_vel_depth inst (F32.mul (depth inst) vel_scale) in
  start_attack inst.

(** The note-off branch of [ducker_on_midi]. *)
Definition note_off (inst : ducker_instance) : ducker_instance :=
  let inst :=
    if active_notes inst >? 0
    then set_active_notes inst (active_notes inst - 1)
    else inst in
  if (mode inst =? MODE_GATE) && (active_notes inst =? 0) then
    (* Gate mode: release on last note-off *)
    if (phase inst =? PHASE_HOLD) || (phase inst =? PHASE_ATTACK)
    then start_release inst
    else inst
  else inst.

(** [msg] holds the bytes behind the pointer, [len] is the length the
    caller announces.  A byte the caller did not supply reads as 0. *)
Definition ducker_on_midi (inst : ducker_instance) (msg : list Byte.byte)
    (len : Z) (source : Z) : ducker_instance :=
  if len <? 3 then inst else
  let b0 := byte_val (nth 0 msg Byte.x00) in
  let status := Z.land b0 240 in
  let ch := Z.land b0 15 + 1 in      (* 1-16 *)
  let note := byte_val (nth 1 msg Byte.x00) in
  let vel := byte_val (nth 2 msg Byte.x00) in
  (* Channel filter: 0=omni accepts all *)
  if (channel inst >? 0) && negb (ch =? channel inst) then inst else
  (* Note filter *)
  if negb (note =? trigger_note inst) then inst else
  if (status =? 144) && (vel >? 0) then note_on inst vel
  else if (status =? 128) || ((status =? 144) && (vel =? 0)) then note_off inst
  else inst.

Definition move_audio_fx_on_midi := ducker_on_midi.

(** ** Instance creation *)

(** 0.1f, 0.2f and 0.3f: the binary32 values nearest to the decimal
    literals. *)
Definition f_0_1 : float := S754_finite false 13421773 (-27).
Definition f_0_2 : float := S754_finite false 13421773 (-26).
Definition f_0_3 : float := S754_finite false 10066330 (-25).

(** The instance [v2_create_instance] returns when the allocation
    succeeds: zeroed memory, then the defaults. *)
Definition v2_create_instance : ducker_instance :=
  {| channel := 1; trigger_note := 36; mode := MODE_TRIGGER;
     depth := F32.one; attack := f_0_1; hold := f_0_2; release := f_0_3;
     curve := CURVE_LINEAR; vel_sens := F32.zero;
     phase := PHASE_IDLE; phase_pos := 0; phase_len := 0;
     vel_depth := F32.zero; envelope := F32.one; active_notes := 0 |}.


(** ** C library functions the parameter code calls

    Executable models of the ISO C behaviour of [strstr], [atoi], [atof]
    and of the [snprintf] conversions the source uses.  A C string is a
    [string] without NUL characters. *)

Module Libc.
Local Open Scope string_scope.
Local Open Scope Z_scope.

Definition code (c : ascii) : Z := Z.of_N (N_of_ascii c).

Definition isspace (c : ascii) : bool :=
  let n := code c in (n =? 32) || ((9 <=? n) && (n <=? 13)).

Definition isdigit (c : ascii) : bool :=
  let n := code c in (48 <=? n) && (n <=? 57).

Definition tolower (c : ascii) : ascii :=
  let n := code c in
  if (65 <=? n) && (n <=? 90) then ascii_of_N (Z.to_N (n + 32)) else c.

Definition hexval (c : ascii) : option Z :=
  let n := code (tolower c) in
  if isdigit c then Some (n - 48)
  else if (97 <=? n) && (n <=? 102) then Some (n - 87)
  else None.

Fixpoint skip_space (s : string) : string :=
  match s with
  | String c r => if isspace c then skip_space r else s
  | EmptyString => s
  end.

(** [strstr(hay, needle)]: the suffix of [hay] at the first occurrence,
    [None] for a null result. *)
Fixpoint strstr (hay needle : string) : option string :=
  if prefix needle hay then Some hay
  else match hay with
       | EmptyString => None
       | String _ r => strstr r needle
       end.

(** Case-insensitive prefix test; on success the rest of the string. *)
Fixpoint strip_ci (p s : string) : option string :=
  match p, s with
  | EmptyString, _ => Some s
  | String a p', String b s' =>
      if Ascii.eqb a (tolower b) then strip_ci p' s' else None
  | _, EmptyString => None
  end.

Definition parse_sign (s : string) : bool * string :=
  match s with
  | String "-" r => (true, r)
  | String "+" r => (false, r)
  | _ => (false, s)
  end.

(** Reads decimal digits: accumulated value, number of digits read and
    the rest of the string. *)
Fixpoint take_digits (s : string) (acc : Z) (n : Z) : Z * Z * string :=
  match s with
  | String c r =>
      if isdigit c then take_digits r (acc * 10 + (code c - 48)) (n + 1)
      else (acc, n, s)
  | EmptyString => (acc, n, s)
  end.

Fixpoint take_hex (s : string) (acc : Z) (n : Z) : Z * Z * string :=
  match s with
  | String c r =>
      match hexval c with
      | Some d => take_hex r (acc * 16 + d) (n + 1)
      | None => (acc, n, s)
      end
  | EmptyString => (acc, n, s)
  end.

(** [atoi]: [strtol] in base 10, saturated to [long], converted to
    [int]. *)
Definition atoi (s : string) : Z :=
  let s := skip_space s in
  let '(neg, s) := parse_sign s in
  let '(v, _, _) := take_digits s 0 0 in
  let v := if neg then - v else v in
  wrap32 (Z.max (-9223372036854775808) (Z.min 9223372036854775807 v)).

(** An optional exponent part: the marker, an optional sign and at
    least one digit; 0 when absent. *)
Definition take_exponent (marker : ascii) (s : string) : Z :=
  match s with
  | String c r =>
      if Ascii.eqb (tolower c) marker then
        let '(neg, r) := parse_sign r in
        let '(v, n, _) := take_digits r 0 0 in
        if n =? 0 then 0 else if neg then - v else v
      else 0
  | EmptyString => 0
  end.

(** The binary64 value nearest to [n * 10^k], ties to even. *)
Definition round_decimal (neg : bool) (n : Z) (k : Z) : F64.float :=
  match n with
  | Zpos p =>
      match k with
      | Zneg j =>
          SFdiv F64.prec F64.emax (S754_finite neg p 0)
            (S754_finite false (Pos.pow 10 j) 0)
      | _ =>
          binary_normalize F64.prec F64.emax
            (if neg then - (n * 10 ^ k) else n * 10 ^ k) 0 false
      end
  | _ => S754_zero neg
  end.

Definition atof_decimal (neg : bool) (s : string) : option F64.float :=
  let '(i, ni, r) := take_digits s 0 0 in
  let '(m, nf, r) :=
    match r with
    | String "." r' => take_digits r' i 0
    | _ => (i, 0, r)
    end in
  if ni + nf =? 0 then None
  else Some (round_decimal neg m (take_exponent "e" r - nf)).

Definition atof_hex (neg : bool) (s : string) : option F64.float :=
  match s with
  | String "0" (String x r) =>
      if Ascii.eqb (tolower x) "x" then
        let '(i, ni, r) := take_hex r 0 0 in
        let '(m, nf, r) :=
          match r with
          | String "." r' => take_hex r' i 0
          | _ => (i, 0, r)
          end in
        if ni + nf =? 0 then None
        else Some (binary_normalize F64.prec F64.emax
                     (if neg then - m else m)
                     (take_exponent "p" r - 4 * nf) neg)
      else None
  | _ => None
  end.

(** [atof], that is [strtod(s, NULL)]: leading white space, a sign,
    then a hexadecimal or decimal number, an infinity or a NaN; zero
    when no conversion is possible. *)
Definition atof (s : string) : F64.float :=
  let s := skip_space s in
  let '(neg, s) := parse_sign s in
  match atof_hex neg s with
  | Some v => v
  | None =>
      match atof_decimal neg s with
      | Some v => v
      | None =>
          match strip_ci "inf" s with
          | Some _ => S754_infinity neg
          | None =>
              match strip_ci "nan" s with
              | Some _ => S754_nan
              | None => S754_zero false
              end
          end
      end
  end.

(** The [%d] conversion. *)
Definition fmt_d (n : Z) : string := NilZero.string_of_int (Z.to_int n).

Fixpoint pad_digits (w : nat) (k : Z) : string :=
  match w with
  | O => ""
  | S w' =>
      pad_digits w' (k / 10)
        ++ String (ascii_of_N (Z.to_N (48 + k mod 10))) ""
  end.

(** Nearest integer to [n / d], ties to even ([0 < d]). *)
Definition div_nearest_even (n d : Z) : Z :=
  let q := n / d in
  let r := n mod d in
  match 2 * r ?= d with
  | Lt => q
  | Gt => q + 1
  | Eq => if Z.even q then q else q + 1
  end.

(** The [%.<w>f] conversion of a [float] argument (promoted to
    [double] without change of value): the exact value rounded to [w]
    decimals, ties to even. *)
Definition fmt_f (w : nat) (x : float) : string :=
  let scale := 10 ^ Z.of_nat w in
  let body (k : Z) :=
    fmt_d (k / scale)
      ++ match w with O => "" | _ => "." ++ pad_digits w (k mod scale) end in
  match x with
  | S754_nan => "nan"
  | S754_infinity s => if s then "-inf" else "inf"
  | S754_zero s => (if s then "-" else "") ++ body 0
  | S754_finite s m e =>
      let k := match e with
               | Zneg p => div_nearest_even (Zpos m * scale) (2 ^ Zpos p)
               | _ => Zpos m * 2 ^ e * scale
               end in
      (if s then "-" else "") ++ body k
  end.

(** [snprintf(buf, buf_len, ...)] once the conversions have produced
    [s]: the return value and the new contents of the buffer. *)
Definition snprintf (buf : string) (buf_len : Z) (s : string) : Z * string :=
  let n := Z.of_nat (String.length s) in
  if buf_len =? 0 then (n, buf)
  else if (0 <? buf_len) && (buf_len <=? n)
       then (n, substring 0 (Z.to_nat (buf_len - 1)) s)
       else (n, s).
End Libc.

(** The double quote character of the C string literals. *)
Definition dq : string := String "034"%char EmptyString.

Local Open Scope string_scope.
Local Open Scope Z_scope.

(** ** Tiny JSON helpers *)

(** [p + n] for a pointer [p] into a C string: the string from its
    [n]-th character on. *)
Fixpoint ptr_add (p : string) (n : nat) {struct n} : string :=
  match n, p with
  | S n', String _ r => ptr_add r n'
  | _, _ => p
  end.

(** The loop that steps [p] over spaces and tabs. *)
Fixpoint skip_blank (p : string) : string :=
  match p with
  | String c r =>
      if Ascii.eqb c " " || Ascii.eqb c "009" then skip_blank r else p
  | EmptyString => p
  end.

(** Result [-1], with the output left untouched, is [None]. *)
Definition json_get_number (json key : string) : option float :=
  let search := snd (Libc.snprintf "" 64 (dq ++ key ++ dq ++ ":")) in
  match Libc.strstr json search with
  | None => None
  | Some p =>
      let p := ptr_add p (String.length search) in
      Some (F64.to_f32 (Libc.atof (skip_blank p)))
  end.

(** Copies up to the closing quote, at most [out_len - 1] characters. *)
Fixpoint copy_until_quote (p : string) (room : nat) : string :=
  match p, room with
  | String c r, S room' =>
      if Ascii.eqb c "034" then "" else String c (copy_until_quote r room')
  | _, _ => ""
  end.

Definition json_get_string (json key : string) (out_len : Z) : option string :=
  let search := snd (Libc.snprintf "" 64 (dq ++ key ++ dq ++ ":" ++ dq)) in
  match Libc.strstr json search with
  | None => None
  | Some p =>
      let p := ptr_add p (String.length search) in
      Some (copy_until_quote p (Z.to_nat (out_len - 1)))
  end.

(** ** Parameter handling *)

Definition f_0_5 : float := S754_finite false 8388608 (-24).

Definition parse_channel (val : string) : Z :=
  if String.eqb val "Omni" then 0
  else
    let ch := Libc.atoi val in
    if (ch >=? 1) && (ch <=? 16) then ch
    else
      let f := F64.to_f32 (Libc.atof val) in
      F32.to_int (F32.add (F32.mul f (F32.of_Z 16)) f_0_5).

Definition parse_curve (val : string) : Z :=
  if String.eqb val "Linear" then CURVE_LINEAR
  else if String.eqb val "Expo" then CURVE_EXPO
  else if String.eqb val "S-Curve" then CURVE_SCURVE
  else if String.eqb val "Pump" then CURVE_PUMP
  else
    let idx :=
      F64.to_int (F64.add (F64.mul (Libc.atof val) (F64.of_f32 F32.three))
                          (F64.of_f32 f_0_5)) in
    let idx := if idx <? 0 then 0 else idx in
    if idx >? 3 then 3 else idx.

Definition parse_mode (val : string) : Z :=
  if String.eqb val "Trigger" then MODE_TRIGGER
  else if String.eqb val "Gate" then MODE_GATE
  else if F64.gtb (Libc.atof val) (F64.of_f32 f_0_5) then MODE_GATE
  else MODE_TRIGGER.

Definition set_channel (i : ducker_instance) (v : Z) : ducker_instance :=
  mkInst v (trigger_note i) (mode i) (depth i) (attack i) (hold i)
    (release i) (curve i) (vel_sens i) (phase i) (phase_pos i) (phase_len i)
    (vel_depth i) (envelope i) (active_notes i).

Definition set_trigger_note (i : ducker_instance) (v : Z) : ducker_instance :=
  mkInst (channel i) v (mode i) (depth i) (attack i) (hold i)
    (release i) (curve i) (vel_sens i) (phase i) (phase_pos i) (phase_len i)
    (vel_depth i) (envelope i) (active_notes i).

Definition set_mode (i : ducker_instance) (v : Z) : ducker_instance :=
  mkInst (channel i) (trigger_note i) v (depth i) (attack i) (hold i)
    (release i) (curve i) (vel_sens i) (phase i) (phase_pos i) (phase_len i)
    (vel_depth i) (envelope i) (active_notes i).

Definition set_depth (i : ducker_instance) (v : float) : ducker_instance :=
  mkInst (channel i) (trigger_note i) (mode i) v (attack i) (hold i)
    (release i) (curve i) (vel_sens i) (phase i) (phase_pos i) (phase_len i)
    (vel_depth i) (envelope i) (active_notes i).

Definition set_attack (i : ducker_instance) (v : float) : ducker_instance :=
  mkInst (channel i) (trigger_note i) (mode i) (depth i) v (hold i)
    (release i) (curve i) (vel_sens i) (phase i) (phase_pos i) (phase_len i)
    (vel_depth i) (envelope i) (active_notes i).

Definition set_hold (i : ducker_instance) (v : float) : ducker_instance :=
  mkInst (channel i) (trigger_note i) (mode i) (depth i) (attack i) v
    (release i) (curve i) (vel_sens i) (phase i) (phase_pos i) (phase_len i)
    (vel_depth i) (envelope i) (active_notes i).

Definition set_release (i : ducker_instance) (v : float) : ducker_instance :=
  mkInst (channel i) (trigger_note i) (mode i) (depth i) (attack i) (hold i)
    v (curve i) (vel_sens i) (phase i) (phase_pos i) (phase_len i)
    (vel_depth i) (envelope i) (active_notes i).

Definition set_curve (i : ducker_instance) (v : Z) : ducker_instance :=
  mkInst (channel i) (trigger_note i) (mode i) (depth i) (attack i) (hold i)
    (release i) v (vel_sens i) (phase i) (phase_pos i) (phase_len i)
    (vel_depth i) (envelope i) (active_notes i).

Definition set_vel_sens (i : ducker_instance) (v : float) : ducker_instance :=
  mkInst (channel i) (trigger_note i) (mode i) (depth i) (attack i) (hold i)
    (release i) (curve i) v (phase i) (phase_pos i) (phase_len i)
    (vel_depth i) (envelope i) (active_notes i).

Definition clamp01 (x : float) : float := clampf x F32.zero F32.one.

(** The ["state"] branch of [v2_set_param]: restore all parameters from
    the JSON state. *)
Definition restore_state (inst : ducker_instance) (val : string)
    : ducker_instance :=
  let inst :=
    match json_get_string val "channel" 32 with
    | Some sval => set_channel inst (parse_channel sval)
    | None =>
        match json_get_number val "channel" with
        | Some fval =>
            set_channel inst (F32.to_int (clampf fval F32.zero (F32.of_Z 16)))
        | None => inst
        end
    end in
  let inst :=
    match json_get_number val "trigger_note" with
    | Some fval =>
        set_trigger_note inst
          (F32.to_int (clampf fval F32.zero (F32.of_Z 127)))
    | None => inst
    end in
  let inst :=
    match json_get_string val "mode" 32 with
    | Some sval => set_mode inst (parse_mode sval)
    | None =>
        match json_get_number val "mode" with
        | Some fval => set_mode inst (F32.to_int (clamp01 fval))
        | None => inst
        end
    end in
  let inst :=
    match json_get_number val "depth" with
    | Some fval => set_depth inst (clamp01 fval)
    | None => inst
    end in
  let inst :=
    match json_get_number val "attack" with
    | Some fval => set_attack inst (clamp01 fval)
    | None => inst
    end in
  let inst :=
    match json_get_number val "hold" with
    | Some fval => set_hold inst (clamp01 fval)
    | None => inst
    end in
  let inst :=
    match json_get_number val "release" with
    | Some fval => set_release inst (clamp01 fval)
    | None => inst
    end in
  let inst :=
    match json_get_string val "curve" 32 with
    | Some sval => set_curve inst (parse_curve sval)
    | None =>
        match json_get_number val "curve" with
        | Some fval =>
            set_curve inst (F32.to_int (clampf fval F32.zero F32.three))
        | None => inst
        end
    end in
  match json_get_number val "vel_sens" with
  | Some fval => set_vel_sens inst (clamp01 fval)
  | None => inst
  end.

Definition v2_set_param (inst : ducker_instance) (key val : string)
    : ducker_instance :=
  if String.eqb key "channel" then set_channel inst (parse_channel val)
  else if String.eqb key "trigger_note" then
    let n := Libc.atoi val in
    let n := if n <? 0 then 0 else n in
    let n := if n >? 127 then 127 else n in
    set_trigger_note inst n
  else if String.eqb key "mode" then set_mode inst (parse_mode val)
  else if String.eqb key "depth" then
    set_depth inst (clamp01 (F64.to_f32 (Libc.atof val)))
  else if String.eqb key "attack" then
    set_attack inst (clamp01 (F64.to_f32 (Libc.atof val)))
  else if String.eqb key "hold" then
    set_hold inst (clamp01 (F64.to_f32 (Libc.atof val)))
  else if String.eqb key "release" then
    set_release inst (clamp01 (F64.to_f32 (Libc.atof val)))
  else if String.eqb key "curve" then set_curve inst (parse_curve val)
  else if String.eqb key "vel_sens" then
    set_vel_sens inst (clamp01 (F64.to_f32 (Libc.atof val)))
  else if String.eqb key "state" then restore_state inst val
  else inst.

Definition channel_name (ch : Z) : string :=
  if (ch <? 0) || (ch >? 16) then "Omni"
  else nth (Z.to_nat ch)
         ["Omni"; "1"; "2"; "3"; "4"; "5"; "6"; "7"; "8";
          "9"; "10"; "11"; "12"; "13"; "14"; "15"; "16"] "".

Definition curve_name (curve : Z) : string :=
  if (curve <? 0) || (curve >? 3) then "Linear"
  else nth (Z.to_nat curve) ["Linear"; "Expo"; "S-Curve"; "Pump"] "".

Definition mode_name (mode : Z) : string :=
  if mode =? MODE_GATE then "Gate" else "Trigger".

(** The text the ["state"] key formats. *)
Definition state_string (inst : ducker_instance) : string :=
  "{" ++ dq ++ "channel" ++ dq ++ ":" ++ Libc.fmt_d (channel inst)
  ++ "," ++ dq ++ "trigger_note" ++ dq ++ ":" ++ Libc.fmt_d (trigger_note inst)
  ++ "," ++ dq ++ "mode" ++ dq ++ ":" ++ Libc.fmt_d (mode inst)
  ++ "," ++ dq ++ "depth" ++ dq ++ ":" ++ Libc.fmt_f 3 (depth inst)
  ++ "," ++ dq ++ "attack" ++ dq ++ ":" ++ Libc.fmt_f 3 (attack inst)
  ++ "," ++ dq ++ "hold" ++ dq ++ ":" ++ Libc.fmt_f 3 (hold inst)
  ++ "," ++ dq ++ "release" ++ dq ++ ":" ++ Libc.fmt_f 3 (release inst)
  ++ "," ++ dq ++ "curve" ++ dq ++ ":" ++ Libc.fmt_d (curve inst)
  ++ "," ++ dq ++ "vel_sens" ++ dq ++ ":" ++ Libc.fmt_f 3 (vel_sens inst)
  ++ "}".

Definition ui_hierarchy : string :=
    "{" ++ dq ++ "modes" ++ dq ++ ":null," ++ dq ++ "levels" ++ dq ++ ":{"
    ++ dq ++ "root" ++ dq ++ ":{" ++ dq ++ "children" ++ dq ++ ":null," ++
    dq ++ "knobs" ++ dq ++ ":[" ++ dq ++ "channel" ++ dq ++ "," ++ dq ++
    "trigger_note" ++ dq ++ "," ++ dq ++ "mode" ++ dq ++ "," ++ dq ++
    "depth" ++ dq ++ "," ++ dq ++ "attack" ++ dq ++ "," ++ dq ++ "hold" ++
    dq ++ "," ++ dq ++ "release" ++ dq ++ "," ++ dq ++ "curve" ++ dq ++ "],"
    ++ dq ++ "params" ++ dq ++ ":[" ++ dq ++ "channel" ++ dq ++ "," ++ dq ++
    "trigger_note" ++ dq ++ "," ++ dq ++ "mode" ++ dq ++ "," ++ dq ++
    "depth" ++ dq ++ "," ++ dq ++ "attack" ++ dq ++ "," ++ dq ++ "hold" ++
    dq ++ "," ++ dq ++ "release" ++ dq ++ "," ++ dq ++ "curve" ++ dq ++ ","
    ++ dq ++ "vel_sens" ++ dq ++ "]}}}".

Definition chain_params : string :=
    "[{" ++ dq ++ "key" ++ dq ++ ":" ++ dq ++ "channel" ++ dq ++ "," ++ dq
    ++ "name" ++ dq ++ ":" ++ dq ++ "Channel" ++ dq ++ "," ++ dq ++ "type"
    ++ dq ++ ":" ++ dq ++ "enum" ++ dq ++ "," ++ dq ++ "options" ++ dq ++
    ":[" ++ dq ++ "Omni" ++ dq ++ "," ++ dq ++ "1" ++ dq ++ "," ++ dq ++ "2"
    ++ dq ++ "," ++ dq ++ "3" ++ dq ++ "," ++ dq ++ "4" ++ dq ++ "," ++ dq
    ++ "5" ++ dq ++ "," ++ dq ++ "6" ++ dq ++ "," ++ dq ++ "7" ++ dq ++ ","
    ++ dq ++ "8" ++ dq ++ "," ++ dq ++ "9" ++ dq ++ "," ++ dq ++ "10" ++ dq
    ++ "," ++ dq ++ "11" ++ dq ++ "," ++ dq ++ "12" ++ dq ++ "," ++ dq ++
    "13" ++ dq ++ "," ++ dq ++ "14" ++ dq ++ "," ++ dq ++ "15" ++ dq ++ ","
    ++ dq ++ "16" ++ dq ++ "]," ++ dq ++ "default" ++ dq ++ ":" ++ dq ++ "1"
    ++ dq ++ "},{" ++ dq ++ "key" ++ dq ++ ":" ++ dq ++ "trigger_note" ++ dq
    ++ "," ++ dq ++ "name" ++ dq ++ ":" ++ dq ++ "Trigger" ++ dq ++ "," ++
    dq ++ "type" ++ dq ++ ":" ++ dq ++ "int" ++ dq ++ "," ++ dq ++ "min" ++
    dq ++ ":0," ++ dq ++ "max" ++ dq ++ ":127," ++ dq ++ "default" ++ dq ++
    ":36," ++ dq ++ "step" ++ dq ++ ":1},{" ++ dq ++ "key" ++ dq ++ ":" ++
    dq ++ "mode" ++ dq ++ "," ++ dq ++ "name" ++ dq ++ ":" ++ dq ++ "Mode"
    ++ dq ++ "," ++ dq ++ "type" ++ dq ++ ":" ++ dq ++ "enum" ++ dq ++ ","
    ++ dq ++ "options" ++ dq ++ ":[" ++ dq ++ "Trigger" ++ dq ++ "," ++ dq
    ++ "Gate" ++ dq ++ "]," ++ dq ++ "default" ++ dq ++ ":" ++ dq ++
    "Trigger" ++ dq ++ "},{" ++ dq ++ "key" ++ dq ++ ":" ++ dq ++ "depth" ++
    dq ++ "," ++ dq ++ "name" ++ dq ++ ":" ++ dq ++ "Depth" ++ dq ++ "," ++
    dq ++ "type" ++ dq ++ ":" ++ dq ++ "float" ++ dq ++ "," ++ dq ++ "min"
    ++ dq ++ ":0," ++ dq ++ "max" ++ dq ++ ":1," ++ dq ++ "default" ++ dq ++
    ":1," ++ dq ++ "step" ++ dq ++ ":0.01},{" ++ dq ++ "key" ++ dq ++ ":" ++
    dq ++ "attack" ++ dq ++ "," ++ dq ++ "name" ++ dq ++ ":" ++ dq ++
    "Attack" ++ dq ++ "," ++ dq ++ "type" ++ dq ++ ":" ++ dq ++ "float" ++
    dq ++ "," ++ dq ++ "min" ++ dq ++ ":0," ++ dq ++ "max" ++ dq ++ ":1," ++
    dq ++ "default" ++ dq ++ ":0.1," ++ dq ++ "step" ++ dq ++ ":0.01},{" ++
    dq ++ "key" ++ dq ++ ":" ++ dq ++ "hold" ++ dq ++ "," ++ dq ++ "name" ++
    dq ++ ":" ++ dq ++ "Hold" ++ dq ++ "," ++ dq ++ "type" ++ dq ++ ":" ++
    dq ++ "float" ++ dq ++ "," ++ dq ++ "min" ++ dq ++ ":0," ++ dq ++ "max"
    ++ dq ++ ":1," ++ dq ++ "default" ++ dq ++ ":0.2," ++ dq ++ "step" ++ dq
    ++ ":0.01},{" ++ dq ++ "key" ++ dq ++ ":" ++ dq ++ "release" ++ dq ++
    "," ++ dq ++ "name" ++ dq ++ ":" ++ dq ++ "Release" ++ dq ++ "," ++ dq
    ++ "type" ++ dq ++ ":" ++ dq ++ "float" ++ dq ++ "," ++ dq ++ "min" ++
    dq ++ ":0," ++ dq ++ "max" ++ dq ++ ":1," ++ dq ++ "default" ++ dq ++
    ":0.3," ++ dq ++ "step" ++ dq ++ ":0.01},{" ++ dq ++ "key" ++ dq ++ ":"
    ++ dq ++ "curve" ++ dq ++ "," ++ dq ++ "name" ++ dq ++ ":" ++ dq ++
    "Curve" ++ dq ++ "," ++ dq ++ "type" ++ dq ++ ":" ++ dq ++ "enum" ++ dq
    ++ "," ++ dq ++ "options" ++ dq ++ ":[" ++ dq ++ "Linear" ++ dq ++ ","
    ++ dq ++ "Expo" ++ dq ++ "," ++ dq ++ "S-Curve" ++ dq ++ "," ++ dq ++
    "Pump" ++ dq ++ "]," ++ dq ++ "default" ++ dq ++ ":" ++ dq ++ "Linear"
    ++ dq ++ "}]".

(** [strcpy] of a constant when it fits, [-1] otherwise. *)
Definition copy_const (buf : string) (buf_len : Z) (s : string) : Z * string :=
  let len := Z.of_nat (String.length s) in
  if len <? buf_len then (len, s) else (-1, buf).

(** The return value and the contents of [buf] after the call. *)
Definition v2_get_param (inst : ducker_instance) (key : string)
    (buf : string) (buf_len : Z) : Z * string :=
  if String.eqb key "channel" then
    Libc.snprintf buf buf_len (channel_name (channel inst))
  else if String.eqb key "trigger_note" then
    Libc.snprintf buf buf_len (Libc.fmt_d (trigger_note inst))
  else if String.eqb key "mode" then
    Libc.snprintf buf buf_len (mode_name (mode inst))
  else if String.eqb key "depth" then
    Libc.snprintf buf buf_len (Libc.fmt_f 2 (depth inst))
  else if String.eqb key "attack" then
    Libc.snprintf buf buf_len (Libc.fmt_f 2 (attack inst))
  else if String.eqb key "hold" then
    Libc.snprintf buf buf_len (Libc.fmt_f 2 (hold inst))
  else if String.eqb key "release" then
    Libc.snprintf buf buf_len (Libc.fmt_f 2 (release inst))
  else if String.eqb key "curve" then
    Libc.snprintf buf buf_len (curve_name (curve inst))
  else if String.eqb key "vel_sens" then
    Libc.snprintf buf buf_len (Libc.fmt_f 2 (vel_sens inst))
  else if String.eqb key "name" then Libc.snprintf buf buf_len "DUCKER"
  else if String.eqb key "state" then
    Libc.snprintf buf buf_len (state_string inst)
  else if String.eqb key "ui_hierarchy" then copy_const buf buf_len ui_hierarchy
  else if String.eqb key "chain_params" then copy_const buf buf_len chain_params
  else (-1, buf).

Local Close Scope string_scope.


(** * Properties *)

Import Byte.

(** Floating-point operations stay folded while the integer part of the
    state machine is simplified. *)
Arguments F32.add : simpl never.
Arguments F32.sub : simpl never.
Arguments F32.mul : simpl never.
Arguments F32.div : simpl never.
Arguments F32.of_Z : simpl never.
Arguments F32.ltb : simpl never.
Arguments F32.gtb : simpl never.
Arguments ms_to_samples : simpl never.
Arguments shape_curve : simpl never.
Arguments wrap32 : simpl never.

(** ** The phase lengths depend on the configuration only *)

Definition same_config (a b : ducker_instance) : Prop :=
  channel a = channel b /\ trigger_note a = trigger_note b /\
  mode a = mode b /\ depth a = depth b /\ attack a = attack b /\
  hold a = hold b /\ release a = release b /\ curve a = curve b /\
  vel_sens a = vel_sens b.

Lemma same_config_refl a : same_config a a.
Proof. repeat split. Qed.

Lemma same_config_trans a b c :
  same_config a b -> same_config b c -> same_config a c.
Proof. unfold same_config; intuition congruence. Qed.

Lemma same_config_samples a b :
  same_config a b ->
  attack_samples a = attack_samples b /\
  hold_samples a = hold_samples b /\
  release_samples a = release_samples b.
Proof.
  unfold same_config, attack_samples, hold_samples, release_samples.
  intros (_ & _ & _ & _ & -> & -> & -> & _). auto.
Qed.

Ltac case_bool :=
  repeat match goal with
  | |- context [ (?a <=? ?b) ] => destruct (Z.leb_spec a b)
  | |- context [ (?a >=? ?b) ] => rewrite (Z.geb_leb a b)
  | |- context [ (?a >? ?b) ] => rewrite (Z.gtb_ltb a b)
  | |- context [ (?a <? ?b) ] => destruct (Z.ltb_spec a b)
  | |- context [ (?a =? ?b) ] => destruct (Z.eqb_spec a b)
  end; cbn [andb orb negb].

Lemma start_attack_config inst : same_config (start_attack inst) inst.
Proof.
  unfold start_attack, attack_samples, hold_samples, release_samples.
  destruct inst; cbn. case_bool; repeat split.
Qed.

Lemma start_release_config inst : same_config (start_release inst) inst.
Proof.
  unfold start_release, release_samples.
  destruct inst; cbn. case_bool; repeat split.
Qed.

Lemma advance_one_sample_config inst :
  same_config (advance_one_sample inst) inst.
Proof.
  unfold advance_one_sample, hold_samples, release_samples.
  destruct inst; cbn. case_bool; cbn; case_bool; repeat split.
Qed.

Lemma note_on_config inst vel : same_config (note_on inst vel) inst.
Proof.
  unfold note_on. eapply same_config_trans; [apply start_attack_config|].
  destruct inst; repeat split.
Qed.

Lemma note_off_config inst : same_config (note_off inst) inst.
Proof.
  unfold note_off.
  destruct inst; cbn; case_bool; cbn; case_bool;
    try (eapply same_config_trans; [apply start_release_config|]);
    repeat split.
Qed.

Lemma ducker_on_midi_config inst msg len source :
  same_config (ducker_on_midi inst msg len source) inst.
Proof.
  unfold ducker_on_midi.
  repeat match goal with
  | |- same_config (if ?c then _ else _) _ => destruct c
  | |- same_config (let x := _ in _) _ => cbv zeta
  end; auto using same_config_refl, note_on_config, note_off_config.
Qed.

(** ** The Trigger scenario *)

(** channel=1, trigger_note=36, mode=Trigger, depth=1.0, attack=0,
    hold=0.1, release=0, curve=Linear, set through the parameter
    interface on a fresh instance. *)
Definition scenario_config : ducker_instance :=
  v2_set_param
    (v2_set_param (v2_set_param v2_create_instance "attack" "0") "hold" "0.1")
    "release" "0".

Lemma scenario_config_fields :
  scenario_config =
  {| channel := 1; trigger_note := 36; mode := MODE_TRIGGER;
     depth := F32.one; attack := F32.zero; hold := f_0_1;
     release := F32.zero; curve := CURVE_LINEAR; vel_sens := F32.zero;
     phase := PHASE_IDLE; phase_pos := 0; phase_len := 0;
     vel_depth := F32.zero; envelope := F32.one; active_notes := 0 |}.
Proof. vm_compute. reflexivity. Qed.

Lemma scenario_samples :
  attack_samples scenario_config = 0 /\
  hold_samples scenario_config = 2205 /\
  release_samples scenario_config = 0.
Proof. vm_compute. auto. Qed.

(** Note on, channel 1, note 36, velocity 127. *)
Definition note_on_msg : list byte := [x90; x24; x7f].

(** Note off, channel 1, note 36. *)
Definition note_off_msg : list byte := [x80; x24; x00].

(** The instance after [v2_process_block] is the state machine advanced
    once per frame. *)
Lemma process_frames_inst n : forall i inst audio,
  fst (process_frames n i inst audio) = Nat.iter n advance_one_sample inst.
Proof.
  induction n as [|n IH]; intros i inst audio; [reflexivity|].
  cbn [process_frames]. cbv zeta. rewrite IH.
  symmetry. apply Nat.iter_succ_r.
Qed.

(** C1. In the Trigger scenario (attack 0, hold 0.1 = 2205 samples,
    release 0, depth 1, linear curve), after the note-on with velocity
    127 the block processor applies gain exactly 0.0 to samples 0..2204
    and exactly 1.0 to sample 2205, and the phase after sample 2205 is
    Idle. *)
Theorem trigger_scenario_gain :
  let s := ducker_on_midi scenario_config note_on_msg 3 0 in
  firstn 2205 (gain_trace 2206 s) = repeat F32.zero 2205 /\
  nth_error (gain_trace 2206 s) 2205 = Some F32.one /\
  phase (fst (v2_process_block s (repeat 0 4412) 2206)) = PHASE_IDLE /\
  envelope (fst (v2_process_block s (repeat 0 4412) 2206)) = F32.one.
Proof.
  cbv zeta. unfold v2_process_block. rewrite process_frames_inst.
  vm_compute. auto.
Qed.

(** ** Entering the envelope *)

(** C3. For every instance, [start_attack] takes the phase length from
    the attack duration; when that length is <= 0 it sets the gain to
    1 - effective depth at once and enters Hold with Hold's length; when
    Hold's length is <= 0 too and the mode is Trigger it enters Release
    with Release's length; in any other mode (Gate) it stays in the
    zero-length Hold. *)
Theorem start_attack_cascade (inst : ducker_instance) :
  let s := start_attack inst in
  let a := attack_samples inst in
  let h := hold_samples inst in
  let r := release_samples inst in
  phase_pos s = 0 /\
  vel_depth s = vel_depth inst /\
  (0 < a ->
     phase s = PHASE_ATTACK /\ phase_len s = a /\
     envelope s = envelope inst) /\
  (a <= 0 ->
     envelope s = F32.sub F32.one (vel_depth inst) /\
     (0 < h -> phase s = PHASE_HOLD /\ phase_len s = h) /\
     (h <= 0 -> mode inst = MODE_TRIGGER ->
        phase s = PHASE_RELEASE /\ phase_len s = r) /\
     (h <= 0 -> mode inst <> MODE_TRIGGER ->
        phase s = PHASE_HOLD /\ phase_len s = h)).
Proof.
  unfold start_attack, attack_samples, hold_samples, release_samples.
  destruct inst; cbn.
  case_bool; cbn; repeat split; intros; try lia; try congruence;
    case_bool; cbn; repeat split; intros; try lia; try congruence.
Qed.

(** ** Trigger dispatch *)

Definition msg_status (msg : list byte) : Z :=
  Z.land (byte_val (nth 0 msg x00)) 240.
Definition msg_channel (msg : list byte) : Z :=
  Z.land (byte_val (nth 0 msg x00)) 15 + 1.
Definition msg_note (msg : list byte) : Z := byte_val (nth 1 msg x00).
Definition msg_velocity (msg : list byte) : Z := byte_val (nth 2 msg x00).

(** The message passes the length check and the channel and note
    filters of [ducker_on_midi]. *)
Definition accepts (inst : ducker_instance) (msg : list byte) (len : Z) : Prop :=
  3 <= len /\
  (channel inst <= 0 \/ msg_channel msg = channel inst) /\
  msg_note msg = trigger_note inst.

Definition is_start (msg : list byte) : Prop :=
  msg_status msg = 144 /\ 0 < msg_velocity msg.

Definition is_stop (msg : list byte) : Prop :=
  msg_status msg = 128 \/ (msg_status msg = 144 /\ msg_velocity msg = 0).

Lemma accepts_same_config a b msg len :
  same_config a b -> accepts a msg len -> accepts b msg len.
Proof.
  unfold same_config, accepts. intros (Hc & Hn & _) (Hl & Hch & Hnote).
  rewrite <- Hc, <- Hn. auto.
Qed.

Lemma on_midi_start inst msg len source :
  accepts inst msg len -> is_start msg ->
  ducker_on_midi inst msg len source = note_on inst (msg_velocity msg).
Proof.
  unfold accepts, is_start, ducker_on_midi.
  fold (msg_status msg) (msg_channel msg) (msg_note msg) (msg_velocity msg).
  intros (Hl & Hch & Hnote) (Hs & Hv). cbv zeta.
  rewrite Hs, Hnote.
  destruct (Z.ltb_spec len 3); [lia|].
  rewrite Z.eqb_refl. cbn [negb].
  replace ((channel inst >? 0) && negb (msg_channel msg =? channel inst))
    with false.
  - cbn. rewrite Z.gtb_ltb. destruct (Z.ltb_spec 0 (msg_velocity msg)); [reflexivity|lia].
  - rewrite Z.gtb_ltb. destruct (Z.ltb_spec 0 (channel inst)); [|reflexivity].
    destruct Hch as [ ? | -> ]; [lia|]. now rewrite Z.eqb_refl.
Qed.

Lemma on_midi_stop inst msg len source :
  accepts inst msg len -> is_stop msg ->
  ducker_on_midi inst msg len source = note_off inst.
Proof.
  unfold accepts, is_stop, ducker_on_midi.
  fold (msg_status msg) (msg_channel msg) (msg_note msg) (msg_velocity msg).
  intros (Hl & Hch & Hnote) Hs. cbv zeta.
  rewrite Hnote.
  destruct (Z.ltb_spec len 3); [lia|].
  rewrite Z.eqb_refl. cbn [negb].
  replace ((channel inst >? 0) && negb (msg_channel msg =? channel inst))
    with false.
  - destruct Hs as [ -> | [ -> -> ] ]; reflexivity.
  - rewrite Z.gtb_ltb. destruct (Z.ltb_spec 0 (channel inst)); [|reflexivity].
    destruct Hch as [ ? | -> ]; [lia|]. now rewrite Z.eqb_refl.
Qed.

(** C9. The handler does not drop every message that misses a nonzero
    channel filter: its test is [channel > 0], and [parse_channel]
    returns its numeric fallback without the bound 0..16 that the state
    restore applies.  Writing "-5" to the [channel] parameter of a fresh
    instance stores -79; a note-on on channel 1 then passes the filter,
    although the filter is nonzero and differs from 1, and starts a
    cycle. *)
Lemma negative_channel_filter_accepts :
  let inst := v2_set_param v2_create_instance "channel" "-5" in
  channel inst = -79 /\
  channel inst <> 0 /\
  msg_channel note_on_msg <> channel inst /\
  ducker_on_midi inst note_on_msg 3 0 <> inst.
Proof.
  vm_compute. repeat split; discriminate.
Qed.

(** X22. For every instance state, a trigger message that is
    truncated (announced length below 3) or that fails the filter
    (channel filter positive and different from the message's channel,
    or note different from [trigger_note]) leaves the whole instance
    unchanged. *)
Theorem non_qualifying_midi_dropped inst msg len source :
  len < 3 \/
  (0 < channel inst /\ msg_channel msg <> channel inst) \/
  msg_note msg <> trigger_note inst ->
  ducker_on_midi inst msg len source = inst.
Proof.
  unfold ducker_on_midi.
  fold (msg_status msg) (msg_channel msg) (msg_note msg) (msg_velocity msg).
  cbv zeta. intros H.
  destruct (Z.ltb_spec len 3); [reflexivity|].
  rewrite Z.gtb_ltb.
  destruct (Z.ltb_spec 0 (channel inst));
    destruct (Z.eqb_spec (msg_channel msg) (channel inst));
    destruct (Z.eqb_spec (msg_note msg) (trigger_note inst));
    cbn; try reflexivity; exfalso; intuition lia.
Qed.

Lemma non_qualifying_midi_dropped_witness :
  ducker_on_midi v2_create_instance [x91; x24; x7f] 3 0 = v2_create_instance /\
  ducker_on_midi v2_create_instance [x90; x25; x7f] 3 0 = v2_create_instance /\
  ducker_on_midi v2_create_instance [x90; x24] 2 0 = v2_create_instance.
Proof.
  split; [|split]; apply non_qualifying_midi_dropped.
  - right; left. vm_compute. split; [reflexivity|discriminate].
  - right; right. vm_compute. discriminate.
  - left. lia.
Defined.

(** ** Reachable states *)

(** The envelope state of a created instance; the parameters may have
    been written. *)
Definition fresh (inst : ducker_instance) : Prop :=
  phase inst = PHASE_IDLE /\ phase_pos inst = 0 /\ phase_len inst = 0 /\
  vel_depth inst = F32.zero /\ envelope inst = F32.one /\
  active_notes inst = 0.

(** States reached from a fresh instance by trigger events and processed
    samples, the configuration being left alone. *)
Inductive reachable : ducker_instance -> Prop :=
| reach_fresh inst : fresh inst -> reachable inst
| reach_midi s msg len source :
    reachable s -> reachable (ducker_on_midi s msg len source)
| reach_sample s : reachable s -> reachable (advance_one_sample s).

Lemma reachable_block s audio frames :
  reachable s -> reachable (fst (v2_process_block s audio frames)).
Proof.
  intros H. unfold v2_process_block. rewrite process_frames_inst.
  induction (Z.to_nat frames) as [|n IH]; [exact H|].
  change (reachable (advance_one_sample (Nat.iter n advance_one_sample s))).
  now apply reach_sample.
Qed.

Lemma fresh_create : fresh v2_create_instance.
Proof. repeat split. Qed.

Lemma wrap32_small z : INT_MIN <= z <= INT_MAX -> wrap32 z = z.
Proof.
  unfold wrap32, INT_MIN, INT_MAX. intros H.
  rewrite Z.mod_small; lia.
Qed.

Lemma to_int_range x : INT_MIN <= F32.to_int x <= INT_MAX.
Proof.
  unfold F32.to_int, INT_MIN, INT_MAX.
  destruct x as [s|s| |s m e]; try destruct s; lia.
Qed.

Lemma ms_to_samples_range x : INT_MIN <= ms_to_samples x <= INT_MAX.
Proof. apply to_int_range. Qed.

(** What holds of the position inside a phase. *)
Definition phase_ok (s : ducker_instance) : Prop :=
  (phase s = PHASE_IDLE \/ phase s = PHASE_ATTACK \/
   phase s = PHASE_HOLD \/ phase s = PHASE_RELEASE) /\
  phase_len s <= INT_MAX /\
  (phase s = PHASE_ATTACK -> 0 <= phase_pos s < phase_len s) /\
  (phase s = PHASE_HOLD -> mode s = MODE_TRIGGER ->
     0 <= phase_pos s < phase_len s) /\
  (phase s = PHASE_RELEASE ->
     0 <= phase_pos s < phase_len s \/
     (phase_len s <= 0 /\ phase_pos s = 0)).

Lemma fresh_phase_ok inst : fresh inst -> phase_ok inst.
Proof.
  unfold fresh, phase_ok. intros (-> & -> & -> & _).
  unfold PHASE_IDLE, PHASE_ATTACK, PHASE_HOLD, PHASE_RELEASE, INT_MAX.
  repeat split; auto; intros; try discriminate; lia.
Qed.

Ltac samples_range :=
  repeat match goal with
  | |- context [ms_to_samples ?x] =>
      let H := fresh "Hr" in
      let v := fresh "len" in
      pose proof (ms_to_samples_range x) as H;
      generalize dependent (ms_to_samples x); intros v H
  end.

Ltac phase_cases :=
  unfold PHASE_IDLE, PHASE_ATTACK, PHASE_HOLD, PHASE_RELEASE,
    MODE_TRIGGER, MODE_GATE, INT_MIN, INT_MAX in *;
  repeat split; auto; intros; try discriminate; try lia.

Lemma start_attack_phase_ok inst : phase_ok (start_attack inst).
Proof.
  unfold start_attack, attack_samples, hold_samples, release_samples, phase_ok.
  destruct inst; cbn. samples_range.
  case_bool; cbn; case_bool; phase_cases.
Qed.

Lemma start_release_phase_ok inst :
  phase_len inst <= INT_MAX -> phase_ok (start_release inst).
Proof.
  unfold start_release, release_samples, phase_ok.
  destruct inst; cbn. samples_range. intros Hl.
  case_bool; cbn; phase_cases.
Qed.

Lemma note_off_phase_ok inst : phase_ok inst -> phase_ok (note_off inst).
Proof.
  intros H. unfold note_off.
  assert (Hs : forall i, phase_ok i ->
     phase_ok (if (mode i =? MODE_GATE) && (active_notes i =? 0)
               then if (phase i =? PHASE_HOLD) || (phase i =? PHASE_ATTACK)
                    then start_release i else i
               else i)).
  { intros i Hi.
    destruct ((mode i =? MODE_GATE) && (active_notes i =? 0)); auto.
    destruct ((phase i =? PHASE_HOLD) || (phase i =? PHASE_ATTACK)); auto.
    apply start_release_phase_ok. apply Hi. }
  cbv zeta. apply Hs.
  destruct (active_notes inst >? 0); exact H.
Qed.

Lemma ducker_on_midi_phase_ok inst msg len source :
  phase_ok inst -> phase_ok (ducker_on_midi inst msg len source).
Proof.
  intros H. unfold ducker_on_midi. cbv zeta.
  repeat match goal with
  | |- phase_ok (if ?c then _ else _) => destruct c
  end; auto using note_off_phase_ok.
  unfold note_on. apply start_attack_phase_ok.
Qed.

(** *** One tick, phase by phase *)

(** The instance with its envelope state replaced, configuration,
    effective depth and held count kept. *)
Definition with_state (i : ducker_instance) (ph pos len : Z) (env : float)
    : ducker_instance :=
  mkInst (channel i) (trigger_note i) (mode i) (depth i) (attack i) (hold i)
    (release i) (curve i) (vel_sens i) ph pos len (vel_depth i) env
    (active_notes i).

(** The gain at full duck of the current cycle. *)
Definition ducked (i : ducker_instance) : float :=
  F32.sub F32.one (vel_depth i).

(** The gain an Attack tick computes before it counts the sample. *)
Definition attack_gain (i : ducker_instance) : float :=
  if phase_len i >? 0 then
    F32.sub F32.one
      (F32.mul (vel_depth i)
         (shape_curve (curve i)
            (F32.div (F32.of_Z (phase_pos i)) (F32.of_Z (phase_len i))) false))
  else envelope i.

(** The gain a Release tick computes before it counts the sample. *)
Definition release_gain (i : ducker_instance) : float :=
  if phase_len i >? 0 then
    F32.add (F32.sub F32.one (vel_depth i))
      (F32.mul (vel_depth i)
         (shape_curve (curve i)
            (F32.div (F32.of_Z (phase_pos i)) (F32.of_Z (phase_len i))) true))
  else envelope i.

(** Entering Hold at full duck, with the Trigger-mode cascade into
    Release when Hold has no length. *)
Definition enter_hold (i : ducker_instance) : ducker_instance :=
  if (hold_samples i <=? 0) && (mode i =? MODE_TRIGGER)
  then with_state i PHASE_RELEASE 0 (release_samples i) (ducked i)
  else with_state i PHASE_HOLD 0 (hold_samples i) (ducked i).

Lemma advance_attack i :
  phase i = PHASE_ATTACK ->
  advance_one_sample i =
  if wrap32 (phase_pos i + 1) >=? phase_len i then enter_hold i
  else with_state i PHASE_ATTACK (wrap32 (phase_pos i + 1)) (phase_len i)
         (attack_gain i).
Proof.
  unfold advance_one_sample, enter_hold, attack_gain, ducked, with_state,
    hold_samples, release_samples.
  destruct i; cbn. intros ->. cbn.
  destruct (phase_len0 >? 0); cbn;
    destruct (wrap32 (phase_pos0 + 1) >=? phase_len0); cbn; try reflexivity;
    match goal with
    | |- context [ (?a <=? 0) && ?b ] => destruct ((a <=? 0) && b)
    end; reflexivity.
Qed.

Lemma advance_hold i :
  phase i = PHASE_HOLD ->
  advance_one_sample i =
  if (mode i =? MODE_TRIGGER) && (wrap32 (phase_pos i + 1) >=? phase_len i)
  then with_state i PHASE_RELEASE 0 (release_samples i) (ducked i)
  else with_state i PHASE_HOLD (wrap32 (phase_pos i + 1)) (phase_len i)
         (ducked i).
Proof.
  unfold advance_one_sample, ducked, with_state, release_samples.
  destruct i; cbn. intros ->. cbn.
  match goal with
  | |- context [ ?a && ?b ] => destruct (a && b)
  end; reflexivity.
Qed.

Lemma advance_release i :
  phase i = PHASE_RELEASE ->
  advance_one_sample i =
  if wrap32 (phase_pos i + 1) >=? phase_len i
  then with_state i PHASE_IDLE (wrap32 (phase_pos i + 1)) (phase_len i) F32.one
  else with_state i PHASE_RELEASE (wrap32 (phase_pos i + 1)) (phase_len i)
         (release_gain i).
Proof.
  unfold advance_one_sample, release_gain, with_state.
  destruct i; cbn. intros ->. cbn.
  destruct (phase_len0 >? 0); cbn;
    destruct (wrap32 (phase_pos0 + 1) >=? phase_len0); reflexivity.
Qed.

Lemma advance_idle i :
  phase i <> PHASE_ATTACK -> phase i <> PHASE_HOLD ->
  phase i <> PHASE_RELEASE ->
  advance_one_sample i = i.
Proof.
  unfold advance_one_sample. intros Ha Hh Hr.
  destruct (Z.eqb_spec (phase i) PHASE_ATTACK); [contradiction|].
  destruct (Z.eqb_spec (phase i) PHASE_HOLD); [contradiction|].
  destruct (Z.eqb_spec (phase i) PHASE_RELEASE); [contradiction|].
  reflexivity.
Qed.

Lemma start_attack_eq i :
  start_attack i =
  if attack_samples i <=? 0 then enter_hold i
  else with_state i PHASE_ATTACK 0 (attack_samples i) (envelope i).
Proof.
  unfold start_attack, enter_hold, ducked, with_state, attack_samples,
    hold_samples, release_samples.
  destruct i; cbn.
  match goal with |- context [ ?a <=? 0 ] => destruct (a <=? 0) end; cbn;
    reflexivity.
Qed.

Lemma start_release_eq i :
  start_release i =
  if release_samples i <=? 0
  then with_state i PHASE_IDLE 0 (release_samples i) F32.one
  else with_state i PHASE_RELEASE 0 (release_samples i) (envelope i).
Proof.
  unfold start_release, with_state, release_samples.
  destruct i; cbn.
  match goal with |- context [ ?a <=? 0 ] => destruct (a <=? 0) end;
    reflexivity.
Qed.

Lemma samples_range i :
  INT_MIN <= attack_samples i <= INT_MAX /\
  INT_MIN <= hold_samples i <= INT_MAX /\
  INT_MIN <= release_samples i <= INT_MAX.
Proof. repeat split; apply ms_to_samples_range. Qed.

Lemma enter_hold_phase_ok i : phase_ok (enter_hold i).
Proof.
  unfold enter_hold, phase_ok.
  destruct (samples_range i) as (_ & Hh & Hr).
  case_bool; cbn; phase_cases.
Qed.

Lemma advance_one_sample_phase_ok inst :
  phase_ok inst -> phase_ok (advance_one_sample inst).
Proof.
  intros H. pose proof H as (Hph & Hlen & HA & HH & HR).
  destruct (samples_range inst) as (_ & Hh & Hr).
  destruct Hph as [Hp|[Hp|[Hp|Hp]]].
  - rewrite advance_idle; auto; rewrite Hp; discriminate.
  - rewrite (advance_attack _ Hp). specialize (HA Hp).
    rewrite wrap32_small by phase_cases.
    rewrite Z.geb_leb. destruct (Z.leb_spec (phase_len inst) (phase_pos inst + 1)).
    + apply enter_hold_phase_ok.
    + unfold phase_ok; cbn; phase_cases.
  - rewrite (advance_hold _ Hp).
    destruct (Z.eqb_spec (mode inst) MODE_TRIGGER) as [Hm|Hm]; cbn [andb].
    + specialize (HH Hp Hm). rewrite wrap32_small by phase_cases.
      rewrite Z.geb_leb.
      destruct (Z.leb_spec (phase_len inst) (phase_pos inst + 1));
        unfold phase_ok; cbn; phase_cases.
    + unfold phase_ok; cbn; phase_cases.
  - rewrite (advance_release _ Hp). specialize (HR Hp).
    rewrite wrap32_small by phase_cases.
    rewrite Z.geb_leb.
    destruct (Z.leb_spec (phase_len inst) (phase_pos inst + 1));
      unfold phase_ok; cbn; phase_cases.
Qed.

Lemma reachable_phase_ok s : reachable s -> phase_ok s.
Proof.
  induction 1; auto using fresh_phase_ok, ducker_on_midi_phase_ok,
    advance_one_sample_phase_ok.
Qed.

Lemma reachable_iter n s :
  reachable s -> reachable (Nat.iter n advance_one_sample s).
Proof.
  intros H. induction n as [|n IH]; [exact H|].
  change (reachable (advance_one_sample (Nat.iter n advance_one_sample s))).
  now apply reach_sample.
Qed.

(** The default instance switched to Gate mode, and the Trigger scenario
    switched to Gate mode. *)
Definition gate_default : ducker_instance :=
  v2_set_param v2_create_instance "mode" "Gate".

Definition gate_scenario_config : ducker_instance :=
  v2_set_param scenario_config "mode" "Gate".

Lemma fresh_scenarios :
  fresh scenario_config /\ fresh gate_default /\ fresh gate_scenario_config.
Proof. vm_compute. repeat split. Qed.

(** C2 as stated fails on two reachable states.  In Gate mode the Hold
    position runs past a positive Hold length (default durations, 5000
    samples after the note-on); in the Trigger scenario the tick that
    ends Hold enters a Release of length 0 and stays there until the
    next sample. *)
Lemma phase_position_counterexample :
  let g := Nat.iter 5000 advance_one_sample
             (ducker_on_midi gate_default note_on_msg 3 0) in
  let t := Nat.iter 2205 advance_one_sample
             (ducker_on_midi scenario_config note_on_msg 3 0) in
  (reachable g /\ phase g = PHASE_HOLD /\
   0 < phase_len g /\ ~ phase_pos g < phase_len g) /\
  (reachable t /\ phase t = PHASE_RELEASE /\ phase_len t = 0).
Proof.
  cbv zeta. split.
  - split.
    + apply reachable_iter, reach_midi, reach_fresh, fresh_scenarios.
    + vm_compute. repeat split; congruence.
  - split.
    + apply reachable_iter, reach_midi, reach_fresh, fresh_scenarios.
    + vm_compute. auto.
Qed.

(** C2 (amended). In every state reachable by trigger events and
    processed samples: the Attack phase always has a positive length and
    a position below it; so has Hold in Trigger mode; in Release the
    position is below the length whenever the length is positive; and a
    Release of length <= 0, once entered, is left for Idle with gain 1 by
    the next sample.  (Hold in Gate mode may have length 0 and its
    position is not bounded by its length.) *)
Theorem reachable_phase_position s :
  reachable s ->
  (phase s = PHASE_ATTACK -> 0 < phase_len s /\ phase_pos s < phase_len s) /\
  (phase s = PHASE_HOLD -> mode s = MODE_TRIGGER ->
     0 < phase_len s /\ phase_pos s < phase_len s) /\
  (phase s = PHASE_RELEASE -> 0 < phase_len s -> phase_pos s < phase_len s) /\
  (phase s = PHASE_RELEASE -> phase_len s <= 0 ->
     phase (advance_one_sample s) = PHASE_IDLE /\
     envelope (advance_one_sample s) = F32.one).
Proof.
  intros H. apply reachable_phase_ok in H.
  destruct H as (_ & Hlen & HA & HH & HR).
  split; [intros Hp; specialize (HA Hp); lia|].
  split; [intros Hp Hm; specialize (HH Hp Hm); lia|].
  split; [intros Hp Hl; specialize (HR Hp); lia|].
  intros Hp Hl. specialize (HR Hp).
  rewrite (advance_release _ Hp).
  assert (Hpos : phase_pos s = 0) by lia. rewrite Hpos.
  rewrite wrap32_small by (unfold INT_MIN, INT_MAX; lia).
  rewrite Z.geb_leb. destruct (Z.leb_spec (phase_len s) (0 + 1)); [|lia].
  split; reflexivity.
Qed.

Lemma reachable_phase_position_witness :
  let s := ducker_on_midi v2_create_instance note_on_msg 3 0 in
  phase s = PHASE_ATTACK /\ 0 < phase_len s /\ phase_pos s < phase_len s.
Proof.
  cbv zeta. split; [vm_compute; reflexivity|].
  pose proof (reachable_phase_position _
                (reach_midi _ note_on_msg 3 0 (reach_fresh _ fresh_create)))
    as (HA & _).
  apply HA. vm_compute; reflexivity.
Defined.

(** ** Gate mode *)

Lemma note_off_fields i :
  let n := if active_notes i >? 0 then active_notes i - 1 else active_notes i in
  active_notes (note_off i) = n /\
  vel_depth (note_off i) = vel_depth i /\
  (((mode i =? MODE_GATE) && (n =? 0) &&
    ((phase i =? PHASE_HOLD) || (phase i =? PHASE_ATTACK))) = false ->
   phase (note_off i) = phase i /\ phase_pos (note_off i) = phase_pos i /\
   phase_len (note_off i) = phase_len i /\ envelope (note_off i) = envelope i) /\
  (((mode i =? MODE_GATE) && (n =? 0) &&
    ((phase i =? PHASE_HOLD) || (phase i =? PHASE_ATTACK))) = true ->
   phase_pos (note_off i) = 0 /\
   phase_len (note_off i) = release_samples i /\
   (release_samples i <= 0 ->
      phase (note_off i) = PHASE_IDLE /\ envelope (note_off i) = F32.one) /\
   (0 < release_samples i ->
      phase (note_off i) = PHASE_RELEASE /\
      envelope (note_off i) = envelope i)).
Proof.
  unfold note_off. cbv zeta.
  destruct i; cbn [active_notes mode phase phase_pos phase_len envelope vel_depth].
  destruct (active_notes0 >? 0);
    cbn [active_notes mode phase phase_pos phase_len envelope vel_depth
         set_active_notes];
    match goal with
    | |- context [ (?a =? MODE_GATE) && (?b =? 0) ] =>
        destruct ((a =? MODE_GATE) && (b =? 0))
    end;
    cbn [andb];
    try (destruct ((phase0 =? PHASE_HOLD) || (phase0 =? PHASE_ATTACK)));
    try rewrite start_release_eq; unfold release_samples; cbn;
    repeat split; intros; try discriminate; case_bool; cbn; try reflexivity;
    try lia.
Qed.

(** C6 as stated fails in its last clause: the note-off branch lowers
    a positive held-note count before it looks at the phase.  A note-on
    in Trigger mode with attack and hold 0 enters Release holding one
    note; the mode is then written to Gate; the note-off that arrives in
    Release takes the count from 1 to 0. *)
Lemma stop_in_release_counterexample :
  let cfg := v2_set_param (v2_set_param v2_create_instance "attack" "0")
               "hold" "0" in
  let rel := v2_set_param (ducker_on_midi cfg note_on_msg 3 0) "mode" "Gate" in
  let off := ducker_on_midi rel note_off_msg 3 0 in
  mode rel = MODE_GATE /\ phase rel = PHASE_RELEASE /\
  active_notes rel = 1 /\ active_notes off = 0 /\ off <> rel.
Proof.
  cbv zeta. repeat split; try (vm_compute; reflexivity).
  intros H. apply (f_equal active_notes) in H. vm_compute in H. discriminate.
Qed.

(** C6 (amended). A qualifying stop event in Gate mode with a zero
    release duration, arriving in Hold and bringing the held count to 0,
    goes straight to Idle with the gain set to exactly 1.0 (the
    constant, no release curve is evaluated), so the sample processed
    next has gain 1.0; and a qualifying stop event arriving in Release
    or Idle leaves phase, position, length, gain and effective depth as
    they were: it lowers the held count by one when the count is
    positive and changes nothing else, so with a count of 0 the whole
    instance stays as it was. *)
Theorem gate_stop_release inst msg len source :
  accepts inst msg len -> is_stop msg ->
  let s := ducker_on_midi inst msg len source in
  (mode inst = MODE_GATE -> release_samples inst <= 0 ->
   phase inst = PHASE_HOLD -> 0 <= active_notes inst <= 1 ->
     active_notes s = 0 /\ phase s = PHASE_IDLE /\ envelope s = F32.one /\
     envelope (advance_one_sample s) = F32.one) /\
  (phase inst = PHASE_RELEASE \/ phase inst = PHASE_IDLE ->
     phase s = phase inst /\ phase_pos s = phase_pos inst /\
     phase_len s = phase_len inst /\ envelope s = envelope inst /\
     vel_depth s = vel_depth inst /\
     s = (if active_notes inst >? 0
          then set_active_notes inst (active_notes inst - 1) else inst) /\
     (active_notes inst <= 0 -> s = inst)).
Proof.
  intros Hacc Hstop. cbv zeta. rewrite (on_midi_stop _ _ _ _ Hacc Hstop).
  destruct (note_off_fields inst) as (Hn & Hv & Hsame & Hrel).
  cbv zeta in *. split.
  - intros Hm Hr Hp Ha.
    assert (Hz : (if active_notes inst >? 0 then active_notes inst - 1
                  else active_notes inst) = 0).
    { rewrite Z.gtb_ltb. destruct (Z.ltb_spec 0 (active_notes inst)); lia. }
    rewrite Hz in *. rewrite Hm, Hp in Hrel.
    destruct (Hrel eq_refl) as (_ & _ & Hidle & _).
    destruct (Hidle Hr) as (Hph & He).
    repeat split; auto.
    rewrite advance_idle; auto; rewrite Hph; discriminate.
  - intros Hp.
    assert (Hf : (phase inst =? PHASE_HOLD) || (phase inst =? PHASE_ATTACK) = false)
      by (destruct Hp as [-> | ->]; reflexivity).
    assert (Heq : note_off inst =
                  if active_notes inst >? 0
                  then set_active_notes inst (active_notes inst - 1)
                  else inst).
    { unfold note_off. cbv zeta.
      set (j := if active_notes inst >? 0
                then set_active_notes inst (active_notes inst - 1) else inst).
      assert (Hj : phase j = phase inst)
        by (subst j; destruct (active_notes inst >? 0); destruct inst;
            reflexivity).
      rewrite Hj, Hf.
      destruct ((mode j =? MODE_GATE) && (active_notes j =? 0)); reflexivity. }
    rewrite Hf, andb_false_r in Hsame.
    destruct (Hsame eq_refl) as (? & ? & ? & ?).
    repeat split; auto.
    intros Hle. rewrite Heq, Z.gtb_ltb.
    destruct (Z.ltb_spec 0 (active_notes inst)); [lia|reflexivity].
Qed.

(** The Gate scenario of the specification: the Trigger scenario in Gate
    mode, note-on, 1000 samples, then the note-off. *)
Lemma gate_stop_release_witness :
  let s0 := Nat.iter 1000 advance_one_sample
              (ducker_on_midi gate_scenario_config note_on_msg 3 0) in
  let s := ducker_on_midi s0 note_off_msg 3 0 in
  (phase s0 = PHASE_HOLD /\ envelope s0 = F32.zero) /\
  (active_notes s = 0 /\ phase s = PHASE_IDLE /\ envelope s = F32.one /\
   envelope (advance_one_sample s) = F32.one).
Proof.
  cbv zeta. split; [vm_compute; auto|].
  refine (proj1 (gate_stop_release _ note_off_msg 3 0 _ _) _ _ _ _).
  - vm_compute. repeat split; try discriminate. right; reflexivity.
  - left. reflexivity.
  - vm_compute; reflexivity.
  - vm_compute; discriminate.
  - vm_compute; reflexivity.
  - vm_compute. split; discriminate.
Defined.

Lemma advance_active_notes i :
  active_notes (advance_one_sample i) = active_notes i /\
  vel_depth (advance_one_sample i) = vel_depth i.
Proof.
  destruct (Z.eq_dec (phase i) PHASE_ATTACK) as [Hp|Ha].
  { rewrite (advance_attack _ Hp). unfold enter_hold.
    repeat match goal with |- context [if ?c then _ else _] => destruct c end;
      split; reflexivity. }
  destruct (Z.eq_dec (phase i) PHASE_HOLD) as [Hp|Hh].
  { rewrite (advance_hold _ Hp).
    repeat match goal with |- context [if ?c then _ else _] => destruct c end;
      split; reflexivity. }
  destruct (Z.eq_dec (phase i) PHASE_RELEASE) as [Hp|Hr].
  { rewrite (advance_release _ Hp).
    repeat match goal with |- context [if ?c then _ else _] => destruct c end;
      split; reflexivity. }
  rewrite advance_idle; auto.
Qed.

Lemma iter_active_notes n : forall i,
  active_notes (Nat.iter n advance_one_sample i) = active_notes i.
Proof.
  induction n as [|n IH]; intros i; [reflexivity|].
  rewrite Nat.iter_succ_r, IH. apply advance_active_notes.
Qed.

Lemma iter_config n : forall i,
  same_config (Nat.iter n advance_one_sample i) i.
Proof.
  induction n as [|n IH]; intros i; [apply same_config_refl|].
  rewrite Nat.iter_succ_r.
  eapply same_config_trans; [apply IH|apply advance_one_sample_config].
Qed.

(** In a mode other than Trigger, Hold is held: samples never leave it,
    and an Attack of [len] samples reaches it after [len - pos] ticks. *)
Lemma gate_hold_stays n : forall i,
  mode i <> MODE_TRIGGER -> phase i = PHASE_HOLD ->
  phase (Nat.iter n advance_one_sample i) = PHASE_HOLD.
Proof.
  induction n as [|n IH]; intros i Hm Hp; [exact Hp|].
  rewrite Nat.iter_succ_r. apply IH.
  - destruct (advance_one_sample_config i) as (_ & _ & -> & _). exact Hm.
  - rewrite (advance_hold _ Hp).
    destruct (Z.eqb_spec (mode i) MODE_TRIGGER); [contradiction|reflexivity].
Qed.

Lemma enter_hold_gate i :
  mode i <> MODE_TRIGGER -> phase (enter_hold i) = PHASE_HOLD.
Proof.
  unfold enter_hold. intros Hm.
  destruct (Z.eqb_spec (mode i) MODE_TRIGGER); [contradiction|].
  now rewrite andb_false_r.
Qed.

Lemma gate_attack_run n : forall i,
  mode i <> MODE_TRIGGER -> phase i = PHASE_ATTACK ->
  0 <= phase_pos i < phase_len i -> phase_len i <= INT_MAX ->
  let s := Nat.iter n advance_one_sample i in
  (phase s = PHASE_ATTACK \/ phase s = PHASE_HOLD) /\
  (phase_len i - phase_pos i <= Z.of_nat n -> phase s = PHASE_HOLD).
Proof.
  induction n as [|n IH]; intros i Hm Hp Hpos Hlen; cbv zeta.
  - cbn [Nat.iter nat_rect]. split; [auto|]. cbn. lia.
  - rewrite Nat.iter_succ_r. rewrite (advance_attack _ Hp).
    rewrite wrap32_small by (unfold INT_MIN, INT_MAX in *; lia).
    rewrite Z.geb_leb.
    destruct (Z.leb_spec (phase_len i) (phase_pos i + 1)).
    + assert (Hh : phase (Nat.iter n advance_one_sample (enter_hold i)) = PHASE_HOLD).
      { apply gate_hold_stays; [|now apply enter_hold_gate].
        unfold enter_hold.
        repeat match goal with |- context [if ?c then _ else _] => destruct c end;
          exact Hm. }
      rewrite Hh. auto.
    + destruct (IH (with_state i PHASE_ATTACK (phase_pos i + 1) (phase_len i)
                      (attack_gain i))) as (H1 & H2); cbn; auto; try lia.
      split; [exact H1|]. intros Hn. apply H2. cbn. lia.
Qed.

Lemma note_on_fields i v :
  active_notes (note_on i v) = wrap32 (active_notes i + 1) /\
  (mode i <> MODE_TRIGGER ->
   forall n,
     let s := Nat.iter n advance_one_sample (note_on i v) in
     (phase s = PHASE_ATTACK \/ phase s = PHASE_HOLD) /\
     (attack_samples i <= Z.of_nat n -> phase s = PHASE_HOLD)).
Proof.
  unfold note_on. cbv zeta. rewrite start_attack_eq.
  set (j := set_vel_depth _ _).
  assert (Hcfg : same_config j i) by (destruct i; repeat split).
  destruct (same_config_samples _ _ Hcfg) as (Ha & _).
  assert (Hmode : mode j = mode i) by apply Hcfg.
  assert (Han : active_notes j = wrap32 (active_notes i + 1)) by reflexivity.
  rewrite Ha. destruct (samples_range i) as (Hr & _).
  destruct (Z.leb_spec (attack_samples i) 0) as [Hle|Hgt].
  - split.
    + unfold enter_hold.
      repeat match goal with |- context [if ?c then _ else _] => destruct c end;
        exact Han.
    + intros Hm n. cbv zeta.
      assert (Hh : phase (Nat.iter n advance_one_sample (enter_hold j)) = PHASE_HOLD).
      { apply gate_hold_stays.
        - unfold enter_hold.
          repeat match goal with |- context [if ?c then _ else _] => destruct c end;
            cbn; congruence.
        - apply enter_hold_gate. congruence. }
      rewrite Hh. auto.
  - split; [exact Han|]. intros Hm n.
    destruct (gate_attack_run n
                (with_state j PHASE_ATTACK 0 (attack_samples i) (envelope j)))
      as (H1 & H2); cbn; auto; try lia; try congruence.
    cbv zeta. split; [exact H1|]. intros Hn. apply H2. cbn. lia.
Qed.

(** C7. In Gate mode, from an instance holding no note: two qualifying
    starts (any number of samples after each) followed by one qualifying
    stop leave the held count at 1 and the phase where it was, Attack or
    Hold, and Hold once the samples after the second start covered the
    attack; never Release or Idle.  In general a qualifying stop that
    leaves the held count positive changes nothing of the envelope. *)
Theorem gate_overlap_stays_held inst start1 start2 stop len source n1 n2 :
  mode inst = MODE_GATE -> active_notes inst = 0 ->
  accepts inst start1 len -> is_start start1 ->
  accepts inst start2 len -> is_start start2 ->
  accepts inst stop len -> is_stop stop ->
  let s1 := Nat.iter n1 advance_one_sample
              (ducker_on_midi inst start1 len source) in
  let s2 := Nat.iter n2 advance_one_sample
              (ducker_on_midi s1 start2 len source) in
  let s3 := ducker_on_midi s2 stop len source in
  active_notes s3 = 1 /\
  phase s3 = phase s2 /\ envelope s3 = envelope s2 /\
  (phase s3 = PHASE_ATTACK \/ phase s3 = PHASE_HOLD) /\
  (attack_samples inst <= Z.of_nat n2 -> phase s3 = PHASE_HOLD) /\
  (forall s, accepts s stop len ->
     0 < active_notes (ducker_on_midi s stop len source) ->
     phase (ducker_on_midi s stop len source) = phase s /\
     phase_pos (ducker_on_midi s stop len source) = phase_pos s /\
     phase_len (ducker_on_midi s stop len source) = phase_len s /\
     envelope (ducker_on_midi s stop len source) = envelope s).
Proof.
  intros Hm Ha0 Hacc1 Hst1 Hacc2 Hst2 Hacc3 Hstop. cbv zeta.
  set (t1 := ducker_on_midi inst start1 len source).
  set (s1 := Nat.iter n1 advance_one_sample t1).
  assert (Hc1 : same_config s1 inst).
  { eapply same_config_trans; [apply iter_config|apply ducker_on_midi_config]. }
  assert (Hsym : forall a b, same_config a b -> same_config b a).
  { unfold same_config. intuition congruence. }
  assert (Hs1a : active_notes s1 = 1).
  { unfold s1. rewrite iter_active_notes. unfold t1.
    rewrite (on_midi_start _ _ _ _ Hacc1 Hst1).
    rewrite (proj1 (note_on_fields _ _)), Ha0. reflexivity. }
  set (t2 := ducker_on_midi s1 start2 len source).
  set (s2 := Nat.iter n2 advance_one_sample t2).
  assert (Hacc2' : accepts s1 start2 len)
    by (eapply accepts_same_config; [apply Hsym, Hc1|exact Hacc2]).
  assert (Ht2 : t2 = note_on s1 (msg_velocity start2))
    by (apply on_midi_start; auto).
  assert (Hm1 : mode s1 <> MODE_TRIGGER).
  { destruct Hc1 as (_ & _ & -> & _). rewrite Hm. discriminate. }
  destruct (note_on_fields s1 (msg_velocity start2)) as (Hn2 & Hrun).
  specialize (Hrun Hm1 n2). cbv zeta in Hrun. rewrite <- Ht2 in Hrun, Hn2.
  fold s2 in Hrun. destruct Hrun as (Hph & Hhold).
  assert (Hs2a : active_notes s2 = 2).
  { unfold s2. rewrite iter_active_notes, Hn2, Hs1a. reflexivity. }
  assert (Hc2 : same_config s2 inst).
  { eapply same_config_trans; [apply iter_config|].
    eapply same_config_trans; [apply ducker_on_midi_config|exact Hc1]. }
  assert (Hacc3' : accepts s2 stop len)
    by (eapply accepts_same_config; [apply Hsym, Hc2|exact Hacc3]).
  assert (Hgen : forall s, accepts s stop len ->
     0 < active_notes (ducker_on_midi s stop len source) ->
     phase (ducker_on_midi s stop len source) = phase s /\
     phase_pos (ducker_on_midi s stop len source) = phase_pos s /\
     phase_len (ducker_on_midi s stop len source) = phase_len s /\
     envelope (ducker_on_midi s stop len source) = envelope s).
  { intros s Hacc. rewrite (on_midi_stop _ _ _ _ Hacc Hstop).
    destruct (note_off_fields s) as (Hn & _ & Hsame & _). cbv zeta in *.
    rewrite Hn. intros Hpos. apply Hsame.
    destruct (Z.eqb_spec
      (if active_notes s >? 0 then active_notes s - 1 else active_notes s) 0);
      [lia|].
    now rewrite andb_false_r. }
  assert (Hs3a : active_notes (ducker_on_midi s2 stop len source) = 1).
  { rewrite (on_midi_stop _ _ _ _ Hacc3' Hstop).
    rewrite (proj1 (note_off_fields s2)), Hs2a. reflexivity. }
  destruct (Hgen s2 Hacc3') as (Hp3 & _ & _ & He3); [lia|].
  rewrite Hp3.
  destruct (same_config_samples _ _ Hc1) as (Has & _).
  split; [exact Hs3a|]. split; [reflexivity|]. split; [exact He3|].
  split; [exact Hph|]. split; [|exact Hgen].
  intros Hn. apply Hhold. lia.
Qed.

Lemma gate_overlap_stays_held_witness :
  let s1 := Nat.iter 100 advance_one_sample
              (ducker_on_midi gate_default note_on_msg 3 0) in
  let s2 := Nat.iter 300 advance_one_sample
              (ducker_on_midi s1 note_on_msg 3 0) in
  let s3 := ducker_on_midi s2 note_off_msg 3 0 in
  active_notes s3 = 1 /\ phase s3 = PHASE_HOLD.
Proof.
  cbv zeta.
  pose proof (gate_overlap_stays_held gate_default note_on_msg note_on_msg
                note_off_msg 3 0 100 300) as H.
  cbv zeta in H.
  destruct H as (Ha & _ & _ & _ & Hh & _).
  - vm_compute; reflexivity.
  - vm_compute; reflexivity.
  - vm_compute. repeat split; try discriminate. right; reflexivity.
  - vm_compute. split; reflexivity.
  - vm_compute. repeat split; try discriminate. right; reflexivity.
  - vm_compute. split; reflexivity.
  - vm_compute. repeat split; try discriminate. right; reflexivity.
  - left. reflexivity.
  - split; [exact Ha|]. apply Hh. vm_compute. discriminate.
Defined.

(** ** Exact products *)

Lemma digits2_pos_shift23 m :
  digits2_pos (m~0~0~0~0~0~0~0~0~0~0~0~0~0~0~0~0~0~0~0~0~0~0~0) =
  (digits2_pos m + 23)%positive.
Proof. cbn [digits2_pos]. lia. Qed.

(** Multiplying a valid binary32 value by 1.0f returns it unchanged. *)
Lemma mul_one_r (d : float) :
  F32.valid d = true -> F32.mul d F32.one = d.
Proof.
  destruct d as [s|s| |s m e]; intros Hv; try reflexivity;
    unfold F32.mul, F32.one, SFmul; rewrite xorb_false_r; try reflexivity.
  unfold F32.valid, valid_binary, bounded, canonical_mantissa in Hv.
  apply andb_prop in Hv. destruct Hv as (Hc & Hb).
  apply Z.eqb_eq in Hc.
  rewrite Pos.mul_comm.
  change (8388608 * m)%positive
    with (m~0~0~0~0~0~0~0~0~0~0~0~0~0~0~0~0~0~0~0~0~0~0~0)%positive.
  unfold binary_round_aux, shr_fexp.
  cbn [Zdigits2]. rewrite digits2_pos_shift23.
  replace (Z.pos (digits2_pos m + 23) + (e + -23))
    with (Z.pos (digits2_pos m) + e) by lia.
  rewrite Hc. replace (e - (e + -23)) with 23 by lia.
  cbn [shr shr_record_of_loc iter_pos shr_1 orb].
  cbn [shr_m loc_of_shr_record round_nearest_even Zdigits2].
  replace (e + -23 + 23) with e by lia.
  rewrite Hc, Z.sub_diag. cbn [shr shr_m]. now rewrite Hb.
Qed.

(** ** Velocity scaling *)

(** [vel / 127.0f] for the velocity byte of a note-on. *)
Definition vel_norm (v : Z) : float := F32.div (F32.of_Z v) (F32.of_Z 127).

(** The scale the specification writes:
    1 - sensitivity + sensitivity * intensity/127. *)
Definition vel_scale_formula (vs : float) (v : Z) : float :=
  F32.add (F32.sub F32.one vs) (F32.mul vs (vel_norm v)).

Definition is_finite (x : float) : bool :=
  match x with S754_finite _ _ _ => true | _ => false end.

Lemma vel_norm_finite_all :
  forallb (fun n => is_finite (vel_norm (Z.of_nat n))) (seq 1 255) = true.
Proof. vm_compute. reflexivity. Qed.

Lemma vel_norm_finite v : 1 <= v <= 255 -> is_finite (vel_norm v) = true.
Proof.
  intros H. pose proof vel_norm_finite_all as Hall.
  rewrite forallb_forall in Hall.
  rewrite <- (Z2Nat.id v) by lia. apply Hall.
  apply in_seq. lia.
Qed.

Lemma byte_val_range b : 0 <= byte_val b <= 255.
Proof. destruct b; vm_compute; split; discriminate. Qed.

(** With a zero sensitivity the formula is exactly 1. *)
Lemma vel_scale_formula_zero s v :
  1 <= v <= 255 -> vel_scale_formula (S754_zero s) v = F32.one.
Proof.
  intros H. apply vel_norm_finite in H. unfold vel_scale_formula.
  destruct (vel_norm v); try discriminate. destruct s; reflexivity.
Qed.

(** C5 as stated fails at the low end.  With sensitivity 1 and depth 1
    the lowest intensity of a note-on, velocity 1, gives the effective
    depth 1/127, not 0; and a message with velocity 0 is a stop event,
    which does not write the effective depth at all (it stays at the 1.0
    the preceding note-on computed). *)
Lemma min_velocity_depth_counterexample :
  let inst := v2_set_param v2_create_instance "vel_sens" "1" in
  let low := ducker_on_midi inst [x90; x24; x01] 3 0 in
  let off := ducker_on_midi (ducker_on_midi inst note_on_msg 3 0)
               [x90; x24; x00] 3 0 in
  vel_sens inst = F32.one /\ depth inst = F32.one /\
  vel_depth low = vel_norm 1 /\ vel_depth low <> F32.zero /\
  F32.ltb F32.zero (vel_depth low) = true /\
  vel_depth off = F32.one.
Proof. vm_compute. repeat split; discriminate. Qed.

(** A sensitivity that is not positive takes the constant scale.  For
    a NaN, which [clampf] stores as it is, that is not the value of the
    formula: the note-on locks the depth itself, the formula gives a
    NaN. *)
Lemma nan_sensitivity_unit_scale :
  let inst := v2_set_param v2_create_instance "vel_sens" "nan" in
  vel_sens inst = S754_nan /\
  vel_depth (ducker_on_midi inst note_on_msg 3 0) = depth inst /\
  F32.mul (depth inst) (vel_scale_formula (vel_sens inst) 127) = S754_nan.
Proof. vm_compute. repeat split. Qed.

(** C5 (amended). For every qualifying note-on the effective depth is
    depth * scale: the code takes the scale 1 - sensitivity +
    sensitivity * velocity/127 when the sensitivity is positive and the
    constant 1 otherwise, so for every sensitivity >= 0 (1 being the
    value of the formula at 0) the effective depth is depth * (1 -
    sensitivity + sensitivity * velocity/127).  With sensitivity 0 the
    effective depth is the depth for every velocity; with sensitivity 1
    it is the depth at velocity 127 and depth * (1/127) at velocity 1,
    the lowest velocity of a note-on.  A qualifying message with
    velocity 0, like a note-off, is a stop event: the handler runs its
    note-off branch and the effective depth stays as it was. *)
Theorem velocity_scaled_depth inst msg len source :
  accepts inst msg len ->
  let s := ducker_on_midi inst msg len source in
  let v := msg_velocity msg in
  (is_start msg ->
     vel_depth s =
       F32.mul (depth inst)
         (if F32.gtb (vel_sens inst) F32.zero
          then vel_scale_formula (vel_sens inst) v else F32.one) /\
     (F32.leb F32.zero (vel_sens inst) = true ->
        vel_depth s =
        F32.mul (depth inst) (vel_scale_formula (vel_sens inst) v)) /\
     (F32.valid (depth inst) = true -> vel_sens inst = F32.zero ->
        vel_depth s = depth inst) /\
     (F32.valid (depth inst) = true -> vel_sens inst = F32.one -> v = 127 ->
        vel_depth s = depth inst) /\
     (vel_sens inst = F32.one -> v = 1 ->
        vel_depth s = F32.mul (depth inst) (vel_norm 1))) /\
  ((msg_status msg = 144 /\ v = 0) \/ msg_status msg = 128 ->
     s = note_off inst /\ vel_depth s = vel_depth inst).
Proof.
  intros Hacc. cbv zeta. split.
  - intros Hst. rewrite (on_midi_start _ _ _ _ Hacc Hst).
    assert (Hv : 1 <= msg_velocity msg <= 255).
    { destruct Hst as (_ & Hpos). unfold msg_velocity in *.
      pose proof (byte_val_range (nth 2 msg x00)). lia. }
    assert (Hvd : vel_depth (note_on inst (msg_velocity msg)) =
      F32.mul (depth inst)
        (if F32.gtb (vel_sens inst) F32.zero
         then vel_scale_formula (vel_sens inst) (msg_velocity msg)
         else F32.one)).
    { unfold note_on. cbv zeta. rewrite start_attack_eq. unfold enter_hold.
      destruct inst; cbn.
      destruct (F32.gtb _ _);
        repeat match goal with
               | |- context [if ?c then _ else _] => destruct c
               end; reflexivity. }
    rewrite Hvd. split; [reflexivity|]. repeat split.
    + intros Hle. destruct (vel_sens inst) as [s|s| |s m e]; try discriminate.
      * rewrite vel_scale_formula_zero by exact Hv. reflexivity.
      * destruct s; [discriminate|reflexivity].
      * destruct s; [discriminate|reflexivity].
    + intros Hval ->. apply mul_one_r, Hval.
    + intros Hval -> ->.
      change (F32.mul (depth inst) F32.one = depth inst).
      apply mul_one_r, Hval.
    + intros -> ->. reflexivity.
  - intros Hstop.
    assert (Hs : is_stop msg) by (unfold is_stop; tauto).
    rewrite (on_midi_stop _ _ _ _ Hacc Hs).
    split; [reflexivity|].
    destruct (note_off_fields inst) as (_ & Hv & _). exact Hv.
Qed.

(** Sensitivity 1: velocity 127 locks the depth itself, and the
    velocity-0 message that follows leaves the locked depth alone. *)
Lemma velocity_scaled_depth_witness :
  let inst := v2_set_param v2_create_instance "vel_sens" "1" in
  let on := ducker_on_midi inst note_on_msg 3 0 in
  vel_depth on = depth inst /\
  vel_depth (ducker_on_midi on [x90; x24; x00] 3 0) = vel_depth on.
Proof.
  cbv zeta. split.
  - refine (proj1 (proj2 (proj2 (proj2
              (proj1 (velocity_scaled_depth
                        (v2_set_param v2_create_instance "vel_sens" "1")
                        note_on_msg 3 0 _) _)))) _ _ _).
    + vm_compute. repeat split; try discriminate. right; reflexivity.
    + vm_compute. split; reflexivity.
    + vm_compute; reflexivity.
    + vm_compute; reflexivity.
    + vm_compute; reflexivity.
  - refine (proj2 (proj2 (velocity_scaled_depth
              (ducker_on_midi (v2_set_param v2_create_instance "vel_sens" "1")
                 note_on_msg 3 0)
              [x90; x24; x00] 3 0 _) _)).
    + vm_compute. repeat split; try discriminate. right; reflexivity.
    + left. vm_compute. split; reflexivity.
Defined.

(** ** Serialised state *)

Local Open Scope string_scope.
Local Open Scope Z_scope.

(** The two characters that follow a number in the state text. *)
Definition stop_char (c : ascii) : Prop := c = ","%char \/ c = "}"%char.

Lemma skip_space_stop s c R :
  stop_char c ->
  Libc.skip_space (s ++ String c R) = Libc.skip_space s ++ String c R.
Proof.
  intros Hc. induction s as [|a s IH]; cbn [append Libc.skip_space].
  - destruct Hc; subst; reflexivity.
  - destruct (Libc.isspace a); auto.
Qed.

Lemma skip_blank_stop s c R :
  stop_char c -> skip_blank (s ++ String c R) = skip_blank s ++ String c R.
Proof.
  intros Hc. induction s as [|a s IH]; cbn [append skip_blank].
  - destruct Hc; subst; reflexivity.
  - destruct (Ascii.eqb a " " || Ascii.eqb a "009"); auto.
Qed.

Lemma parse_sign_stop s c R :
  stop_char c ->
  Libc.parse_sign (s ++ String c R) =
  (fst (Libc.parse_sign s), snd (Libc.parse_sign s) ++ String c R).
Proof.
  intros Hc. destruct s as [|a s]; cbn [append].
  - destruct Hc; subst; reflexivity.
  - destruct a as [[] [] [] [] [] [] [] []]; reflexivity.
Qed.

Lemma take_digits_stop s c R : forall acc n,
  stop_char c ->
  Libc.take_digits (s ++ String c R) acc n =
  (fst (Libc.take_digits s acc n),
   snd (Libc.take_digits s acc n) ++ String c R).
Proof.
  induction s as [|a s IH]; intros acc n Hc; cbn [append Libc.take_digits].
  - destruct Hc; subst; reflexivity.
  - destruct (Libc.isdigit a); auto.
Qed.

Lemma take_hex_stop s c R : forall acc n,
  stop_char c ->
  Libc.take_hex (s ++ String c R) acc n =
  (fst (Libc.take_hex s acc n),
   snd (Libc.take_hex s acc n) ++ String c R).
Proof.
  induction s as [|a s IH]; intros acc n Hc; cbn [append Libc.take_hex].
  - destruct Hc; subst; reflexivity.
  - destruct (Libc.hexval a); auto.
Qed.

Lemma take_exponent_stop mk s c R :
  stop_char c -> mk = "e"%char \/ mk = "p"%char ->
  Libc.take_exponent mk (s ++ String c R) = Libc.take_exponent mk s.
Proof.
  intros Hc Hm. destruct s as [|a s]; cbn [append Libc.take_exponent].
  - destruct Hc, Hm; subst; reflexivity.
  - destruct (Ascii.eqb (Libc.tolower a) mk); [|reflexivity].
    rewrite parse_sign_stop by exact Hc.
    destruct (Libc.parse_sign s) as [neg r]. cbn [fst snd].
    rewrite take_digits_stop by exact Hc.
    destruct (Libc.take_digits r 0 0) as [[v k] r']. reflexivity.
Qed.

Lemma atof_decimal_stop neg s c R :
  stop_char c -> Libc.atof_decimal neg (s ++ String c R) = Libc.atof_decimal neg s.
Proof.
  intros Hc. unfold Libc.atof_decimal.
  rewrite take_digits_stop by exact Hc.
  destruct (Libc.take_digits s 0 0) as [[i ni] r]. cbn [fst snd].
  destruct r as [|x r]; cbn [append].
  - replace (match String c R with
             | String "."%char r' => Libc.take_digits r' i 0
             | _ => (i, 0, String c R)
             end) with (i, 0, String c R)
      by (destruct Hc; subst; reflexivity).
    replace (Libc.take_exponent "e" (String c R)) with 0
      by (destruct Hc; subst; reflexivity).
    reflexivity.
  - assert (Hx : x = "."%char \/ x <> "."%char)
      by (destruct (ascii_dec x "."); auto).
    destruct Hx as [->|Hx].
    + rewrite take_digits_stop by exact Hc.
      destruct (Libc.take_digits r i 0) as [[m nf] r']. cbn [fst snd].
      rewrite take_exponent_stop by auto. reflexivity.
    + replace (match String x (r ++ String c R) with
               | String "."%char r' => Libc.take_digits r' i 0
               | _ => (i, 0, String x (r ++ String c R))
               end) with (i, 0, String x r ++ String c R).
      2:{ destruct x as [[] [] [] [] [] [] [] []]; try reflexivity.
          contradiction Hx; reflexivity. }
      replace (match String x r with
               | String "."%char r' => Libc.take_digits r' i 0
               | _ => (i, 0, String x r)
               end) with (i, 0, String x r).
      2:{ destruct x as [[] [] [] [] [] [] [] []]; try reflexivity.
          contradiction Hx; reflexivity. }
      rewrite take_exponent_stop by auto. reflexivity.
Qed.

Lemma atof_hex_stop neg s c R :
  stop_char c -> Libc.atof_hex neg (s ++ String c R) = Libc.atof_hex neg s.
Proof.
  intros Hc. unfold Libc.atof_hex.
  destruct s as [|a s]; cbn [append].
  - destruct Hc; subst; reflexivity.
  - assert (Ha : a = "0"%char \/ a <> "0"%char)
      by (destruct (ascii_dec a "0"); auto).
    destruct Ha as [->|Ha].
    2:{ destruct a as [[] [] [] [] [] [] [] []]; try reflexivity.
        contradiction Ha; reflexivity. }
    destruct s as [|x s]; cbn [append].
    + destruct Hc; subst; reflexivity.
    + destruct (Ascii.eqb (Libc.tolower x) "x"); [|reflexivity].
      rewrite take_hex_stop by exact Hc.
      destruct (Libc.take_hex s 0 0) as [[i ni] r]. cbn [fst snd].
      destruct r as [|y r]; cbn [append].
      * replace (match String c R with
                 | String "."%char r' => Libc.take_hex r' i 0
                 | _ => (i, 0, String c R)
                 end) with (i, 0, String c R)
          by (destruct Hc; subst; reflexivity).
        replace (Libc.take_exponent "p" (String c R)) with 0
          by (destruct Hc; subst; reflexivity).
        reflexivity.
      * assert (Hy : y = "."%char \/ y <> "."%char)
          by (destruct (ascii_dec y "."); auto).
        destruct Hy as [->|Hy].
        -- rewrite take_hex_stop by exact Hc.
           destruct (Libc.take_hex r i 0) as [[m nf] r']. cbn [fst snd].
           rewrite take_exponent_stop by auto. reflexivity.
        -- replace (match String y (r ++ String c R) with
                    | String "."%char r' => Libc.take_hex r' i 0
                    | _ => (i, 0, String y (r ++ String c R))
                    end) with (i, 0, String y r ++ String c R).
           2:{ destruct y as [[] [] [] [] [] [] [] []]; try reflexivity.
               contradiction Hy; reflexivity. }
           replace (match String y r with
                    | String "."%char r' => Libc.take_hex r' i 0
                    | _ => (i, 0, String y r)
                    end) with (i, 0, String y r).
           2:{ destruct y as [[] [] [] [] [] [] [] []]; try reflexivity.
               contradiction Hy; reflexivity. }
           rewrite take_exponent_stop by auto. reflexivity.
Qed.

Definition found (o : option string) : bool :=
  match o with Some _ => true | None => false end.

Lemma strip_ci_stop p : forall s c R,
  stop_char c ->
  (forall a, In a (list_ascii_of_string p) -> a <> c) ->
  found (Libc.strip_ci p (s ++ String c R)) = found (Libc.strip_ci p s).
Proof.
  induction p as [|a p IH]; intros s c R Hc Hp.
  - destruct s; reflexivity.
  - destruct s as [|b s]; cbn [append Libc.strip_ci].
    + replace (Libc.tolower c) with c by (destruct Hc; subst; reflexivity).
      destruct (Ascii.eqb_spec a c) as [->|Hn]; [|reflexivity].
      exfalso. apply (Hp c); [left|]; reflexivity.
    + destruct (Ascii.eqb a (Libc.tolower b)); [|reflexivity].
      apply IH; [exact Hc|]. intros x Hx. apply Hp. right. exact Hx.
Qed.

(** [atof] never reads past the comma or the closing brace. *)
Lemma atof_stop s c R :
  stop_char c -> Libc.atof (s ++ String c R) = Libc.atof s.
Proof.
  intros Hc. unfold Libc.atof.
  rewrite skip_space_stop, parse_sign_stop by exact Hc.
  destruct (Libc.parse_sign (Libc.skip_space s)) as [neg r]. cbn [fst snd].
  rewrite atof_hex_stop, atof_decimal_stop by exact Hc.
  destruct (Libc.atof_hex neg r); [reflexivity|].
  destruct (Libc.atof_decimal neg r); [reflexivity|].
  assert (Hi : found (Libc.strip_ci "inf" (r ++ String c R)) =
               found (Libc.strip_ci "inf" r)).
  { apply strip_ci_stop; [exact Hc|].
    intros a Ha. cbn in Ha.
    destruct Hc; subst; intuition (subst; discriminate). }
  assert (Hn : found (Libc.strip_ci "nan" (r ++ String c R)) =
               found (Libc.strip_ci "nan" r)).
  { apply strip_ci_stop; [exact Hc|].
    intros a Ha. cbn in Ha.
    destruct Hc; subst; intuition (subst; discriminate). }
  destruct (Libc.strip_ci "inf" (r ++ String c R)),
           (Libc.strip_ci "inf" r); try discriminate; try reflexivity.
  destruct (Libc.strip_ci "nan" (r ++ String c R)),
           (Libc.strip_ci "nan" r); try discriminate; reflexivity.
Qed.

(** *** Searching the state text *)

Fixpoint no_quote (s : string) : bool :=
  match s with
  | EmptyString => true
  | String c r => negb (Ascii.eqb c "034") && no_quote r
  end.

Lemma strstr_step c hay needle :
  prefix needle (String c hay) = false ->
  Libc.strstr (String c hay) needle = Libc.strstr hay needle.
Proof. intros H. cbn [Libc.strstr]. now rewrite H. Qed.

Lemma strstr_here hay needle :
  prefix needle hay = true -> Libc.strstr hay needle = Some hay.
Proof. intros H. destruct hay; cbn [Libc.strstr]; now rewrite H. Qed.

(** A key, which starts with a quote, is not found inside a number. *)
Lemma strstr_skip_number num rest key :
  no_quote num = true ->
  Libc.strstr (num ++ rest) (String "034" key) =
  Libc.strstr rest (String "034" key).
Proof.
  induction num as [|c num IH]; intros H; [reflexivity|].
  cbn [no_quote] in H. apply andb_prop in H. destruct H as (Hc & Hn).
  cbn [append]. rewrite strstr_step; [auto|].
  cbn [prefix]. destruct (ascii_dec "034" c) as [<-|]; [discriminate|reflexivity].
Qed.

(** The state text around its nine numbers. *)
Definition state_shape (n1 n2 n3 f4 f5 f6 f7 n8 f9 : string) : string :=
  "{" ++ dq ++ "channel" ++ dq ++ ":" ++ n1
  ++ "," ++ dq ++ "trigger_note" ++ dq ++ ":" ++ n2
  ++ "," ++ dq ++ "mode" ++ dq ++ ":" ++ n3
  ++ "," ++ dq ++ "depth" ++ dq ++ ":" ++ f4
  ++ "," ++ dq ++ "attack" ++ dq ++ ":" ++ f5
  ++ "," ++ dq ++ "hold" ++ dq ++ ":" ++ f6
  ++ "," ++ dq ++ "release" ++ dq ++ ":" ++ f7
  ++ "," ++ dq ++ "curve" ++ dq ++ ":" ++ n8
  ++ "," ++ dq ++ "vel_sens" ++ dq ++ ":" ++ f9
  ++ "}".

Lemma state_string_shape inst :
  state_string inst =
  state_shape (Libc.fmt_d (channel inst)) (Libc.fmt_d (trigger_note inst))
    (Libc.fmt_d (mode inst)) (Libc.fmt_f 3 (depth inst))
    (Libc.fmt_f 3 (attack inst)) (Libc.fmt_f 3 (hold inst))
    (Libc.fmt_f 3 (release inst)) (Libc.fmt_d (curve inst))
    (Libc.fmt_f 3 (vel_sens inst)).
Proof. reflexivity. Qed.

(** The value [json_get_number] reads from the number text [n]. *)
Definition number_value (n : string) : float :=
  F64.to_f32 (Libc.atof (skip_blank n)).

Lemma prefix_nil h : prefix "" h = true.
Proof. destruct h; reflexivity. Qed.

Lemma prefix_cons c a h : prefix (String c a) (String c h) = prefix a h.
Proof. cbn [prefix]. destruct (ascii_dec c c); [reflexivity|congruence]. Qed.

Ltac scan_text :=
  repeat first
    [ rewrite strstr_here by (repeat rewrite prefix_cons; apply prefix_nil)
    | rewrite strstr_step by reflexivity
    | rewrite strstr_skip_number by assumption ].

Ltac number_lookup :=
  unfold json_get_number, number_value;
  match goal with
  | |- context [snd (Libc.snprintf ?b ?n ?s)] =>
      let t := eval vm_compute in (snd (Libc.snprintf b n s)) in
      change (snd (Libc.snprintf b n s)) with t
  end;
  unfold state_shape, dq; cbn [append];
  scan_text;
  cbn [String.length ptr_add];
  rewrite skip_blank_stop, atof_stop
    by (first [left; reflexivity | right; reflexivity]);
  reflexivity.

Lemma prefix_quote_number key n R :
  no_quote n = true ->
  prefix (String "034" key) (n ++ String "," R) = false.
Proof.
  intros H. destruct n as [|c n]; cbn [append prefix]; [reflexivity|].
  cbn [no_quote] in H. apply andb_prop in H. destruct H as (Hc & _).
  destruct (ascii_dec "034" c) as [<-|]; [discriminate|reflexivity].
Qed.

Ltac string_lookup :=
  unfold json_get_string;
  match goal with
  | |- context [snd (Libc.snprintf ?b ?n ?s)] =>
      let t := eval vm_compute in (snd (Libc.snprintf b n s)) in
      change (snd (Libc.snprintf b n s)) with t
  end;
  unfold state_shape, dq; cbn [append];
  repeat first
    [ rewrite strstr_step by reflexivity
    | rewrite strstr_step
        by (repeat rewrite prefix_cons; apply prefix_quote_number; assumption)
    | rewrite strstr_skip_number by assumption ];
  reflexivity.

Section StateLookup.
Variables n1 n2 n3 f4 f5 f6 f7 n8 f9 : string.
Hypothesis Q1 : no_quote n1 = true.
Hypothesis Q2 : no_quote n2 = true.
Hypothesis Q3 : no_quote n3 = true.
Hypothesis Q4 : no_quote f4 = true.
Hypothesis Q5 : no_quote f5 = true.
Hypothesis Q6 : no_quote f6 = true.
Hypothesis Q7 : no_quote f7 = true.
Hypothesis Q8 : no_quote n8 = true.
Hypothesis Q9 : no_quote f9 = true.

Let text := state_shape n1 n2 n3 f4 f5 f6 f7 n8 f9.

Lemma lookup_channel :
  json_get_number text "channel" = Some (number_value n1).
Proof. subst text. number_lookup. Qed.

Lemma lookup_trigger_note :
  json_get_number text "trigger_note" = Some (number_value n2).
Proof. subst text. number_lookup. Qed.

Lemma lookup_mode :
  json_get_number text "mode" = Some (number_value n3).
Proof. subst text. number_lookup. Qed.

Lemma lookup_depth :
  json_get_number text "depth" = Some (number_value f4).
Proof. subst text. number_lookup. Qed.

Lemma lookup_attack :
  json_get_number text "attack" = Some (number_value f5).
Proof. subst text. number_lookup. Qed.

Lemma lookup_hold :
  json_get_number text "hold" = Some (number_value f6).
Proof. subst text. number_lookup. Qed.

Lemma lookup_release :
  json_get_number text "release" = Some (number_value f7).
Proof. subst text. number_lookup. Qed.

Lemma lookup_curve :
  json_get_number text "curve" = Some (number_value n8).
Proof. subst text. number_lookup. Qed.

Lemma lookup_vel_sens :
  json_get_number text "vel_sens" = Some (number_value f9).
Proof. subst text. number_lookup. Qed.

(** No key of the state text carries a string value. *)
Lemma lookup_strings :
  json_get_string text "channel" 32 = None /\
  json_get_string text "mode" 32 = None /\
  json_get_string text "curve" 32 = None.
Proof. subst text. repeat split; string_lookup. Qed.

End StateLookup.

(** *** The number texts hold no quote *)

Lemma no_quote_app a b :
  no_quote (a ++ b) = no_quote a && no_quote b.
Proof.
  induction a as [|c a IH]; [reflexivity|].
  cbn [append no_quote]. now rewrite IH, andb_assoc.
Qed.

Lemma no_quote_uint d : no_quote (NilEmpty.string_of_uint d) = true.
Proof. induction d; cbn; auto. Qed.

Lemma no_quote_fmt_d n : no_quote (Libc.fmt_d n) = true.
Proof.
  unfold Libc.fmt_d, NilZero.string_of_int, NilZero.string_of_uint.
  assert (H : forall d,
    no_quote match d with
             | Decimal.Nil => "0"
             | _ => NilEmpty.string_of_uint d
             end = true).
  { intros d. pose proof (no_quote_uint d). destruct d; auto. }
  destruct (Z.to_int n) as [d|d]; cbn [no_quote]; rewrite H; reflexivity.
Qed.

Lemma no_quote_pad w : forall k, no_quote (Libc.pad_digits w k) = true.
Proof.
  induction w as [|w IH]; intros k; [reflexivity|].
  cbn [Libc.pad_digits]. rewrite no_quote_app, IH.
  assert (H : 0 <= k mod 10 < 10) by (apply Z.mod_pos_bound; lia).
  assert (Hc : k mod 10 = 0 \/ k mod 10 = 1 \/ k mod 10 = 2 \/ k mod 10 = 3 \/
               k mod 10 = 4 \/ k mod 10 = 5 \/ k mod 10 = 6 \/ k mod 10 = 7 \/
               k mod 10 = 8 \/ k mod 10 = 9) by lia.
  repeat (destruct Hc as [Hc|Hc]; [rewrite Hc; reflexivity|]).
  rewrite Hc; reflexivity.
Qed.

Lemma no_quote_fmt_f w x : no_quote (Libc.fmt_f w x) = true.
Proof.
  assert (Hb : forall k,
    no_quote (Libc.fmt_d (k / 10 ^ Z.of_nat w) ++
              match w with
              | O => ""
              | S _ => "." ++ Libc.pad_digits w (k mod 10 ^ Z.of_nat w)
              end) = true).
  { intros k. rewrite no_quote_app, no_quote_fmt_d.
    destruct w; [reflexivity|].
    rewrite no_quote_app, no_quote_pad. reflexivity. }
  unfold Libc.fmt_f. destruct x as [s|s| |s m e].
  - rewrite no_quote_app, Hb. destruct s; reflexivity.
  - destruct s; reflexivity.
  - reflexivity.
  - rewrite no_quote_app, Hb. destruct s; reflexivity.
Qed.

(** *** What the restore reads back *)

(** The float a three-decimal rendering restores to. *)
Definition restored (x : float) : float :=
  clamp01 (number_value (Libc.fmt_f 3 x)).

(** The integer a [%d] rendering restores to under the clamp to
    [0, hi]. *)
Definition restored_int (hi : float) (n : Z) : Z :=
  F32.to_int (clampf (number_value (Libc.fmt_d n)) F32.zero hi).

Lemma restored_int_all hi bound :
  forallb (fun k => restored_int hi (Z.of_nat k) =? Z.of_nat k)
          (seq 0 (S bound)) = true ->
  forall n, 0 <= n <= Z.of_nat bound -> restored_int hi n = n.
Proof.
  intros Hall n Hn. rewrite forallb_forall in Hall.
  rewrite <- (Z2Nat.id n) by lia. apply Z.eqb_eq, Hall, in_seq. lia.
Qed.

Lemma restored_channel n :
  0 <= n <= 16 -> restored_int (F32.of_Z 16) n = n.
Proof. apply (restored_int_all _ 16). vm_compute. reflexivity. Qed.

Lemma restored_trigger_note n :
  0 <= n <= 127 -> restored_int (F32.of_Z 127) n = n.
Proof. apply (restored_int_all _ 127). vm_compute. reflexivity. Qed.

Lemma restored_mode n : 0 <= n <= 1 -> restored_int F32.one n = n.
Proof. apply (restored_int_all _ 1). vm_compute. reflexivity. Qed.

Lemma restored_curve n : 0 <= n <= 3 -> restored_int F32.three n = n.
Proof. apply (restored_int_all _ 3). vm_compute. reflexivity. Qed.

(** Writing the state text of [inst] into any instance. *)
Lemma restore_state_fields base inst :
  let r := restore_state base (state_string inst) in
  channel r = restored_int (F32.of_Z 16) (channel inst) /\
  trigger_note r = restored_int (F32.of_Z 127) (trigger_note inst) /\
  mode r = restored_int F32.one (mode inst) /\
  depth r = restored (depth inst) /\
  attack r = restored (attack inst) /\
  hold r = restored (hold inst) /\
  release r = restored (release inst) /\
  curve r = restored_int F32.three (curve inst) /\
  vel_sens r = restored (vel_sens inst) /\
  phase r = phase base /\ phase_pos r = phase_pos base /\
  phase_len r = phase_len base /\ vel_depth r = vel_depth base /\
  envelope r = envelope base /\ active_notes r = active_notes base.
Proof.
  cbv zeta. unfold restore_state, restored, restored_int, clamp01.
  rewrite state_string_shape.
  pose proof (no_quote_fmt_d (channel inst)) as Q1.
  pose proof (no_quote_fmt_d (trigger_note inst)) as Q2.
  pose proof (no_quote_fmt_d (mode inst)) as Q3.
  pose proof (no_quote_fmt_f 3 (depth inst)) as Q4.
  pose proof (no_quote_fmt_f 3 (attack inst)) as Q5.
  pose proof (no_quote_fmt_f 3 (hold inst)) as Q6.
  pose proof (no_quote_fmt_f 3 (release inst)) as Q7.
  pose proof (no_quote_fmt_d (curve inst)) as Q8.
  pose proof (no_quote_fmt_f 3 (vel_sens inst)) as Q9.
  destruct (lookup_strings (Libc.fmt_d (channel inst))
              (Libc.fmt_d (trigger_note inst)) (Libc.fmt_d (mode inst))
              (Libc.fmt_f 3 (depth inst)) (Libc.fmt_f 3 (attack inst))
              (Libc.fmt_f 3 (hold inst)) (Libc.fmt_f 3 (release inst))
              (Libc.fmt_d (curve inst)) (Libc.fmt_f 3 (vel_sens inst)))
    as (S1 & S2 & S3); try assumption.
  rewrite S1, S2, S3.
  rewrite lookup_channel by assumption.
  rewrite lookup_trigger_note by assumption.
  rewrite lookup_mode by assumption.
  rewrite lookup_depth by assumption.
  rewrite lookup_attack by assumption.
  rewrite lookup_hold by assumption.
  rewrite lookup_release by assumption.
  rewrite lookup_curve by assumption.
  rewrite lookup_vel_sens by assumption.
  repeat split.
Qed.

(** *** Parameters in the unit range *)

(** A binary32 value of the parameter domain [0, 1]. *)
Definition in_unit (x : float) : Prop :=
  F32.valid x = true /\ F32.leb F32.zero x = true /\ F32.leb x F32.one = true.

(** The three-decimal text of [k / 1000]. *)
Definition unit3 (k : Z) : string :=
  Libc.fmt_d (k / 1000) ++ "." ++ Libc.pad_digits 3 (k mod 1000).

Lemma digits2_pos_bound m : Z.pos m < 2 ^ Z.pos (digits2_pos m).
Proof.
  induction m as [m IH|m IH|]; cbn [digits2_pos]; [| |reflexivity];
    rewrite Pos2Z.inj_succ, Z.pow_succ_r by lia; lia.
Qed.

Lemma div_nearest_even_unit n d :
  0 < d -> 0 <= n <= 1000 * d -> 0 <= Libc.div_nearest_even n d <= 1000.
Proof.
  intros Hd Hn. unfold Libc.div_nearest_even.
  pose proof (Z.div_mod n d ltac:(lia)) as Hdm.
  pose proof (Z.mod_pos_bound n d Hd) as Hr.
  assert (Hq : 0 <= n / d <= 1000).
  { split; [apply Z.div_pos; lia|].
    apply Z.div_le_upper_bound; lia. }
  assert (Hfull : n / d = 1000 -> n mod d = 0) by nia.
  destruct (Z.compare_spec (2 * (n mod d)) d);
    try destruct (Z.even (n / d)); nia.
Qed.

Lemma leb_one_bound m e :
  F32.leb (S754_finite false m e) F32.one = true ->
  e < -23 \/ (e = -23 /\ Z.pos m <= 8388608).
Proof.
  unfold F32.leb, SFleb, SFcompare, F32.one.
  destruct (Z.compare_spec e (-23)) as [He|He|He]; try discriminate.
  - intros H. right. split; [exact He|].
    assert (Hle : (m <= 8388608)%positive).
    { unfold Pos.le, Pos.compare. intros E. rewrite E in H. discriminate. }
    apply Pos2Z.pos_le_pos in Hle. exact Hle.
  - intros _. left. exact He.
Qed.

Lemma valid_digits m e s :
  F32.valid (S754_finite s m e) = true -> Z.pos m < 16777216.
Proof.
  unfold F32.valid, valid_binary, bounded, canonical_mantissa, fexp.
  intros Hv. apply andb_prop in Hv. destruct Hv as (Hc & _).
  apply Z.eqb_eq in Hc.
  pose proof (digits2_pos_bound m) as Hd.
  assert (Hle : Z.pos (digits2_pos m) <= 24) by (unfold F32.prec in *; lia).
  assert (2 ^ Z.pos (digits2_pos m) <= 2 ^ 24)
    by (apply Z.pow_le_mono_r; lia).
  change (2 ^ 24) with 16777216 in *. lia.
Qed.

Lemma in_unit_text x :
  in_unit x ->
  x = S754_zero true \/
  exists k, 0 <= k <= 1000 /\ Libc.fmt_f 3 x = unit3 k.
Proof.
  intros (Hv & H0 & H1).
  destruct x as [s|s| |s m e]; try discriminate.
  - destruct s; [left; reflexivity|].
    right. exists 0. split; [lia|reflexivity].
  - destruct s; discriminate.
  - right. destruct s; [discriminate|].
    apply leb_one_bound in H1. apply valid_digits in Hv.
    destruct e as [|p|p]; try lia.
    exists (Libc.div_nearest_even (Z.pos m * 1000) (2 ^ Z.pos p)).
    split; [|reflexivity].
    apply div_nearest_even_unit; [apply Z.pow_pos_nonneg; lia|].
    assert (Hp : 2 ^ 23 <= 2 ^ Z.pos p) by (apply Z.pow_le_mono_r; lia).
    change (2 ^ 23) with 8388608 in Hp.
    destruct H1 as [He|(He & Hm)].
    + assert (Hp' : 2 ^ 24 <= 2 ^ Z.pos p) by (apply Z.pow_le_mono_r; lia).
      change (2 ^ 24) with 16777216 in Hp'. lia.
    + lia.
Qed.

(** Every three-decimal text of the unit range restores to a value that
    renders to the same text. *)
Lemma unit3_fixed_all :
  forallb (fun n =>
             String.eqb
               (Libc.fmt_f 3 (clamp01 (number_value (unit3 (Z.of_nat n)))))
               (unit3 (Z.of_nat n)))
          (seq 0 1001) = true.
Proof. vm_compute. reflexivity. Qed.

Lemma restored_text x :
  in_unit x -> Libc.fmt_f 3 (restored x) = Libc.fmt_f 3 x.
Proof.
  intros H. destruct (in_unit_text x H) as [->|(k & Hk & Ht)];
    [vm_compute; reflexivity|].
  unfold restored. rewrite Ht.
  pose proof unit3_fixed_all as Hall. rewrite forallb_forall in Hall.
  specialize (Hall (Z.to_nat k)). rewrite Z2Nat.id in Hall by lia.
  assert (Hin : In (Z.to_nat k) (seq 0 1001)) by (apply in_seq; lia).
  apply Hall in Hin. now apply String.eqb_eq in Hin.
Qed.

(** The text [v2_get_param] leaves in a buffer long enough for it. *)
Lemma get_state_text inst buf buf_len :
  Z.of_nat (String.length (state_string inst)) < buf_len ->
  snd (v2_get_param inst "state" buf buf_len) = state_string inst.
Proof.
  intros H. unfold v2_get_param. cbn [String.eqb Ascii.eqb Bool.eqb].
  unfold Libc.snprintf.
  destruct (Z.eqb_spec buf_len 0); [lia|].
  destruct (Z.leb_spec buf_len (Z.of_nat (String.length (state_string inst))));
    [lia|].
  now rewrite andb_false_r.
Qed.

(** C8 as stated fails.  A depth written as "0.0246" reads back as
    "0.02"; its state text carries "0.025", which restores to a value
    that reads back as "0.03".  (The same happens to a channel outside
    0..16: "100" is stored as 1600 and reads back as "Omni", the restored
    instance holds 16.) *)
Lemma state_round_trip_counterexample :
  let a := v2_set_param v2_create_instance "depth" "0.0246" in
  let a' := v2_set_param v2_create_instance "state"
              (snd (v2_get_param a "state" "" 512)) in
  let b := v2_set_param v2_create_instance "channel" "100" in
  let b' := v2_set_param v2_create_instance "state"
              (snd (v2_get_param b "state" "" 512)) in
  (v2_get_param a "depth" "" 64 = (4, "0.02") /\
   v2_get_param a' "depth" "" 64 = (4, "0.03")) /\
  (channel b = 1600 /\
   v2_get_param b "channel" "" 64 = (4, "Omni") /\
   v2_get_param b' "channel" "" 64 = (2, "16")).
Proof. vm_compute. repeat split. Qed.

(** C8 (amended). Reading the "state" parameter of an instance whose
    channel, trigger_note, mode and curve lie in their ranges, into a
    buffer that holds it, and writing that text as the "state" parameter
    of any instance (a fresh one in particular) gives an instance with
    the same get-by-name results for channel, trigger_note, mode and
    curve.  Each float parameter is restored as the binary32 value of
    its three-decimal rendering: its get-by-name result is the original
    one whenever the parameter is such a value, and when all five lie in
    [0, 1] the restored instance has the same "state" text. *)
Theorem state_round_trip base inst buf buf_len :
  Z.of_nat (String.length (state_string inst)) < buf_len ->
  0 <= channel inst <= 16 -> 0 <= trigger_note inst <= 127 ->
  0 <= mode inst <= 1 -> 0 <= curve inst <= 3 ->
  let r := v2_set_param base "state"
             (snd (v2_get_param inst "state" buf buf_len)) in
  (forall b n,
     v2_get_param r "channel" b n = v2_get_param inst "channel" b n /\
     v2_get_param r "trigger_note" b n = v2_get_param inst "trigger_note" b n /\
     v2_get_param r "mode" b n = v2_get_param inst "mode" b n /\
     v2_get_param r "curve" b n = v2_get_param inst "curve" b n) /\
  (depth r = restored (depth inst) /\ attack r = restored (attack inst) /\
   hold r = restored (hold inst) /\ release r = restored (release inst) /\
   vel_sens r = restored (vel_sens inst)) /\
  (forall b n,
     (restored (depth inst) = depth inst ->
      v2_get_param r "depth" b n = v2_get_param inst "depth" b n) /\
     (restored (attack inst) = attack inst ->
      v2_get_param r "attack" b n = v2_get_param inst "attack" b n) /\
     (restored (hold inst) = hold inst ->
      v2_get_param r "hold" b n = v2_get_param inst "hold" b n) /\
     (restored (release inst) = release inst ->
      v2_get_param r "release" b n = v2_get_param inst "release" b n) /\
     (restored (vel_sens inst) = vel_sens inst ->
      v2_get_param r "vel_sens" b n = v2_get_param inst "vel_sens" b n)) /\
  (in_unit (depth inst) -> in_unit (attack inst) -> in_unit (hold inst) ->
   in_unit (release inst) -> in_unit (vel_sens inst) ->
   forall b n, v2_get_param r "state" b n = v2_get_param inst "state" b n).
Proof.
  intros Hlen Hch Hnote Hmode Hcurve. cbv zeta.
  rewrite (get_state_text _ _ _ Hlen).
  change (v2_set_param base "state" (state_string inst))
    with (restore_state base (state_string inst)).
  destruct (restore_state_fields base inst)
    as (Ec & En & Em & Ed & Ea & Eh & Er & Ecu & Ev & _).
  cbv zeta in *.
  set (r := restore_state base (state_string inst)) in *.
  rewrite restored_channel in Ec by exact Hch.
  rewrite restored_trigger_note in En by exact Hnote.
  rewrite restored_mode in Em by exact Hmode.
  rewrite restored_curve in Ecu by exact Hcurve.
  split; [|split; [|split]].
  - intros b n. unfold v2_get_param. cbn [String.eqb Ascii.eqb Bool.eqb].
    rewrite Ec, En, Em, Ecu. repeat split.
  - repeat split; assumption.
  - intros b n. unfold v2_get_param. cbn [String.eqb Ascii.eqb Bool.eqb].
    rewrite Ed, Ea, Eh, Er, Ev.
    repeat split; intros ->; reflexivity.
  - intros Ud Ua Uh Ur Uv b n.
    unfold v2_get_param. cbn [String.eqb Ascii.eqb Bool.eqb].
    unfold state_string.
    rewrite Ec, En, Em, Ecu, Ed, Ea, Eh, Er, Ev.
    rewrite !restored_text by assumption. reflexivity.
Qed.

Lemma state_round_trip_witness :
  let r := v2_set_param v2_create_instance "state"
             (snd (v2_get_param gate_default "state" "" 512)) in
  v2_get_param r "mode" "" 64 = v2_get_param gate_default "mode" "" 64 /\
  v2_get_param r "hold" "" 64 = v2_get_param gate_default "hold" "" 64.
Proof.
  cbv zeta.
  destruct (state_round_trip v2_create_instance gate_default "" 512)
    as (Hint & _ & Hflt & _);
    try (vm_compute; first [reflexivity | split; discriminate]).
  split.
  - apply (Hint "" 64).
  - apply (Hflt "" 64). vm_compute. reflexivity.
Defined.



(** * Rounding to binary32

    The facts about [SpecFloat]'s round-to-nearest-even the bounds on
    the gain rest on: what [binary_round_aux] computes, that rounding is
    monotone, and that it keeps representable values. *)

(** ** Shifting out low bits *)

Lemma digits2_pos_lower m : 2 ^ (Z.pos (digits2_pos m) - 1) <= Z.pos m.
Proof.
  induction m as [m IH|m IH|]; cbn [digits2_pos]; [| |reflexivity];
    rewrite Pos2Z.inj_succ;
    replace (Z.succ (Z.pos (digits2_pos m)) - 1)
      with (Z.succ (Z.pos (digits2_pos m) - 1)) by lia;
    rewrite Z.pow_succ_r by lia; lia.
Qed.

Lemma iter_pos_nat {A} (f : A -> A) p : forall x,
  iter_pos f p x = Nat.iter (Pos.to_nat p) f x.
Proof.
  induction p as [p IH|p IH|]; intros x; cbn [iter_pos].
  - rewrite !IH, Pos2Nat.inj_xI.
    replace (S (2 * Pos.to_nat p)) with (Pos.to_nat p + (Pos.to_nat p + 1))%nat
      by lia.
    rewrite !Nat.iter_add. reflexivity.
  - rewrite !IH, Pos2Nat.inj_xO.
    replace (2 * Pos.to_nat p)%nat with (Pos.to_nat p + Pos.to_nat p)%nat by lia.
    rewrite Nat.iter_add. reflexivity.
  - reflexivity.
Qed.

Lemma shr_1_nonneg m r s :
  0 <= m ->
  shr_1 (Build_shr_record m r s) = Build_shr_record (m / 2) (Z.odd m) (r || s).
Proof.
  intros Hm. destruct m as [|p|p]; [reflexivity| |lia].
  destruct p as [p|p|]; cbn [shr_1 Z.odd].
  - replace (Z.pos p~1 / 2) with (Z.pos p)
      by (apply Z.div_unique with 1; lia). reflexivity.
  - replace (Z.pos p~0 / 2) with (Z.pos p)
      by (apply Z.div_unique with 0; lia). reflexivity.
  - reflexivity.
Qed.

(** The record [n] shifts leave: the quotient, the last bit shifted out
    and whether anything was set below it (or in the initial record). *)
Definition shifted (m : Z) (r s : bool) (n : nat) : shr_record :=
  match n with
  | O => Build_shr_record m r s
  | S k =>
      Build_shr_record (m / 2 ^ Z.of_nat n) (Z.odd (m / 2 ^ Z.of_nat k))
        (r || s || negb (m mod 2 ^ Z.of_nat k =? 0))
  end.

Lemma mod_pow2_succ m k :
  0 <= k ->
  m mod 2 ^ (k + 1) = m mod 2 ^ k + (if Z.odd (m / 2 ^ k) then 2 ^ k else 0).
Proof.
  intros Hk. rewrite Z.pow_add_r, Z.pow_1_r by lia.
  assert (Hp : 0 < 2 ^ k) by (apply Z.pow_pos_nonneg; lia).
  rewrite Z.rem_mul_r by lia.
  rewrite <- Z.bit0_mod, Z.bit0_odd.
  destruct (Z.odd (m / 2 ^ k)); cbn [Z.b2z]; lia.
Qed.

Lemma iter_shr_1 m r s n :
  0 <= m -> Nat.iter n shr_1 (Build_shr_record m r s) = shifted m r s n.
Proof.
  intros Hm. induction n as [|n IH]; [reflexivity|].
  cbn [Nat.iter nat_rect]. change (nat_rect _ _ _ n) with
    (Nat.iter n shr_1 (Build_shr_record m r s)). rewrite IH.
  unfold shifted at 1. destruct n as [|k].
  - rewrite shr_1_nonneg by exact Hm. cbn [shifted].
    change (2 ^ Z.of_nat 1) with 2. change (2 ^ Z.of_nat 0) with 1.
    rewrite Z.div_1_r, Z.mod_1_r. cbn. now rewrite orb_false_r.
  - assert (Hk : 0 <= Z.of_nat k) by lia.
    assert (Hp : 0 < 2 ^ Z.of_nat k) by (apply Z.pow_pos_nonneg; lia).
    assert (Hq : 0 <= m / 2 ^ Z.of_nat (S k)).
    { apply Z.div_pos; [lia|apply Z.pow_pos_nonneg; lia]. }
    rewrite shr_1_nonneg by exact Hq.
    cbn [shifted].
    replace (Z.of_nat (S (S k))) with (Z.of_nat (S k) + 1) by lia.
    replace (Z.of_nat (S k)) with (Z.of_nat k + 1) by lia.
    f_equal.
    + rewrite (Z.pow_add_r 2 (Z.of_nat k + 1) 1), Z.pow_1_r by lia.
      rewrite Z.div_div by (try apply Z.pow_pos_nonneg; lia). reflexivity.
    + rewrite (mod_pow2_succ m (Z.of_nat k)) by lia.
      pose proof (Z.mod_pos_bound m (2 ^ Z.of_nat k) Hp) as Hb.
      destruct (Z.odd (m / 2 ^ Z.of_nat k)); cbn [orb].
      * destruct (Z.eqb_spec (m mod 2 ^ Z.of_nat k + 2 ^ Z.of_nat k) 0);
          [lia|]. cbn [negb]. now rewrite orb_true_r.
      * rewrite Z.add_0_r. reflexivity.
Qed.

(** ** Rounding an integer quotient *)

Lemma round_shifted M n :
  0 <= M ->
  round_nearest_even (shr_m (shifted M false false n))
    (loc_of_shr_record (shifted M false false n)) =
  Libc.div_nearest_even M (2 ^ Z.of_nat n).
Proof.
  intros HM. unfold Libc.div_nearest_even. destruct n as [|k].
  - cbn [shifted shr_m loc_of_shr_record round_nearest_even].
    change (2 ^ Z.of_nat 0) with 1. rewrite Z.div_1_r, Z.mod_1_r. reflexivity.
  - cbn [shifted shr_m orb].
    assert (Hp : 0 < 2 ^ Z.of_nat k) by (apply Z.pow_pos_nonneg; lia).
    replace (Z.of_nat (S k)) with (Z.of_nat k + 1) by lia.
    rewrite (mod_pow2_succ M (Z.of_nat k)) by lia.
    rewrite (Z.pow_add_r 2 (Z.of_nat k) 1), Z.pow_1_r by lia.
    pose proof (Z.mod_pos_bound M (2 ^ Z.of_nat k) Hp) as Hb.
    destruct (Z.odd (M / 2 ^ Z.of_nat k));
      destruct (Z.eqb_spec (M mod 2 ^ Z.of_nat k) 0) as [Hz|Hz];
      cbn [negb loc_of_shr_record round_nearest_even].
    + rewrite Hz. rewrite (proj2 (Z.compare_eq_iff _ _)) by lia. reflexivity.
    + rewrite (proj2 (Z.compare_gt_iff _ _)) by lia. reflexivity.
    + rewrite (proj2 (Z.compare_lt_iff _ _)) by lia. reflexivity.
    + rewrite (proj2 (Z.compare_lt_iff _ _)) by lia. reflexivity.
Qed.

Lemma round_any_loc q l :
  round_nearest_even q l = q \/ round_nearest_even q l = q + 1.
Proof.
  destruct l as [|[]]; cbn [round_nearest_even]; auto.
  destruct (Z.even q); auto.
Qed.

Lemma div_nearest_even_bounds M d :
  0 < d ->
  M / d <= Libc.div_nearest_even M d <= M / d + 1.
Proof.
  intros Hd. unfold Libc.div_nearest_even.
  destruct (2 * (M mod d) ?= d); try destruct (Z.even (M / d)); lia.
Qed.

(** The binary32 exponent function. *)
Lemma fexp32 e : fexp F32.prec F32.emax e = Z.max (e - 24) (-149).
Proof. reflexivity. Qed.

Lemma Zdigits2_bounds M :
  0 < M -> 2 ^ (Zdigits2 M - 1) <= M < 2 ^ Zdigits2 M /\ 0 < Zdigits2 M.
Proof.
  intros HM. destruct M as [|p|p]; try lia. cbn [Zdigits2].
  pose proof (digits2_pos_lower p). pose proof (digits2_pos_bound p). lia.
Qed.

Lemma pow2_lt_inv a b : 0 <= b -> 2 ^ a < 2 ^ b -> a < b.
Proof.
  intros Hb H. destruct (Z.lt_ge_cases a b) as [|Hge]; [assumption|].
  apply (Z.pow_le_mono_r 2) in Hge; lia.
Qed.

Lemma Zdigits2_unique M d :
  0 < d -> 2 ^ (d - 1) <= M < 2 ^ d -> Zdigits2 M = d.
Proof.
  intros Hd HM.
  assert (0 < M) by (pose proof (Z.pow_pos_nonneg 2 (d - 1)); lia).
  destruct (Zdigits2_bounds M) as (Hb & Hpos); [assumption|].
  assert (Zdigits2 M - 1 < d) by (apply pow2_lt_inv; lia).
  assert (d - 1 < Zdigits2 M) by (apply pow2_lt_inv; lia).
  lia.
Qed.

(** The part of [binary_round_aux] after the first rounding. *)
Definition finish (s : bool) (m1 e1 : Z) : float :=
  let '(mrs, e) := shr_fexp F32.prec F32.emax m1 e1 loc_Exact in
  match shr_m mrs with
  | 0 => S754_zero s
  | Z.pos m =>
      if e <=? F32.emax - F32.prec then S754_finite s m e else S754_infinity s
  | Z.neg _ => S754_nan
  end.

(** The value of a finite binary32 number in units of 2^-149. *)
Definition scaled (x : float) : Z :=
  match x with
  | S754_finite s m e =>
      if s then - (Z.pos m * 2 ^ (e + 149)) else Z.pos m * 2 ^ (e + 149)
  | _ => 0
  end.

(** Zero or finite, with the sign bit [s]. *)
Definition signed_finite (s : bool) (x : float) : Prop :=
  match x with
  | S754_zero s' => s' = s
  | S754_finite s' _ _ => s' = s
  | _ => False
  end.

Lemma finish_spec s m1 e1 :
  0 <= m1 <= 16777216 -> -149 <= e1 <= 103 ->
  (-149 < e1 -> 8388608 <= m1) ->
  F32.valid (finish s m1 e1) = true /\
  signed_finite s (finish s m1 e1) /\
  scaled (finish s m1 e1) =
    if s then - (m1 * 2 ^ (e1 + 149)) else m1 * 2 ^ (e1 + 149).
Proof.
  intros Hm He Hn. unfold finish, shr_fexp. rewrite fexp32.
  destruct (Z.eq_dec m1 0) as [->|Hz].
  { cbn [Zdigits2]. replace (Z.max (0 + e1 - 24) (-149) - e1) with
      (Z.max (-24) (-149 - e1)) by lia.
    destruct (Z.max (-24) (-149 - e1)) eqn:E; try lia;
      cbn [shr shr_record_of_loc shr_m]; destruct s; repeat split. }
  destruct (Z.eq_dec m1 16777216) as [->|Hc].
  { cbn [Zdigits2 digits2_pos Pos.succ].
    replace (Z.max (25 + e1 - 24) (-149) - e1) with 1 by lia.
    cbn [shr iter_pos shr_record_of_loc shr_1 shr_m].
    destruct (Z.leb_spec (e1 + 1) (F32.emax - F32.prec)) as [_|Hov];
      [|unfold F32.emax, F32.prec in Hov; lia].
    split; [|split].
    - unfold F32.valid, valid_binary, bounded, canonical_mantissa.
      rewrite fexp32. cbn [digits2_pos Pos.succ].
      apply andb_true_intro. split; [apply Z.eqb_eq|apply Z.leb_le];
        unfold F32.emax, F32.prec; lia.
    - reflexivity.
    - cbn [scaled]. replace (e1 + 1 + 149) with (e1 + 149 + 1) by lia.
      rewrite Z.pow_add_r, Z.pow_1_r by lia. destruct s; lia. }
  assert (Hd : Zdigits2 m1 <= 24 /\ (-149 < e1 -> Zdigits2 m1 = 24)).
  { destruct (Zdigits2_bounds m1) as (Hb & Hpos); [lia|].
    split.
    - assert (Zdigits2 m1 - 1 < 24) by (apply pow2_lt_inv; [lia|];
        change (2 ^ 24) with 16777216; lia). lia.
    - intros Hgt. apply Zdigits2_unique; [lia|].
      change (2 ^ (24 - 1)) with 8388608. change (2 ^ 24) with 16777216.
      specialize (Hn Hgt). lia. }
  destruct Hd as (Hd1 & Hd2).
  replace (Z.max (Zdigits2 m1 + e1 - 24) (-149) - e1) with 0 by lia.
  cbn [shr shr_record_of_loc shr_m].
  destruct m1 as [|p|p]; try lia.
  destruct (Z.leb_spec e1 (F32.emax - F32.prec)) as [_|Hov];
    [|unfold F32.emax, F32.prec in Hov; lia].
  split; [|split].
  - unfold F32.valid, valid_binary, bounded, canonical_mantissa.
    rewrite fexp32. cbn [Zdigits2] in Hd1, Hd2.
    apply andb_true_intro. split; [apply Z.eqb_eq|apply Z.leb_le];
      unfold F32.emax, F32.prec; lia.
  - reflexivity.
  - reflexivity.
Qed.

Lemma shr_record_loc M l :
  shr_m (shr_record_of_loc M l) = M /\
  loc_of_shr_record (shr_record_of_loc M l) = l.
Proof. destruct l as [|[]]; split; reflexivity. Qed.

Lemma shifted_m M r s n :
  shr_m (shifted M r s n) = M / 2 ^ Z.of_nat n.
Proof.
  destruct n; [|reflexivity].
  cbn [shifted shr_m]. change (2 ^ Z.of_nat 0) with 1. now rewrite Z.div_1_r.
Qed.

(** What [binary_round_aux] does to a positive integer [M] at exponent
    [E] that lies at or below the exponent of the result: the quotient
    by the shift, rounded, then [finish]. *)
Lemma round_aux_spec s M E l :
  0 < M ->
  let E1 := Z.max (Zdigits2 M + E - 24) (-149) in
  E <= E1 ->
  exists m1,
    binary_round_aux F32.prec F32.emax s M E l = finish s m1 E1 /\
    M / 2 ^ (E1 - E) <= m1 <= M / 2 ^ (E1 - E) + 1 /\
    (l = loc_Exact -> m1 = Libc.div_nearest_even M (2 ^ (E1 - E))) /\
    0 <= m1 <= 16777216 /\ (-149 < E1 -> 8388608 <= m1).
Proof.
  intros HM E1 HE.
  destruct (Zdigits2_bounds M HM) as (Hb & Hdpos).
  set (n := E1 - E) in *.
  assert (Hn : 0 <= n) by lia.
  assert (Hp : 0 < 2 ^ n) by (apply Z.pow_pos_nonneg; lia).
  assert (Hq1 : M / 2 ^ n < 16777216).
  { apply Z.div_lt_upper_bound; [lia|].
    assert (2 ^ Zdigits2 M <= 2 ^ (n + 24)) by (apply Z.pow_le_mono_r; lia).
    rewrite Z.pow_add_r in H by lia. change (2 ^ 24) with 16777216 in H. lia. }
  assert (Hq0 : 0 <= M / 2 ^ n) by (apply Z.div_pos; lia).
  assert (Hq2 : -149 < E1 -> 8388608 <= M / 2 ^ n).
  { intros Hgt. apply Z.div_le_lower_bound; [lia|].
    assert (Hnd : n + 23 = Zdigits2 M - 1) by lia.
    rewrite <- Hnd, Z.pow_add_r in Hb by lia.
    change (2 ^ 23) with 8388608 in Hb. lia. }
  assert (Hfirst : exists mrs,
    shr_fexp F32.prec F32.emax M E l = (mrs, E1) /\
    shr_m mrs = M / 2 ^ n /\
    (l = loc_Exact ->
     round_nearest_even (shr_m mrs) (loc_of_shr_record mrs) =
     Libc.div_nearest_even M (2 ^ n))).
  { unfold shr_fexp. rewrite fexp32. fold E1. fold n.
    destruct n as [|p|p] eqn:En; try lia.
    - exists (shr_record_of_loc M l). cbn [shr].
      destruct (shr_record_loc M l) as (Hm & Hl).
      split; [f_equal; lia|]. split.
      + rewrite Hm. change (2 ^ 0) with 1. now rewrite Z.div_1_r.
      + intros ->. apply (round_shifted M 0). lia.
    - exists (iter_pos shr_1 p (shr_record_of_loc M l)). cbn [shr].
      split; [f_equal; lia|].
      rewrite iter_pos_nat.
      assert (Hrec : exists r0 s0,
                shr_record_of_loc M l = Build_shr_record M r0 s0 /\
                (l = loc_Exact -> r0 = false /\ s0 = false)).
      { destruct l as [|[]]; cbn [shr_record_of_loc];
          do 2 eexists; (split; [reflexivity|]); intros; try discriminate.
        split; reflexivity. }
      destruct Hrec as (r0 & s0 & -> & Hex).
      rewrite iter_shr_1 by lia.
      split; [now rewrite shifted_m, positive_nat_Z|].
      intros Hl. destruct (Hex Hl) as (-> & ->).
      rewrite round_shifted by lia. now rewrite positive_nat_Z. }
  destruct Hfirst as (mrs & Hshr & Hm & Hex).
  exists (round_nearest_even (shr_m mrs) (loc_of_shr_record mrs)).
  split.
  { unfold binary_round_aux. rewrite Hshr. reflexivity. }
  rewrite Hm.
  destruct (round_any_loc (M / 2 ^ n) (loc_of_shr_record mrs)) as [Hr|Hr];
    rewrite Hr; repeat split; try lia; intros Hl;
    rewrite <- (Hex Hl), Hm; symmetry; exact Hr.
Qed.

(** ** Round to nearest even on scaled integers *)

(** [rnd k N] is the binary32 value nearest to [N * 2^(-149-k)], ties to
    even, in units of 2^-149, for [0 <= N] below the overflow
    threshold. *)
Definition rnd (k N : Z) : Z :=
  if N =? 0 then 0
  else
    let n := Z.max (Zdigits2 N - 24) k in
    Libc.div_nearest_even N (2 ^ n) * 2 ^ (n - k).

Lemma div_nearest_even_scale M d c :
  0 < d -> 0 < c ->
  Libc.div_nearest_even (M * c) (d * c) = Libc.div_nearest_even M d.
Proof.
  intros Hd Hc. unfold Libc.div_nearest_even.
  rewrite Z.div_mul_cancel_r by lia.
  rewrite Z.mul_mod_distr_r by lia.
  destruct (Z.compare_spec (2 * (M mod d * c)) (d * c));
    destruct (Z.compare_spec (2 * (M mod d)) d); try reflexivity; nia.
Qed.

Lemma div_nearest_even_exact m d :
  0 < d -> Libc.div_nearest_even (m * d) d = m.
Proof.
  intros Hd. unfold Libc.div_nearest_even.
  rewrite Z.div_mul, Z.mod_mul by lia.
  rewrite (proj2 (Z.compare_lt_iff _ _)) by lia. reflexivity.
Qed.

Lemma div_nearest_even_mono N1 N2 d :
  0 < d -> N1 <= N2 ->
  Libc.div_nearest_even N1 d <= Libc.div_nearest_even N2 d.
Proof.
  intros Hd HN.
  pose proof (div_nearest_even_bounds N1 d Hd) as B1.
  pose proof (div_nearest_even_bounds N2 d Hd) as B2.
  assert (Hq : N1 / d <= N2 / d) by (apply Z.div_le_mono; lia).
  destruct (Z.eq_dec (N1 / d) (N2 / d)) as [He|Hne]; [|lia].
  pose proof (Z.div_mod N1 d ltac:(lia)) as D1.
  pose proof (Z.div_mod N2 d ltac:(lia)) as D2.
  assert (Hr : N1 mod d <= N2 mod d) by nia.
  unfold Libc.div_nearest_even. rewrite He.
  destruct (Z.compare_spec (2 * (N1 mod d)) d);
    destruct (Z.compare_spec (2 * (N2 mod d)) d);
    destruct (Z.even (N2 / d)); lia.
Qed.

Lemma Zdigits2_mono N1 N2 :
  0 < N1 -> N1 <= N2 -> Zdigits2 N1 <= Zdigits2 N2.
Proof.
  intros H1 H2.
  destruct (Zdigits2_bounds N1) as (B1 & P1); [lia|].
  destruct (Zdigits2_bounds N2) as (B2 & P2); [lia|].
  assert (Zdigits2 N1 - 1 < Zdigits2 N2) by (apply pow2_lt_inv; lia). lia.
Qed.

Lemma Zdigits2_shift M j :
  0 < M -> 0 <= j -> Zdigits2 (M * 2 ^ j) = Zdigits2 M + j.
Proof.
  intros HM Hj. destruct (Zdigits2_bounds M HM) as (B & P).
  assert (Hp : 0 < 2 ^ j) by (apply Z.pow_pos_nonneg; lia).
  apply Zdigits2_unique; [lia|].
  replace (Zdigits2 M + j - 1) with (Zdigits2 M - 1 + j) by lia.
  rewrite !Z.pow_add_r by lia. nia.
Qed.

Lemma rnd_nonneg k N : 0 <= N -> 0 <= k -> 0 <= rnd k N.
Proof.
  intros HN Hk. unfold rnd. destruct (Z.eqb_spec N 0) as [|Hne]; [lia|].
  cbv zeta. set (n := Z.max (Zdigits2 N - 24) k).
  assert (0 < 2 ^ n) by (apply Z.pow_pos_nonneg; lia).
  assert (0 < 2 ^ (n - k)) by (apply Z.pow_pos_nonneg; lia).
  pose proof (div_nearest_even_bounds N (2 ^ n) ltac:(lia)).
  assert (0 <= N / 2 ^ n) by (apply Z.div_pos; lia). nia.
Qed.

(** The rounded value, before the division by [2^k]. *)
Lemma rnd_grid k N :
  0 < N -> 0 <= k ->
  let n := Z.max (Zdigits2 N - 24) k in
  rnd k N * 2 ^ k = Libc.div_nearest_even N (2 ^ n) * 2 ^ n.
Proof.
  intros HN Hk n. unfold rnd. destruct (Z.eqb_spec N 0) as [|Hne]; [lia|].
  fold n. rewrite <- Z.mul_assoc, <- Z.pow_add_r by lia.
  f_equal. f_equal. lia.
Qed.

(** Rounding is monotone. *)
Lemma rnd_mono k N1 N2 :
  0 <= k -> 0 <= N1 <= N2 -> rnd k N1 <= rnd k N2.
Proof.
  intros Hk HN.
  destruct (Z.eq_dec N1 0) as [->|Hz].
  { change (rnd k 0) with 0. apply rnd_nonneg; lia. }
  assert (Hpk : 0 < 2 ^ k) by (apply Z.pow_pos_nonneg; lia).
  apply (Z.mul_le_mono_pos_r _ _ (2 ^ k)); [lia|].
  rewrite !rnd_grid by lia. cbv zeta.
  pose proof (Zdigits2_mono N1 N2 ltac:(lia) ltac:(lia)) as Hd.
  destruct (Zdigits2_bounds N1) as (B1 & P1); [lia|].
  destruct (Zdigits2_bounds N2) as (B2 & P2); [lia|].
  set (n1 := Z.max (Zdigits2 N1 - 24) k).
  set (n2 := Z.max (Zdigits2 N2 - 24) k).
  assert (Hp1 : 0 < 2 ^ n1) by (apply Z.pow_pos_nonneg; lia).
  assert (Hp2 : 0 < 2 ^ n2) by (apply Z.pow_pos_nonneg; lia).
  destruct (Z.eq_dec n1 n2) as [He|Hne].
  - rewrite He.
    apply Z.mul_le_mono_nonneg_r; [lia|].
    apply div_nearest_even_mono; lia.
  - assert (Hlt : n1 < n2) by lia.
    assert (Hn2 : n2 = Zdigits2 N2 - 24) by lia.
    assert (Hd12 : Zdigits2 N1 < Zdigits2 N2) by lia.
    set (g := 2 ^ (n2 + 23 - n1)).
    assert (HG : g * 2 ^ n1 = 2 ^ (Zdigits2 N2 - 1)).
    { unfold g. rewrite <- Z.pow_add_r by lia. f_equal. lia. }
    assert (HG2 : 8388608 * 2 ^ n2 = 2 ^ (Zdigits2 N2 - 1)).
    { change 8388608 with (2 ^ 23). rewrite <- Z.pow_add_r by lia.
      f_equal. lia. }
    assert (HN1 : N1 < 2 ^ (Zdigits2 N2 - 1)).
    { assert (2 ^ Zdigits2 N1 <= 2 ^ (Zdigits2 N2 - 1))
        by (apply Z.pow_le_mono_r; lia). lia. }
    assert (Hq1 : N1 / 2 ^ n1 < g).
    { apply Z.div_lt_upper_bound; lia. }
    assert (Hq2 : 8388608 <= N2 / 2 ^ n2).
    { apply Z.div_le_lower_bound; lia. }
    pose proof (div_nearest_even_bounds N1 (2 ^ n1) Hp1).
    pose proof (div_nearest_even_bounds N2 (2 ^ n2) Hp2).
    transitivity (2 ^ (Zdigits2 N2 - 1)); nia.
Qed.

(** ** Valid values and their order *)

(** Zero of either sign, or finite and positive. *)
Definition zero_or_positive (x : float) : Prop :=
  match x with
  | S754_zero _ => True
  | S754_finite s _ _ => s = false
  | _ => False
  end.

(** A valid binary32 value that is zero or finite and not negative. *)
Definition nonneg (x : float) : Prop :=
  F32.valid x = true /\ zero_or_positive x.

Lemma signed_finite_positive x : signed_finite false x -> zero_or_positive x.
Proof. destruct x; cbn; auto. Qed.

Lemma valid_finite s m e :
  F32.valid (S754_finite s m e) = true ->
  Z.max (Z.pos (digits2_pos m) + e - 24) (-149) = e /\ e <= 104.
Proof.
  unfold F32.valid, valid_binary, bounded, canonical_mantissa.
  rewrite fexp32. intros H. apply andb_prop in H. destruct H as (Hc & Hb).
  apply Z.eqb_eq in Hc. apply Z.leb_le in Hb.
  unfold F32.emax, F32.prec in Hb. lia.
Qed.

Lemma valid_mantissa s m e :
  F32.valid (S754_finite s m e) = true ->
  -149 <= e <= 104 /\ Z.pos m < 16777216 /\ (-149 < e -> 8388608 <= Z.pos m).
Proof.
  intros H. apply valid_finite in H. destruct H as (Hc & Hb).
  pose proof (digits2_pos_lower m) as Hl.
  pose proof (digits2_pos_bound m) as Hu.
  split; [lia|]. split.
  - assert (2 ^ Z.pos (digits2_pos m) <= 2 ^ 24)
      by (apply Z.pow_le_mono_r; lia).
    change (2 ^ 24) with 16777216 in *. lia.
  - intros He. replace (Z.pos (digits2_pos m)) with 24 in Hl by lia.
    change (2 ^ (24 - 1)) with 8388608 in Hl. lia.
Qed.

Lemma scaled_nonneg x : nonneg x -> 0 <= scaled x.
Proof.
  intros (Hv & Hs).
  destruct x as [s|s| |s m e]; cbn [scaled zero_or_positive] in *; try lia.
  subst s. apply valid_mantissa in Hv.
  assert (0 < 2 ^ (e + 149)) by (apply Z.pow_pos_nonneg; lia). nia.
Qed.

(** Rounding keeps representable values. *)
Lemma rnd_exact k x :
  nonneg x -> 0 <= k -> rnd k (scaled x * 2 ^ k) = scaled x.
Proof.
  intros (Hv & Hs) Hk.
  destruct x as [s|s| |s m e]; cbn [zero_or_positive] in Hs;
    try contradiction; try reflexivity.
  subst s. cbn [scaled].
  pose proof (valid_finite _ _ _ Hv) as (Hc & Hb).
  assert (He : -149 <= e) by lia.
  assert (Hp : 0 < 2 ^ (e + 149)) by (apply Z.pow_pos_nonneg; lia).
  assert (Hpk : 0 < 2 ^ k) by (apply Z.pow_pos_nonneg; lia).
  unfold rnd.
  destruct (Z.eqb_spec (Z.pos m * 2 ^ (e + 149) * 2 ^ k) 0) as [Hz|Hz]; [nia|].
  cbv zeta.
  rewrite <- Z.mul_assoc, <- Z.pow_add_r by lia.
  rewrite Zdigits2_shift by lia. cbn [Zdigits2].
  replace (Z.max (Z.pos (digits2_pos m) + (e + 149 + k) - 24) k)
    with (e + 149 + k) by lia.
  rewrite div_nearest_even_exact by (apply Z.pow_pos_nonneg; lia).
  f_equal. f_equal. lia.
Qed.

Lemma compare_scaled m1 e1 m2 e2 :
  F32.valid (S754_finite false m1 e1) = true ->
  F32.valid (S754_finite false m2 e2) = true ->
  e1 < e2 ->
  Z.pos m1 * 2 ^ (e1 + 149) < Z.pos m2 * 2 ^ (e2 + 149).
Proof.
  intros H1 H2 He.
  apply valid_mantissa in H1. apply valid_mantissa in H2.
  destruct H1 as (R1 & U1 & _). destruct H2 as (R2 & _ & L2).
  specialize (L2 ltac:(lia)).
  assert (Hp : 0 < 2 ^ (e1 + 149)) by (apply Z.pow_pos_nonneg; lia).
  replace (e2 + 149) with (e1 + 149 + (e2 - e1)) by lia.
  rewrite (Z.pow_add_r 2 (e1 + 149) (e2 - e1)) by lia.
  assert (Hq : 2 ^ 1 <= 2 ^ (e2 - e1)) by (apply Z.pow_le_mono_r; lia).
  change (2 ^ 1) with 2 in Hq.
  generalize dependent (2 ^ (e1 + 149)). generalize dependent (2 ^ (e2 - e1)).
  intros a Ha b Hb.
  assert (H1 : 16777216 <= Z.pos m2 * a) by nia.
  assert (H2 : Z.pos m1 * b < 16777216 * b) by nia.
  assert (H3 : 16777216 * b <= Z.pos m2 * a * b) by nia.
  lia.
Qed.

Lemma leb_scaled x y :
  nonneg x -> nonneg y ->
  (F32.leb x y = true <-> scaled x <= scaled y) /\
  (F32.ltb x y = true <-> scaled x < scaled y).
Proof.
  intros (Vx & Sx) (Vy & Sy).
  destruct x as [sx|sx| |sx mx ex]; cbn [zero_or_positive] in Sx;
    try contradiction;
    destruct y as [sy|sy| |sy my ey]; cbn [zero_or_positive] in Sy;
    try contradiction; subst;
    unfold F32.leb, F32.ltb, SFleb, SFltb, SFcompare; cbn [scaled].
  - split; split; intros; try lia; try discriminate; reflexivity.
  - apply valid_mantissa in Vy.
    assert (0 < Z.pos my * 2 ^ (ey + 149))
      by (apply Z.mul_pos_pos; [lia|apply Z.pow_pos_nonneg; lia]).
    split; split; intros; try reflexivity; lia.
  - apply valid_mantissa in Vx.
    assert (0 < Z.pos mx * 2 ^ (ex + 149))
      by (apply Z.mul_pos_pos; [lia|apply Z.pow_pos_nonneg; lia]).
    split; split; intros; try discriminate; lia.
  - destruct (Z.compare_spec ex ey) as [He|He|He].
    + subst ey. change (Pos.compare_cont Eq mx my) with (Pos.compare mx my).
      apply valid_mantissa in Vx.
      assert (Hp : 0 < 2 ^ (ex + 149)) by (apply Z.pow_pos_nonneg; lia).
      rewrite Pos2Z.inj_compare.
      generalize dependent (2 ^ (ex + 149)). intros p Hp.
      destruct (Z.compare_spec (Z.pos mx) (Z.pos my));
        split; split; intros; try reflexivity; try discriminate; nia.
    + pose proof (compare_scaled _ _ _ _ Vx Vy He).
      split; split; intros; try reflexivity; lia.
    + pose proof (compare_scaled _ _ _ _ Vy Vx He).
      split; split; intros; try discriminate; lia.
Qed.

(** ** The rounding of an exact product or sum *)

Lemma round_aux_scaled s M E k :
  0 < M -> 0 <= k -> 0 <= E + 149 + k ->
  E <= Z.max (Zdigits2 M + E - 24) (-149) <= 103 ->
  let r := binary_round_aux F32.prec F32.emax s M E loc_Exact in
  F32.valid r = true /\ signed_finite s r /\
  scaled r = if s then - rnd k (M * 2 ^ (E + 149 + k))
             else rnd k (M * 2 ^ (E + 149 + k)).
Proof.
  intros HM Hk Hj HE. cbv zeta.
  destruct (round_aux_spec s M E loc_Exact HM) as (m1 & Hr & Hb & Hex & Hm & Hn);
    [lia|].
  rewrite Hr.
  destruct (finish_spec s m1 (Z.max (Zdigits2 M + E - 24) (-149)) Hm)
    as (Hv & Hs & Hval); [lia|exact Hn|].
  split; [exact Hv|]. split; [exact Hs|].
  rewrite Hval. rewrite (Hex eq_refl).
  set (E1 := Z.max (Zdigits2 M + E - 24) (-149)) in *.
  set (j := E + 149 + k) in *.
  assert (Hpj : 0 < 2 ^ j) by (apply Z.pow_pos_nonneg; lia).
  assert (Heq : rnd k (M * 2 ^ j) =
                Libc.div_nearest_even M (2 ^ (E1 - E)) * 2 ^ (E1 + 149)).
  { unfold rnd. destruct (Z.eqb_spec (M * 2 ^ j) 0) as [|Hne]; [nia|].
    cbv zeta. rewrite Zdigits2_shift by lia.
    replace (Z.max (Zdigits2 M + j - 24) k) with (E1 - E + j) by lia.
    rewrite Z.pow_add_r by lia.
    rewrite div_nearest_even_scale by (try apply Z.pow_pos_nonneg; lia).
    f_equal. f_equal. unfold j. lia. }
  rewrite Heq. reflexivity.
Qed.

Lemma pow2_le_inv a b : 0 <= b -> 2 ^ a <= 2 ^ b -> a <= b.
Proof.
  intros Hb H. destruct (Z.le_gt_cases a b) as [|Hgt]; [assumption|].
  apply (Z.pow_lt_mono_r 2) in Hgt; lia.
Qed.

(** A value of magnitude at most 2^16. *)
Definition small (x : float) : Prop := nonneg x /\ scaled x <= 2 ^ 165.

(** The exponent of the result stays far from the overflow threshold
    when the exact value is at most 2^32. *)
Lemma exponent_small M E j :
  0 < M -> 0 <= E + j -> 149 <= j -> M * 2 ^ (E + j) <= 2 ^ (j + 32) ->
  Z.max (Zdigits2 M + E - 24) (-149) <= 103.
Proof.
  intros HM Hj Hj' Hs.
  destruct (Zdigits2_bounds M HM) as (Hb & Hp).
  assert (H2 : 2 ^ (Zdigits2 M - 1 + (E + j)) <= 2 ^ (j + 32)).
  { rewrite Z.pow_add_r by lia.
    assert (0 < 2 ^ (E + j)) by (apply Z.pow_pos_nonneg; lia). nia. }
  apply pow2_le_inv in H2; lia.
Qed.

(** The product of two values: one rounding of the exact product. *)
Lemma mul_scaled x y :
  small x -> small y ->
  nonneg (F32.mul x y) /\
  scaled (F32.mul x y) = rnd 149 (scaled x * scaled y).
Proof.
  intros ((Vx & Sx) & Bx) ((Vy & Sy) & By).
  destruct x as [sx|sx| |sx mx ex]; cbn [zero_or_positive] in Sx;
    try contradiction;
    destruct y as [sy|sy| |sy my ey]; cbn [zero_or_positive] in Sy;
    try contradiction; subst;
    try (split; [split; [reflexivity|exact I]|cbn [scaled];
                 rewrite ?Z.mul_0_l, ?Z.mul_0_r; reflexivity]).
  unfold F32.mul, SFmul. cbn [xorb scaled] in *.
  pose proof (valid_mantissa _ _ _ Vx) as (Rx & Ux & Lx).
  pose proof (valid_mantissa _ _ _ Vy) as (Ry & Uy & Ly).
  assert (Hpx : 0 < 2 ^ (ex + 149)) by (apply Z.pow_pos_nonneg; lia).
  assert (Hpy : 0 < 2 ^ (ey + 149)) by (apply Z.pow_pos_nonneg; lia).
  assert (Hprod : Z.pos (mx * my) * 2 ^ (ex + ey + 149 + 149) =
                  Z.pos mx * 2 ^ (ex + 149) * (Z.pos my * 2 ^ (ey + 149))).
  { replace (ex + ey + 149 + 149) with ((ex + 149) + (ey + 149)) by lia.
    rewrite Z.pow_add_r, Pos2Z.inj_mul by lia. ring. }
  destruct (round_aux_scaled false (Z.pos (mx * my)) (ex + ey) 149)
    as (Hv & Hs & Hval); try lia.
  - destruct (Zdigits2_bounds (Z.pos (mx * my))) as (Hb & Hp); [lia|].
    split.
    + destruct (Z.eq_dec ex (-149)) as [Hex|Hex];
        destruct (Z.eq_dec ey (-149)) as [Hey|Hey]; try lia.
      * assert (8388608 <= Z.pos (mx * my)) by (rewrite Pos2Z.inj_mul; nia).
        assert (23 < Zdigits2 (Z.pos (mx * my)))
          by (apply pow2_lt_inv; [lia|]; change (2 ^ 23) with 8388608; lia).
        lia.
      * assert (8388608 <= Z.pos (mx * my)) by (rewrite Pos2Z.inj_mul; nia).
        assert (23 < Zdigits2 (Z.pos (mx * my)))
          by (apply pow2_lt_inv; [lia|]; change (2 ^ 23) with 8388608; lia).
        lia.
      * assert (8388608 <= Z.pos (mx * my)) by (rewrite Pos2Z.inj_mul; nia).
        assert (23 < Zdigits2 (Z.pos (mx * my)))
          by (apply pow2_lt_inv; [lia|]; change (2 ^ 23) with 8388608; lia).
        lia.
    + apply (exponent_small _ _ 298); try lia.
      replace (ex + ey + 298) with (ex + ey + 149 + 149) by lia.
      rewrite Hprod.
      assert (2 ^ 165 * 2 ^ 165 = 2 ^ (298 + 32)) by reflexivity.
      assert (0 <= Z.pos mx * 2 ^ (ex + 149)) by nia.
      assert (0 <= Z.pos my * 2 ^ (ey + 149)) by nia.
      nia.
  - split; [split; [assumption|now apply signed_finite_positive]|].
    rewrite Hval. f_equal. exact Hprod.
Qed.

Lemma iter_xO m d : Z.pos (Pos.iter xO m d) = Z.pos m * 2 ^ Z.pos d.
Proof.
  induction d as [|d IH] using Pos.peano_ind.
  - cbn [Pos.iter]. change (2 ^ 1) with 2. lia.
  - rewrite Pos.iter_succ, Pos2Z.inj_xO, IH, Pos2Z.inj_succ.
    rewrite Z.pow_succ_r by lia. ring.
Qed.

Lemma shl_align_spec m e e' :
  snd (shl_align m e e') = Z.min e e' /\
  Z.pos (fst (shl_align m e e')) = Z.pos m * 2 ^ (e - Z.min e e').
Proof.
  unfold shl_align. destruct (e' - e) as [|d|d] eqn:Hd; cbn [fst snd].
  - replace (Z.min e e') with e by lia. rewrite Z.sub_diag. lia.
  - replace (Z.min e e') with e by lia. rewrite Z.sub_diag. lia.
  - replace (Z.min e e') with e' by lia. rewrite iter_xO.
    split; [reflexivity|]. f_equal. f_equal. lia.
Qed.

(** Normalising a positive integer [D] at exponent [e]: one rounding of
    the exact value. *)
Lemma normalize_scaled D e :
  0 < D -> -149 <= e -> D * 2 ^ (e + 149) <= 2 ^ 181 ->
  nonneg (binary_normalize F32.prec F32.emax D e false) /\
  scaled (binary_normalize F32.prec F32.emax D e false) =
    rnd 0 (D * 2 ^ (e + 149)).
Proof.
  intros HD He Hs. destruct D as [|p|p]; try lia.
  unfold binary_normalize, binary_round. rewrite fexp32.
  destruct (shl_align_spec p e (Z.max (Z.pos (digits2_pos p) + e - 24) (-149)))
    as (H2 & H1).
  destruct (shl_align p e _) as [mz ez]. cbn [fst snd] in H1, H2.
  set (d := Z.pos (digits2_pos p)) in *.
  assert (Hdz : Zdigits2 (Z.pos mz) = d + (e - ez)).
  { rewrite H1. rewrite Zdigits2_shift by lia. rewrite <- H2. reflexivity. }
  assert (Hval : Z.pos mz * 2 ^ (ez + 149 + 0) = Z.pos p * 2 ^ (e + 149)).
  { rewrite H1, <- H2, <- Z.mul_assoc, <- Z.pow_add_r by lia.
    f_equal. f_equal. lia. }
  destruct (round_aux_scaled false (Z.pos mz) ez 0) as (Hv & Hsg & Hsc);
    try lia.
  - split; [lia|].
    apply (exponent_small _ _ 149); try lia.
    replace (ez + 149) with (ez + 149 + 0) by lia. rewrite Hval.
    exact Hs.
  - split; [split; [assumption|now apply signed_finite_positive]|].
    rewrite Hsc, Hval. reflexivity.
Qed.

(** [(float)n] for [0 <= n < 2^31]. *)
Lemma of_Z_scaled n :
  0 <= n <= 2147483648 ->
  nonneg (F32.of_Z n) /\ scaled (F32.of_Z n) = rnd 0 (n * 2 ^ 149).
Proof.
  intros Hn. unfold F32.of_Z.
  destruct (Z.eq_dec n 0) as [->|Hz];
    [split; [split; [reflexivity|exact I]|reflexivity]|].
  apply (normalize_scaled n 0); lia.
Qed.

Lemma rnd_id x : nonneg x -> rnd 0 (scaled x) = scaled x.
Proof.
  intros H. rewrite <- (rnd_exact 0 x H) at 2 by lia.
  change (2 ^ 0) with 1. now rewrite Z.mul_1_r.
Qed.

Lemma scaled_finite_pos m e :
  -149 <= e -> 0 < Z.pos m * 2 ^ (e + 149).
Proof.
  intros He. apply Z.mul_pos_pos; [lia|apply Z.pow_pos_nonneg; lia].
Qed.

Lemma aligned_scaled m e ez :
  -149 <= ez -> ez <= e ->
  Z.pos (fst (shl_align m e ez)) * 2 ^ (ez + 149) = Z.pos m * 2 ^ (e + 149).
Proof.
  intros H1 H2. destruct (shl_align_spec m e ez) as (_ & ->).
  replace (Z.min e ez) with ez by lia.
  rewrite <- Z.mul_assoc, <- Z.pow_add_r by lia. f_equal. f_equal. lia.
Qed.

(** The difference of two values, the larger first: one rounding of the
    exact difference. *)
Lemma sub_scaled x y :
  small x -> small y -> scaled y <= scaled x ->
  nonneg (F32.sub x y) /\
  scaled (F32.sub x y) = rnd 0 (scaled x - scaled y).
Proof.
  intros ((Vx & Sx) & Bx) ((Vy & Sy) & By) Hle.
  destruct x as [sx|sx| |sx mx ex]; cbn [zero_or_positive] in Sx;
    try contradiction;
    destruct y as [sy|sy| |sy my ey]; cbn [zero_or_positive] in Sy;
    try contradiction; subst.
  - destruct sx, sy; (split; [split; [reflexivity|exact I]|reflexivity]).
  - exfalso. cbn [scaled] in Hle.
    pose proof (valid_mantissa _ _ _ Vy) as (Ry & _).
    pose proof (scaled_finite_pos my ey ltac:(lia)). lia.
  - split; [split; [exact Vx|reflexivity]|].
    change (scaled (S754_zero false)) with 0. rewrite Z.sub_0_r.
    symmetry. apply rnd_id. split; [exact Vx|reflexivity].
  - pose proof (valid_mantissa _ _ _ Vx) as (Rx & _).
    pose proof (valid_mantissa _ _ _ Vy) as (Ry & _).
    unfold F32.sub, SFsub. cbn [cond_Zopp scaled] in *.
    set (ez := Z.min ex ey).
    pose proof (aligned_scaled mx ex ez ltac:(lia) ltac:(lia)) as Ax.
    pose proof (aligned_scaled my ey ez ltac:(lia) ltac:(lia)) as Ay.
    set (ax := Z.pos (fst (shl_align mx ex ez))) in *.
    set (ay := Z.pos (fst (shl_align my ey ez))) in *.
    assert (Hp : 0 < 2 ^ (ez + 149)) by (apply Z.pow_pos_nonneg; lia).
    assert (HD : (ax - ay) * 2 ^ (ez + 149) =
                 Z.pos mx * 2 ^ (ex + 149) - Z.pos my * 2 ^ (ey + 149))
      by (rewrite Z.mul_sub_distr_r; lia).
    rewrite <- HD.
    destruct (Z.eq_dec (ax - ay) 0) as [Hz|Hz].
    + rewrite Hz. split; [split; [reflexivity|exact I]|reflexivity].
    + assert (2 ^ 165 <= 2 ^ 181) by (apply Z.pow_le_mono_r; lia).
      pose proof (scaled_finite_pos my ey ltac:(lia)).
      apply normalize_scaled; [nia|lia|rewrite HD; lia].
Qed.

(** The sum of two values: one rounding of the exact sum. *)
Lemma add_scaled x y :
  small x -> small y ->
  nonneg (F32.add x y) /\
  scaled (F32.add x y) = rnd 0 (scaled x + scaled y).
Proof.
  intros ((Vx & Sx) & Bx) ((Vy & Sy) & By).
  destruct x as [sx|sx| |sx mx ex]; cbn [zero_or_positive] in Sx;
    try contradiction;
    destruct y as [sy|sy| |sy my ey]; cbn [zero_or_positive] in Sy;
    try contradiction; subst.
  - destruct sx, sy; (split; [split; [reflexivity|exact I]|reflexivity]).
  - split; [split; [exact Vy|reflexivity]|].
    change (scaled (S754_zero false)) with 0. rewrite Z.add_0_l.
    symmetry. apply rnd_id. split; [exact Vy|reflexivity].
  - split; [split; [exact Vx|reflexivity]|].
    change (scaled (S754_zero false)) with 0. rewrite Z.add_0_r.
    symmetry. apply rnd_id. split; [exact Vx|reflexivity].
  - pose proof (valid_mantissa _ _ _ Vx) as (Rx & _).
    pose proof (valid_mantissa _ _ _ Vy) as (Ry & _).
    unfold F32.add, SFadd. cbn [cond_Zopp scaled] in *.
    set (ez := Z.min ex ey).
    pose proof (aligned_scaled mx ex ez ltac:(lia) ltac:(lia)) as Ax.
    pose proof (aligned_scaled my ey ez ltac:(lia) ltac:(lia)) as Ay.
    set (ax := Z.pos (fst (shl_align mx ex ez))) in *.
    set (ay := Z.pos (fst (shl_align my ey ez))) in *.
    assert (Hp : 0 < 2 ^ (ez + 149)) by (apply Z.pow_pos_nonneg; lia).
    assert (HD : (ax + ay) * 2 ^ (ez + 149) =
                 Z.pos mx * 2 ^ (ex + 149) + Z.pos my * 2 ^ (ey + 149))
      by (rewrite Z.mul_add_distr_r; lia).
    rewrite <- HD.
    assert (2 ^ 165 + 2 ^ 165 <= 2 ^ 181) by (vm_compute; discriminate).
    apply normalize_scaled; [unfold ax, ay; lia|lia|rewrite HD; lia].
Qed.

(** ** Conversions and the quotient of two counters *)

Lemma of_Z_positive n :
  0 < n <= 2147483648 ->
  exists m e, F32.of_Z n = S754_finite false m e /\
    F32.valid (S754_finite false m e) = true /\
    -24 < e <= 8 /\ 8388608 <= Z.pos m < 16777216.
Proof.
  intros Hn. destruct (of_Z_scaled n ltac:(lia)) as ((Hv & Hs) & Hval).
  assert (Hlo : 2 ^ 149 <= rnd 0 (n * 2 ^ 149)).
  { change (2 ^ 149) with (scaled F32.one) at 1.
    rewrite <- (rnd_id F32.one) by (split; [reflexivity|exact eq_refl]).
    apply rnd_mono; [lia|]. change (scaled F32.one) with (2 ^ 149). lia. }
  assert (Hhi : rnd 0 (n * 2 ^ 149) <= 2 ^ 180).
  { change (2 ^ 180) with (scaled (S754_finite false 8388608 8)).
    rewrite <- (rnd_id (S754_finite false 8388608 8))
      by (split; [reflexivity|exact eq_refl]).
    apply rnd_mono; [lia|].
    change (scaled (S754_finite false 8388608 8)) with (2147483648 * 2 ^ 149).
    lia. }
  rewrite <- Hval in Hlo, Hhi.
  destruct (F32.of_Z n) as [s|s| |s m e]; cbn [zero_or_positive] in Hs;
    try contradiction;
    try (exfalso; cbn [scaled] in Hlo; assert (0 < 2 ^ 149) by reflexivity; lia).
  subst s. exists m, e. split; [reflexivity|]. split; [exact Hv|].
  cbn [scaled] in Hlo, Hhi.
  pose proof (valid_mantissa _ _ _ Hv) as (Re & Um & Lm).
  assert (He : -24 < e).
  { assert (2 ^ 149 < 2 ^ (24 + (e + 149))).
    { rewrite Z.pow_add_r by lia. change (2 ^ 24) with 16777216.
      assert (0 < 2 ^ (e + 149)) by (apply Z.pow_pos_nonneg; lia). nia. }
    apply pow2_lt_inv in H; lia. }
  specialize (Lm ltac:(lia)).
  assert (He2 : e <= 8).
  { assert (2 ^ (23 + (e + 149)) <= 2 ^ 180).
    { rewrite Z.pow_add_r by lia. change (2 ^ 23) with 8388608.
      assert (0 < 2 ^ (e + 149)) by (apply Z.pow_pos_nonneg; lia). nia. }
    apply pow2_le_inv in H; lia. }
  lia.
Qed.

Lemma digits_normal m :
  8388608 <= Z.pos m < 16777216 -> Z.pos (digits2_pos m) = 24.
Proof.
  intros H. change (Z.pos (digits2_pos m)) with (Zdigits2 (Z.pos m)).
  apply Zdigits2_unique; [lia|].
  change (2 ^ (24 - 1)) with 8388608. change (2 ^ 24) with 16777216. exact H.
Qed.

(** [(float)pos / (float)len] is a valid value that is not negative. *)
Lemma div_counters p L :
  0 <= p <= 2147483648 -> 0 < L <= 2147483648 ->
  nonneg (F32.div (F32.of_Z p) (F32.of_Z L)).
Proof.
  intros Hp HL.
  destruct (of_Z_positive L HL) as (m2 & e2 & -> & V2 & R2 & B2).
  destruct (Z.eq_dec p 0) as [->|Hz].
  { split; [reflexivity|exact I]. }
  destruct (of_Z_positive p ltac:(lia)) as (m1 & e1 & -> & V1 & R1 & B1).
  unfold F32.div, SFdiv, SFdiv_core_binary. cbn [xorb Zdigits2].
  rewrite (digits_normal m1 B1), (digits_normal m2 B2), fexp32.
  replace (Z.min (Z.max (24 + e1 - (24 + e2) - 24) (-149)) (e1 - e2))
    with (e1 - e2 - 24) by lia.
  replace (e1 - e2 - (e1 - e2 - 24)) with 24 by lia.
  rewrite Z.shiftl_mul_pow2 by lia. change (2 ^ 24) with 16777216.
  set (q := Z.pos m1 * 16777216 / Z.pos m2).
  assert (Hq : Z.div_eucl (Z.pos m1 * 16777216) (Z.pos m2) =
               (q, Z.pos m1 * 16777216 mod Z.pos m2)).
  { unfold q, Z.div, Z.modulo.
    destruct (Z.div_eucl (Z.pos m1 * 16777216) (Z.pos m2)); reflexivity. }
  rewrite Hq.
  assert (Hq1 : 8388608 <= q) by (apply Z.div_le_lower_bound; lia).
  assert (Hq2 : q < 33554432) by (apply Z.div_lt_upper_bound; lia).
  assert (Hd : 24 <= Zdigits2 q <= 25).
  { destruct (Zdigits2_bounds q ltac:(lia)) as (Hb & Hpos).
    assert (23 < Zdigits2 q)
      by (apply pow2_lt_inv; [lia|]; change (2 ^ 23) with 8388608; lia).
    assert (Zdigits2 q - 1 < 25)
      by (apply pow2_lt_inv; [lia|]; change (2 ^ 25) with 33554432; lia).
    lia. }
  destruct (round_aux_spec false q (e1 - e2 - 24)
              (new_location (Z.pos m2) (Z.pos m1 * 16777216 mod Z.pos m2)))
    as (m & Hr & _ & _ & Hm & Hn); [lia|lia|].
  rewrite Hr.
  destruct (finish_spec false m
              (Z.max (Zdigits2 q + (e1 - e2 - 24) - 24) (-149)) Hm)
    as (Hv & Hs & _); [lia|exact Hn|].
  split; [assumption|now apply signed_finite_positive].
Qed.

(** ** The clamp to [0, 1] *)

Definition unit_value (x : float) : Prop :=
  nonneg x /\ scaled x <= 2 ^ 149.

Lemma unit_value_small x : unit_value x -> small x.
Proof.
  intros (H & Hb). split; [exact H|].
  assert (2 ^ 149 <= 2 ^ 165) by (apply Z.pow_le_mono_r; lia). lia.
Qed.

Lemma unit_one : unit_value F32.one.
Proof.
  split; [split; [reflexivity|exact eq_refl]|].
  change (scaled F32.one) with (2 ^ 149). lia.
Qed.

Lemma unit_zero : unit_value F32.zero.
Proof.
  split; [split; [reflexivity|exact I]|]. change (scaled F32.zero) with 0. lia.
Qed.

Lemma clampf_unit t : nonneg t -> unit_value (clampf t F32.zero F32.one).
Proof.
  intros Ht. unfold clampf.
  destruct (leb_scaled t F32.zero Ht (proj1 unit_zero)) as (_ & Hlt).
  destruct (leb_scaled F32.one t (proj1 unit_one) Ht) as (_ & Hgt).
  pose proof (scaled_nonneg t Ht) as H0.
  destruct (F32.ltb t F32.zero) eqn:E1; [apply unit_zero|].
  unfold F32.gtb. fold (F32.ltb F32.one t).
  destruct (F32.ltb F32.one t) eqn:E2; [apply unit_one|].
  split; [exact Ht|].
  change (scaled F32.one) with (2 ^ 149) in Hgt.
  destruct (Z.le_gt_cases (scaled t) (2 ^ 149)) as [|Hc]; [assumption|].
  apply Hgt in Hc. discriminate.
Qed.

(** ** Arithmetic on values of the unit range *)

Lemma small_one : small F32.one.
Proof. apply unit_value_small, unit_one. Qed.

Lemma mul_mono x y x' y' :
  small x -> small y -> small x' -> small y' ->
  scaled x <= scaled x' -> scaled y <= scaled y' ->
  scaled (F32.mul x y) <= scaled (F32.mul x' y').
Proof.
  intros Hx Hy Hx' Hy' H1 H2.
  rewrite (proj2 (mul_scaled x y Hx Hy)), (proj2 (mul_scaled x' y' Hx' Hy')).
  pose proof (scaled_nonneg x (proj1 Hx)).
  pose proof (scaled_nonneg y (proj1 Hy)).
  apply rnd_mono; [lia|]. nia.
Qed.

(** Scaling a value by a factor of the unit range does not increase
    it. *)
Lemma mul_unit_r x y :
  small x -> unit_value y ->
  nonneg (F32.mul x y) /\ scaled (F32.mul x y) <= scaled x.
Proof.
  intros Hx Hy. pose proof (unit_value_small y Hy) as Hys.
  destruct (mul_scaled x y Hx Hys) as (Hn & Hv). split; [exact Hn|].
  pose proof (scaled_nonneg x (proj1 Hx)).
  pose proof (scaled_nonneg y (proj1 Hy)).
  destruct Hy as (_ & Hy1).
  rewrite Hv. transitivity (rnd 149 (scaled x * 2 ^ 149)).
  - apply rnd_mono; [lia|]. nia.
  - rewrite (rnd_exact 149 x (proj1 Hx)) by lia. lia.
Qed.

Lemma mul_unit x y :
  unit_value x -> unit_value y -> unit_value (F32.mul x y).
Proof.
  intros Hx Hy.
  destruct (mul_unit_r x y (unit_value_small x Hx) Hy) as (Hn & Hle).
  split; [exact Hn|]. destruct Hx as (_ & Hx1). lia.
Qed.

(** [1 - x] for [x] of the unit range. *)
Lemma sub_one_unit x :
  unit_value x ->
  unit_value (F32.sub F32.one x) /\
  scaled (F32.sub F32.one x) = rnd 0 (2 ^ 149 - scaled x).
Proof.
  intros Hx. pose proof (unit_value_small x Hx) as Hxs.
  destruct Hx as (Hxn & Hx1).
  destruct (sub_scaled F32.one x small_one Hxs) as (Hn & Hv);
    [change (scaled F32.one) with (2 ^ 149); exact Hx1|].
  change (scaled F32.one) with (2 ^ 149) in Hv.
  split; [|exact Hv]. split; [exact Hn|].
  rewrite Hv.
  change (2 ^ 149) with (scaled F32.one) at 2.
  rewrite <- (rnd_id F32.one (proj1 unit_one)).
  pose proof (scaled_nonneg x Hxn).
  apply rnd_mono; [lia|]. change (scaled F32.one) with (2 ^ 149). lia.
Qed.

(** *** The rounding error below 1 *)

Lemma rnd_error N :
  0 < N ->
  2 * (rnd 0 N - N) <= 2 ^ Z.max (Zdigits2 N - 24) 0.
Proof.
  intros HN. pose proof (rnd_grid 0 N HN ltac:(lia)) as Hg. cbv zeta in Hg.
  change (2 ^ 0) with 1 in Hg. rewrite Z.mul_1_r in Hg. rewrite Hg.
  set (n := Z.max (Zdigits2 N - 24) 0).
  assert (Hp : 0 < 2 ^ n) by (apply Z.pow_pos_nonneg; lia).
  unfold Libc.div_nearest_even.
  pose proof (Z.div_mod N (2 ^ n) ltac:(lia)) as Hdm.
  pose proof (Z.mod_pos_bound N (2 ^ n) Hp) as Hr.
  generalize dependent (2 ^ n). intros d Hp Hdm Hr.
  destruct (Z.compare_spec (2 * (N mod d)) d);
    try destruct (Z.even (N / d)); nia.
Qed.

(** A sum that exceeds 1 by at most half a unit in the last place of 1
    rounds to at most 1. *)
Lemma rnd_near_one N :
  0 <= N <= 2 ^ 149 + 2 ^ 125 -> rnd 0 N <= 2 ^ 149.
Proof.
  intros HN.
  assert (H : rnd 0 (2 ^ 149 + 2 ^ 125) = 2 ^ 149) by (vm_compute; reflexivity).
  rewrite <- H. apply rnd_mono; lia.
Qed.

(** [(1 - d) + z] for [z <= d] in the unit range stays in the unit
    range and at or above [1 - d]. *)
Lemma release_unit d z :
  unit_value d -> unit_value z -> scaled z <= scaled d ->
  unit_value (F32.add (F32.sub F32.one d) z) /\
  scaled (F32.sub F32.one d) <= scaled (F32.add (F32.sub F32.one d) z).
Proof.
  intros Hd Hz Hle.
  destruct (sub_one_unit d Hd) as (Ha & Hav).
  set (a := F32.sub F32.one d) in *.
  destruct (add_scaled a z (unit_value_small a Ha) (unit_value_small z Hz))
    as (Hn & Hv).
  pose proof (scaled_nonneg d (proj1 Hd)) as Hd0.
  pose proof (scaled_nonneg z (proj1 Hz)) as Hz0.
  pose proof (scaled_nonneg a (proj1 Ha)) as Ha0.
  assert (Hup : scaled a + scaled d <= 2 ^ 149 + 2 ^ 125).
  { destruct (Z.eq_dec (scaled d) 0) as [Hz'|Hnz].
    - rewrite Hz' in *. rewrite Z.sub_0_r in Hav.
      change (2 ^ 149) with (scaled F32.one) in Hav at 1.
      rewrite (rnd_id F32.one (proj1 unit_one)) in Hav.
      change (scaled F32.one) with (2 ^ 149) in Hav.
      assert (0 < 2 ^ 125) by reflexivity. lia.
    - destruct (Z.eq_dec (2 ^ 149 - scaled d) 0) as [He|Hne].
      + rewrite He in Hav. change (rnd 0 0) with 0 in Hav.
        assert (0 < 2 ^ 125) by reflexivity. lia.
      + destruct Hd as (_ & Hd1).
        pose proof (rnd_error (2 ^ 149 - scaled d) ltac:(lia)) as Herr.
        rewrite <- Hav in Herr.
        destruct (Zdigits2_bounds (2 ^ 149 - scaled d) ltac:(lia)) as (Hb & _).
        assert (Hdig : Zdigits2 (2 ^ 149 - scaled d) - 1 < 149)
          by (apply pow2_lt_inv; lia).
        assert (Hpow : 2 ^ Z.max (Zdigits2 (2 ^ 149 - scaled d) - 24) 0
                       <= 2 ^ 125) by (apply Z.pow_le_mono_r; lia).
        lia. }
  split.
  - split; [exact Hn|]. rewrite Hv. apply rnd_near_one. lia.
  - rewrite Hv. transitivity (rnd 0 (scaled a)).
    + rewrite (rnd_id a (proj1 Ha)). lia.
    + apply rnd_mono; lia.
Qed.

(** ** The smoothstep curve stays at or below 1 *)

(** [t * t * (3 - 2 * t)], the S-curve of [shape_curve]. *)
Definition smoothstep (t : float) : float :=
  F32.mul (F32.mul t t) (F32.sub F32.three (F32.mul F32.two t)).

(** An upper bound of [smoothstep] on the interval from [lo] to [hi]:
    the increasing factor at [hi], the decreasing one at [lo]. *)
Definition smoothstep_bound (lo hi : float) : float :=
  F32.mul (F32.mul hi hi) (F32.sub F32.three (F32.mul F32.two lo)).

Lemma small_two : small F32.two.
Proof.
  split; [split; [reflexivity|exact eq_refl]|].
  change (scaled F32.two) with (2 ^ 150). apply Z.pow_le_mono_r; lia.
Qed.

Lemma small_three : small F32.three.
Proof.
  split; [split; [reflexivity|exact eq_refl]|].
  change (scaled F32.three) with (3 * 2 ^ 149).
  change (2 ^ 165) with (65536 * 2 ^ 149).
  assert (0 < 2 ^ 149) by reflexivity. lia.
Qed.

Lemma smoothstep_factor t :
  unit_value t ->
  small (F32.sub F32.three (F32.mul F32.two t)) /\
  scaled (F32.sub F32.three (F32.mul F32.two t)) =
    rnd 0 (3 * 2 ^ 149 - scaled (F32.mul F32.two t)) /\
  small (F32.mul F32.two t).
Proof.
  intros Ht.
  destruct (mul_unit_r F32.two t small_two Ht) as (Hn & Hle).
  change (scaled F32.two) with (2 ^ 150) in Hle.
  assert (H150 : 2 ^ 150 = 2 * 2 ^ 149) by reflexivity.
  assert (Hpos : 0 < 2 ^ 149) by reflexivity.
  assert (H165 : 2 ^ 165 = 65536 * 2 ^ 149) by reflexivity.
  assert (Hs2 : small (F32.mul F32.two t)) by (split; [exact Hn|lia]).
  destruct (sub_scaled F32.three (F32.mul F32.two t) small_three Hs2)
    as (Hn3 & Hv3).
  { change (scaled F32.three) with (3 * 2 ^ 149). lia. }
  change (scaled F32.three) with (3 * 2 ^ 149) in Hv3.
  split; [|split; [exact Hv3|exact Hs2]].
  split; [exact Hn3|]. rewrite Hv3.
  pose proof (scaled_nonneg _ Hn) as H0.
  transitivity (rnd 0 (scaled F32.three)).
  - apply rnd_mono; [lia|]. change (scaled F32.three) with (3 * 2 ^ 149). lia.
  - rewrite (rnd_id F32.three (proj1 small_three)).
    change (scaled F32.three) with (3 * 2 ^ 149). lia.
Qed.

Lemma smoothstep_le_bound lo t hi :
  unit_value lo -> unit_value t -> unit_value hi ->
  scaled lo <= scaled t <= scaled hi ->
  nonneg (smoothstep t) /\
  scaled (smoothstep t) <= scaled (smoothstep_bound lo hi).
Proof.
  intros Hlo Ht Hhi (H1 & H2). unfold smoothstep, smoothstep_bound.
  destruct (smoothstep_factor t Ht) as (Bt & Btv & B2t).
  destruct (smoothstep_factor lo Hlo) as (Bl & Blv & B2l).
  pose proof (unit_value_small _ (mul_unit t t Ht Ht)) as At.
  pose proof (unit_value_small _ (mul_unit hi hi Hhi Hhi)) as Ah.
  split; [apply mul_scaled; assumption|].
  apply mul_mono; try assumption.
  - apply mul_mono; auto using unit_value_small.
  - rewrite Btv, Blv.
    assert (scaled (F32.mul F32.two lo) <= scaled (F32.mul F32.two t)).
    { apply mul_mono; auto using unit_value_small, small_two. lia. }
    destruct B2t as (_ & Hb).
    assert (scaled (F32.mul F32.two t) <= 3 * 2 ^ 149).
    { destruct (mul_unit_r F32.two t small_two Ht) as (_ & Hle).
      change (scaled F32.two) with (2 * 2 ^ 149) in Hle.
      assert (0 < 2 ^ 149) by reflexivity. lia. }
    apply rnd_mono; lia.
Qed.

(** The binary32 value [K * 2^-24]. *)
Definition grid (K : Z) : float :=
  binary_normalize F32.prec F32.emax K (-24) false.

Lemma rnd_multiple K :
  0 <= K <= 16777216 -> rnd 0 (K * 2 ^ 125) = K * 2 ^ 125.
Proof.
  intros HK. destruct (Z.eq_dec K 0) as [->|Hz]; [reflexivity|].
  destruct (Z.eq_dec K 16777216) as [->|Hm]; [vm_compute; reflexivity|].
  unfold rnd.
  assert (Hp : 0 < 2 ^ 125) by reflexivity.
  destruct (Z.eqb_spec (K * 2 ^ 125) 0) as [|Hne]; [lia|].
  cbv zeta. rewrite Zdigits2_shift by lia.
  destruct (Zdigits2_bounds K ltac:(lia)) as (Hb & Hd).
  assert (Zdigits2 K - 1 < 24)
    by (apply pow2_lt_inv; [lia|]; change (2 ^ 24) with 16777216; lia).
  set (n := Z.max (Zdigits2 K + 125 - 24) 0).
  replace (K * 2 ^ 125) with (K * 2 ^ (125 - n) * 2 ^ n)
    by (rewrite <- Z.mul_assoc, <- Z.pow_add_r by lia; f_equal; f_equal; lia).
  rewrite div_nearest_even_exact by (apply Z.pow_pos_nonneg; lia).
  rewrite Z.sub_0_r. reflexivity.
Qed.

Lemma grid_scaled K :
  0 <= K <= 16777216 ->
  unit_value (grid K) /\ scaled (grid K) = K * 2 ^ 125.
Proof.
  intros HK. unfold grid.
  destruct (Z.eq_dec K 0) as [->|Hz].
  { split; [apply unit_zero|reflexivity]. }
  assert (Hp : 0 < 2 ^ 125) by reflexivity.
  assert (Hk : K * 2 ^ 125 <= 16777216 * 2 ^ 125)
    by (apply Z.mul_le_mono_nonneg_r; lia).
  destruct (normalize_scaled K (-24)) as (Hn & Hv); [lia|lia| |].
  { change (2 ^ (-24 + 149)) with (2 ^ 125).
    change (2 ^ 181) with (16777216 * 2 ^ 125 * 4294967296).
    generalize dependent (2 ^ 125). intros. lia. }
  change (2 ^ (-24 + 149)) with (2 ^ 125) in Hv.
  rewrite rnd_multiple in Hv by lia.
  split; [|exact Hv]. split; [exact Hn|]. rewrite Hv.
  change (2 ^ 149) with (16777216 * 2 ^ 125). exact Hk.
Qed.

(** Values from one half up are multiples of 2^-24. *)
Lemma upper_half_multiple t :
  nonneg t -> 2 ^ 148 <= scaled t ->
  exists K, scaled t = K * 2 ^ 125.
Proof.
  intros (Hv & Hs) Hlo.
  destruct t as [s|s| |s m e]; cbn [zero_or_positive] in Hs;
    try contradiction.
  subst s. cbn [scaled] in *.
  pose proof (valid_mantissa _ _ _ Hv) as (Re & Um & _).
  assert (He : -25 < e).
  { assert (2 ^ 148 < 2 ^ (24 + (e + 149))).
    { rewrite Z.pow_add_r by lia. change (2 ^ 24) with 16777216.
      assert (0 < 2 ^ (e + 149)) by (apply Z.pow_pos_nonneg; lia). nia. }
    apply pow2_lt_inv in H; lia. }
  exists (Z.pos m * 2 ^ (e + 24)).
  rewrite <- Z.mul_assoc, <- Z.pow_add_r by lia. f_equal. f_equal. lia.
Qed.

Lemma smoothstep_bound_nonneg lo hi :
  unit_value lo -> unit_value hi -> nonneg (smoothstep_bound lo hi).
Proof.
  intros Hlo Hhi. unfold smoothstep_bound.
  destruct (smoothstep_factor lo Hlo) as (Bl & _ & _).
  apply mul_scaled; [|exact Bl].
  apply unit_value_small, mul_unit; assumption.
Qed.

(** One check of the bound on the interval of grid points [K .. K + w]. *)
Definition smoothstep_step (K w : Z) : bool :=
  F32.leb (smoothstep_bound (grid K) (grid (K + w))) F32.one.

(** The width of the interval checked at grid point [K]: the bound is
    loose away from 1 and needs single points next to it. *)
Definition smoothstep_width (K : Z) : Z :=
  let j := 16777216 - K in
  if 8192 <? j then
    Z.min j (Z.max 1 ((j / 4096) * (j / 4096) / 2 - 2))
  else 0.

(** A cover of the grid points from [K] up to 1.0 by checked intervals
    and, from 1 - 2^-11 on, checked points. *)
Fixpoint smoothstep_cover (fuel : nat) (K : Z) : bool :=
  match fuel with
  | O => false
  | S fuel' =>
      if 16777216 <=? K then true
      else
        let w := smoothstep_width K in
        smoothstep_step K w &&
        smoothstep_cover fuel' (if w =? 0 then K + 1 else K + w)
  end.

Lemma smoothstep_width_range K :
  0 <= K < 16777216 ->
  0 <= smoothstep_width K <= 16777216 - K /\
  (smoothstep_width K = 0 -> 8388608 <= K).
Proof.
  intros HK. unfold smoothstep_width. cbv zeta.
  destruct (Z.ltb_spec 8192 (16777216 - K)); lia.
Qed.

Lemma smoothstep_step_sound K w t :
  0 <= K -> 0 <= w -> K + w <= 16777216 ->
  smoothstep_step K w = true ->
  unit_value t -> K * 2 ^ 125 <= scaled t <= (K + w) * 2 ^ 125 ->
  scaled (smoothstep t) <= 2 ^ 149.
Proof.
  intros HK Hw Hle Hc Ht Hr. unfold smoothstep_step in Hc.
  destruct (grid_scaled K ltac:(lia)) as (Ulo & Vlo).
  destruct (grid_scaled (K + w) ltac:(lia)) as (Uhi & Vhi).
  destruct (smoothstep_le_bound (grid K) t (grid (K + w)) Ulo Ht Uhi
              ltac:(rewrite Vlo, Vhi; exact Hr)) as (_ & Hb).
  pose proof (smoothstep_bound_nonneg _ _ Ulo Uhi) as Hn.
  apply (leb_scaled _ _ Hn (proj1 unit_one)) in Hc.
  change (scaled F32.one) with (2 ^ 149) in Hc. lia.
Qed.

Lemma smoothstep_cover_sound fuel : forall K t,
  0 <= K -> smoothstep_cover fuel K = true ->
  unit_value t -> K * 2 ^ 125 <= scaled t < 2 ^ 149 ->
  scaled (smoothstep t) <= 2 ^ 149.
Proof.
  induction fuel as [|fuel IH]; intros K t HK Hc Ht Hr; [discriminate|].
  cbn [smoothstep_cover] in Hc.
  assert (Hp : 0 < 2 ^ 125) by reflexivity.
  assert (H149 : 2 ^ 149 = 16777216 * 2 ^ 125) by reflexivity.
  destruct (Z.leb_spec 16777216 K) as [Hbig|Hlt].
  { exfalso. assert (16777216 * 2 ^ 125 <= K * 2 ^ 125)
      by (apply Z.mul_le_mono_nonneg_r; lia). lia. }
  cbv zeta in Hc. apply andb_prop in Hc. destruct Hc as (Hstep & Hrest).
  destruct (smoothstep_width_range K ltac:(lia)) as (Hw & Hpt).
  destruct (Z_le_gt_dec (scaled t) ((K + smoothstep_width K) * 2 ^ 125))
    as [Hin|Hout].
  { apply (smoothstep_step_sound K (smoothstep_width K)); try lia; auto. }
  destruct (Z.eqb_spec (smoothstep_width K) 0) as [Hz|Hnz].
  - apply (IH (K + 1)); try lia; auto.
    destruct (upper_half_multiple t (proj1 Ht)) as (K' & HK').
    { change (2 ^ 148) with (8388608 * 2 ^ 125).
      transitivity (K * 2 ^ 125); [|lia].
      apply Z.mul_le_mono_nonneg_r; lia. }
    rewrite Hz, Z.add_0_r in Hout. rewrite HK' in *.
    split; [|lia]. apply Z.mul_le_mono_nonneg_r; [lia|]. nia.
  - apply (IH (K + smoothstep_width K)); try lia; auto.
Qed.

Lemma smoothstep_cover_all :
  smoothstep_cover (200 * 100) 0 = true.
Proof. vm_compute. reflexivity. Qed.

Lemma smoothstep_unit t : unit_value t -> unit_value (smoothstep t).
Proof.
  intros Ht.
  destruct (smoothstep_le_bound t t t Ht Ht Ht ltac:(lia)) as (Hn & _).
  split; [exact Hn|].
  destruct (Z_lt_le_dec (scaled t) (2 ^ 149)) as [Hlt|Hge].
  - apply (smoothstep_cover_sound _ 0 t ltac:(lia) smoothstep_cover_all Ht).
    pose proof (scaled_nonneg t (proj1 Ht)). lia.
  - destruct Ht as (Hnt & Hle).
    assert (Hone : smoothstep_step 16777216 0 = true)
      by (vm_compute; reflexivity).
    apply (smoothstep_step_sound 16777216 0 t ltac:(lia) ltac:(lia)
             ltac:(lia) Hone (conj Hnt Hle)).
    change ((16777216 + 0) * 2 ^ 125) with (2 ^ 149).
    change (16777216 * 2 ^ 125) with (2 ^ 149). lia.
Qed.

(** ** The shaped position and the velocity scale are unit values *)

Lemma shape_unit c t b : nonneg t -> unit_value (shape_curve c t b).
Proof.
  intros Ht. pose proof (clampf_unit t Ht) as Hc. unfold shape_curve.
  cbv zeta. set (u := clampf t F32.zero F32.one) in *.
  destruct (c =? CURVE_EXPO); [apply mul_unit; assumption|].
  destruct (c =? CURVE_SCURVE); [apply (smoothstep_unit u Hc)|].
  destruct (c =? CURVE_PUMP); [|assumption].
  destruct b; [|assumption].
  pose proof (proj1 (sub_one_unit u Hc)) as Hi.
  apply sub_one_unit. apply mul_unit; [apply mul_unit|]; assumption.
Qed.

(** The position [pos / len] inside a phase, shaped. *)
Lemma shaped_position_unit c p L b :
  0 <= p < L -> L <= INT_MAX ->
  unit_value (shape_curve c (F32.div (F32.of_Z p) (F32.of_Z L)) b).
Proof.
  unfold INT_MAX. intros Hp HL. apply shape_unit, div_counters; lia.
Qed.

(** A decidable sufficient condition for [unit_value]. *)
Definition unit_check (x : float) : bool :=
  match x with
  | S754_zero _ => true
  | S754_finite false _ _ => F32.valid x && F32.leb x F32.one
  | _ => false
  end.

Lemma unit_check_sound x : unit_check x = true -> unit_value x.
Proof.
  destruct x as [s|s| |s m e]; cbn [unit_check]; try discriminate.
  - intros _. split; [split; [reflexivity|exact I]|].
    cbn [scaled]. apply Z.lt_le_incl. reflexivity.
  - destruct s; [discriminate|]. intros H. apply andb_prop in H.
    destruct H as (Hv & Hl).
    assert (Hn : nonneg (S754_finite false m e)) by (split; [exact Hv|reflexivity]).
    split; [exact Hn|].
    apply (leb_scaled _ _ Hn (proj1 unit_one)) in Hl. exact Hl.
Qed.

Lemma vel_norm_unit_all :
  forallb (fun n => unit_check (vel_norm (Z.of_nat n))) (seq 0 128) = true.
Proof. vm_compute. reflexivity. Qed.

Lemma vel_norm_unit v : 0 <= v <= 127 -> unit_value (vel_norm v).
Proof.
  intros H. pose proof vel_norm_unit_all as Hall.
  rewrite forallb_forall in Hall. apply unit_check_sound.
  rewrite <- (Z2Nat.id v) by lia. apply Hall.
  apply in_seq. lia.
Qed.

(** The depth a note-on of velocity [v] locks in. *)
Lemma note_on_vel_depth i v :
  vel_depth (note_on i v) =
  F32.mul (depth i)
    (if F32.gtb (vel_sens i) F32.zero then vel_scale_formula (vel_sens i) v
     else F32.one).
Proof.
  unfold note_on. cbv zeta. rewrite start_attack_eq. unfold enter_hold.
  destruct i; cbn.
  destruct (F32.gtb _ _);
    repeat match goal with |- context [if ?c then _ else _] => destruct c end;
    reflexivity.
Qed.

Lemma vel_scale_unit vs v :
  unit_value vs -> 0 <= v <= 127 ->
  unit_value (if F32.gtb vs F32.zero then vel_scale_formula vs v
              else F32.one).
Proof.
  intros Hs Hv. destruct (F32.gtb vs F32.zero); [|apply unit_one].
  unfold vel_scale_formula.
  pose proof (vel_norm_unit v Hv) as Hn.
  apply release_unit; [exact Hs|apply mul_unit; assumption|].
  apply mul_unit_r; [apply unit_value_small|]; assumption.
Qed.

Lemma note_on_vel_depth_unit i v :
  unit_value (depth i) -> unit_value (vel_sens i) -> 0 <= v <= 127 ->
  unit_value (vel_depth (note_on i v)).
Proof.
  intros Hd Hs Hv. rewrite note_on_vel_depth.
  apply mul_unit; [exact Hd|apply vel_scale_unit; assumption].
Qed.

(** ** Values of either sign *)

(** A valid binary32 value that is neither infinite nor a NaN. *)
Definition finite_value (x : float) : Prop :=
  F32.valid x = true /\
  match x with S754_zero _ | S754_finite _ _ _ => True | _ => False end.

Lemma nonneg_finite x : nonneg x -> finite_value x.
Proof.
  intros (Hv & Hs). split; [exact Hv|].
  destruct x; try contradiction; exact I.
Qed.

Lemma opp_finite x : finite_value x -> finite_value (SFopp x).
Proof.
  intros (Hv & Hs). destruct x as [s|s| |s m e]; try contradiction;
    (split; [exact Hv|exact I]).
Qed.

Lemma scaled_opp x : scaled (SFopp x) = - scaled x.
Proof.
  destruct x as [s|s| |s m e]; try reflexivity.
  destruct s; cbn [SFopp scaled negb]; lia.
Qed.

(** A finite value that is not below zero is zero or positive. *)
Lemma finite_nonneg x : finite_value x -> 0 <= scaled x -> nonneg x.
Proof.
  intros (Hv & Hs) H0. split; [exact Hv|].
  destruct x as [s|s| |s m e]; try contradiction; [exact I|].
  destruct s; [exfalso|reflexivity]. cbn [scaled] in H0.
  pose proof (valid_mantissa _ _ _ Hv) as (Re & _).
  pose proof (scaled_finite_pos m e ltac:(lia)). lia.
Qed.

(** The sign of a product follows the sign of its first factor. *)
Lemma round_aux_opp s m e l :
  binary_round_aux F32.prec F32.emax (negb s) m e l =
  SFopp (binary_round_aux F32.prec F32.emax s m e l).
Proof.
  unfold binary_round_aux.
  destruct (shr_fexp _ _ m e l) as [mrs' e'].
  destruct (shr_fexp _ _ _ e' loc_Exact) as [mrs'' e''].
  destruct (shr_m mrs''); try reflexivity.
  destruct (_ <=? _); reflexivity.
Qed.

Lemma mul_opp x y : F32.mul (SFopp x) y = SFopp (F32.mul x y).
Proof.
  unfold F32.mul, SFmul.
  destruct x as [sx|sx| |sx mx ex], y as [sy|sy| |sy my ey];
    cbn [SFopp]; try reflexivity;
    try (destruct sx, sy; reflexivity).
  replace (xorb (negb sx) sy) with (negb (xorb sx sy))
    by (destruct sx, sy; reflexivity).
  apply round_aux_opp.
Qed.

Lemma of_Z_opp x : F32.of_Z (- x) = SFopp (F32.of_Z x) \/ x = 0.
Proof.
  destruct x as [|p|p]; [right; reflexivity| |]; left;
    unfold F32.of_Z, binary_normalize, binary_round; cbn [Z.opp];
    destruct (shl_align _ _ _) as [mz ez].
  - apply (round_aux_opp false).
  - rewrite (round_aux_opp false).
    destruct (binary_round_aux _ _ false _ _ _) as [[]|[]| |[] ? ?];
      reflexivity.
Qed.

Lemma ltb_opp m1 e1 m2 e2 :
  F32.ltb (S754_finite true m1 e1) (S754_finite true m2 e2) =
  F32.ltb (S754_finite false m2 e2) (S754_finite false m1 e1).
Proof.
  unfold F32.ltb, SFltb, SFcompare.
  rewrite (Z.compare_antisym e1 e2).
  destruct (e1 ?= e2); cbn [CompOpp]; try reflexivity.
  change (Pos.compare_cont Eq m1 m2) with (Pos.compare m1 m2).
  change (Pos.compare_cont Eq m2 m1) with (Pos.compare m2 m1).
  rewrite (Pos.compare_antisym m1 m2).
  destruct (m1 ?= m2)%positive; reflexivity.
Qed.

Lemma leb_opp m1 e1 m2 e2 :
  F32.leb (S754_finite true m1 e1) (S754_finite true m2 e2) =
  F32.leb (S754_finite false m2 e2) (S754_finite false m1 e1).
Proof.
  unfold F32.leb, SFleb, SFcompare.
  rewrite (Z.compare_antisym e1 e2).
  destruct (e1 ?= e2); cbn [CompOpp]; try reflexivity.
  change (Pos.compare_cont Eq m1 m2) with (Pos.compare m1 m2).
  change (Pos.compare_cont Eq m2 m1) with (Pos.compare m2 m1).
  rewrite (Pos.compare_antisym m1 m2).
  destruct (m1 ?= m2)%positive; reflexivity.
Qed.

(** [<=] on finite values of either sign is the order of the values. *)
Lemma leb_signed x y :
  finite_value x -> finite_value y ->
  (F32.leb x y = true <-> scaled x <= scaled y).
Proof.
  intros (Vx & Fx) (Vy & Fy).
  destruct x as [sx|sx| |sx mx ex]; try contradiction;
    destruct y as [sy|sy| |sy my ey]; try contradiction.
  - split; [cbn; lia|reflexivity].
  - pose proof (valid_mantissa _ _ _ Vy) as (Ry & _).
    pose proof (scaled_finite_pos my ey ltac:(lia)).
    destruct sy; cbn [scaled]; (split; [intros Hl|intros Hl]);
      try reflexivity; try discriminate; lia.
  - pose proof (valid_mantissa _ _ _ Vx) as (Rx & _).
    pose proof (scaled_finite_pos mx ex ltac:(lia)).
    destruct sx; cbn [scaled]; (split; [intros Hl|intros Hl]);
      try reflexivity; try discriminate; lia.
  - pose proof (valid_mantissa _ _ _ Vx) as (Rx & _).
    pose proof (valid_mantissa _ _ _ Vy) as (Ry & _).
    pose proof (scaled_finite_pos mx ex ltac:(lia)).
    pose proof (scaled_finite_pos my ey ltac:(lia)).
    destruct sx, sy.
    + rewrite leb_opp.
      rewrite (proj1 (leb_scaled (S754_finite false my ey)
                        (S754_finite false mx ex)
                        (conj Vy eq_refl) (conj Vx eq_refl))).
      cbn [scaled]. lia.
    + cbn [scaled]. split; [lia|reflexivity].
    + cbn [scaled]. split; [discriminate|lia].
    + apply (leb_scaled _ _ (conj Vx eq_refl) (conj Vy eq_refl)).
Qed.

Lemma normalize_opp D e :
  D <> 0 ->
  binary_normalize F32.prec F32.emax (- D) e false =
  SFopp (binary_normalize F32.prec F32.emax D e false).
Proof.
  intros HD. destruct D as [|p|p]; [contradiction| |];
    unfold binary_normalize, binary_round; cbn [Z.opp];
    destruct (shl_align _ _ _) as [mz ez].
  - apply (round_aux_opp false).
  - rewrite (round_aux_opp false).
    destruct (binary_round_aux _ _ false _ _ _) as [[]|[]| |[] ? ?];
      reflexivity.
Qed.

(** Swapping the operands of a difference that is not zero changes its
    sign. *)
Lemma sub_swap x y :
  nonneg x -> nonneg y -> scaled x <> scaled y ->
  F32.sub x y = SFopp (F32.sub y x).
Proof.
  intros (Vx & Sx) (Vy & Sy) Hne.
  destruct x as [sx|sx| |sx mx ex]; cbn [zero_or_positive] in Sx;
    try contradiction;
    destruct y as [sy|sy| |sy my ey]; cbn [zero_or_positive] in Sy;
    try contradiction; subst; try reflexivity.
  pose proof (valid_mantissa _ _ _ Vx) as (Rx & _).
  pose proof (valid_mantissa _ _ _ Vy) as (Ry & _).
  unfold F32.sub, SFsub. cbn [cond_Zopp scaled] in *.
  rewrite (Z.min_comm ey ex). set (ez := Z.min ex ey).
  pose proof (aligned_scaled mx ex ez ltac:(lia) ltac:(lia)) as Ax.
  pose proof (aligned_scaled my ey ez ltac:(lia) ltac:(lia)) as Ay.
  set (ax := Z.pos (fst (shl_align mx ex ez))) in *.
  set (ay := Z.pos (fst (shl_align my ey ez))) in *.
  replace (ax - ay) with (- (ay - ax)) by lia.
  apply normalize_opp. intros H.
  apply Hne. rewrite <- Ax, <- Ay. f_equal. lia.
Qed.

(** Adding to a negated value is subtracting it. *)
Lemma add_opp_l a b :
  nonneg a -> nonneg b -> F32.add (SFopp a) b = F32.sub b a.
Proof.
  intros (Va & Sa) (Vb & Sb).
  destruct a as [sa|sa| |sa ma ea]; cbn [zero_or_positive] in Sa;
    try contradiction;
    destruct b as [sb|sb| |sb mb eb]; cbn [zero_or_positive] in Sb;
    try contradiction; subst; try reflexivity.
  - destruct sa, sb; reflexivity.
  - unfold F32.add, F32.sub, SFadd, SFsub. cbn [SFopp negb cond_Zopp].
    rewrite (Z.min_comm eb ea). reflexivity.
Qed.

(** ** Depths up to 4 *)

(** A depth a note-on can lock: not negative and at most 4.  A velocity
    byte above 127 scales the depth beyond 1. *)
Definition wide (x : float) : Prop := nonneg x /\ scaled x <= 2 ^ 151.

Lemma wide_small x : wide x -> small x.
Proof.
  intros (Hn & Hle). split; [exact Hn|].
  assert (2 ^ 151 <= 2 ^ 165) by (apply Z.pow_le_mono_r; lia). lia.
Qed.

Lemma unit_wide x : unit_value x -> wide x.
Proof.
  intros (Hn & Hle). split; [exact Hn|].
  assert (2 ^ 149 <= 2 ^ 151) by (apply Z.pow_le_mono_r; lia). lia.
Qed.

Lemma rnd_shifted K j :
  0 <= K < 16777216 -> 0 <= j -> rnd 0 (K * 2 ^ j) = K * 2 ^ j.
Proof.
  intros HK Hj. destruct (Z.eq_dec K 0) as [->|Hz]; [reflexivity|].
  unfold rnd.
  assert (Hp : 0 < 2 ^ j) by (apply Z.pow_pos_nonneg; lia).
  destruct (Z.eqb_spec (K * 2 ^ j) 0) as [|Hne]; [lia|].
  cbv zeta. rewrite Zdigits2_shift by lia.
  destruct (Zdigits2_bounds K ltac:(lia)) as (Hb & Hd).
  assert (Zdigits2 K - 1 < 24)
    by (apply pow2_lt_inv; [lia|]; change (2 ^ 24) with 16777216; lia).
  set (n := Z.max (Zdigits2 K + j - 24) 0).
  destruct (Z_le_gt_dec n 0) as [Hn0|Hn1].
  - replace n with 0 by lia. change (2 ^ 0) with 1.
    rewrite <- (Z.mul_1_r (K * 2 ^ j)) at 1.
    rewrite div_nearest_even_exact by lia. change (2 ^ (0 - 0)) with 1. lia.
  - replace (K * 2 ^ j) with (K * 2 ^ (j - n) * 2 ^ n)
      by (rewrite <- Z.mul_assoc, <- Z.pow_add_r by lia; f_equal; f_equal; lia).
    rewrite div_nearest_even_exact by (apply Z.pow_pos_nonneg; lia).
    rewrite Z.sub_0_r. reflexivity.
Qed.

(** [x - 1] is exact for [1 <= x <= 4]. *)
Lemma rnd_minus_one x :
  wide x -> 2 ^ 149 <= scaled x ->
  rnd 0 (scaled x - 2 ^ 149) = scaled x - 2 ^ 149.
Proof.
  intros ((Hv & Hs) & Hhi) Hlo.
  destruct x as [s|s| |s m e]; cbn [zero_or_positive] in Hs;
    try contradiction.
  subst s. cbn [scaled] in *.
  pose proof (valid_mantissa _ _ _ Hv) as (Re & Um & Lm).
  assert (Hp : 0 < 2 ^ (e + 149)) by (apply Z.pow_pos_nonneg; lia).
  assert (He : -24 < e).
  { assert (2 ^ 149 < 2 ^ (24 + (e + 149))).
    { rewrite Z.pow_add_r by lia. change (2 ^ 24) with 16777216. nia. }
    apply pow2_lt_inv in H; lia. }
  specialize (Lm ltac:(lia)).
  assert (He2 : e <= -21).
  { assert (2 ^ (23 + (e + 149)) <= 2 ^ 151).
    { rewrite Z.pow_add_r by lia. change (2 ^ 23) with 8388608. nia. }
    apply pow2_le_inv in H; lia. }
  assert (H149 : 2 ^ 149 = 2 ^ (- e) * 2 ^ (e + 149))
    by (rewrite <- Z.pow_add_r by lia; f_equal; lia).
  assert (Hq : 0 < 2 ^ (- e)) by (apply Z.pow_pos_nonneg; lia).
  replace (Z.pos m * 2 ^ (e + 149) - 2 ^ 149)
    with ((Z.pos m - 2 ^ (- e)) * 2 ^ (e + 149))
    by (rewrite Z.mul_sub_distr_r, <- H149; reflexivity).
  apply rnd_shifted; [|lia].
  rewrite H149 in Hlo. split; [|lia].
  apply Z.mul_le_mono_pos_r in Hlo; lia.
Qed.

(** [1 - y] for a [y] that may exceed 1. *)
Lemma sub_one_signed y :
  small y ->
  finite_value (F32.sub F32.one y) /\
  scaled (F32.sub F32.one y) =
    if scaled y <=? 2 ^ 149 then rnd 0 (2 ^ 149 - scaled y)
    else - rnd 0 (scaled y - 2 ^ 149).
Proof.
  intros Hy. destruct (Z.leb_spec (scaled y) (2 ^ 149)) as [Hle|Hgt].
  - destruct (sub_scaled F32.one y small_one Hy Hle) as (Hn & Hv).
    split; [apply nonneg_finite, Hn|exact Hv].
  - rewrite (sub_swap F32.one y (proj1 small_one) (proj1 Hy))
      by (change (scaled F32.one) with (2 ^ 149); lia).
    destruct (sub_scaled y F32.one Hy small_one) as (Hn & Hv).
    { change (scaled F32.one) with (2 ^ 149). lia. }
    split; [apply opp_finite, nonneg_finite, Hn|].
    rewrite scaled_opp, Hv. reflexivity.
Qed.

Lemma sub_one_signed_antitone y1 y2 :
  small y1 -> small y2 -> scaled y1 <= scaled y2 ->
  scaled (F32.sub F32.one y2) <= scaled (F32.sub F32.one y1) /\
  scaled (F32.sub F32.one y1) <= 2 ^ 149.
Proof.
  intros H1 H2 Hle.
  rewrite (proj2 (sub_one_signed y1 H1)), (proj2 (sub_one_signed y2 H2)).
  pose proof (scaled_nonneg y1 (proj1 H1)) as P1.
  assert (Hp : 0 < 2 ^ 149) by reflexivity.
  assert (Hone : rnd 0 (2 ^ 149) = 2 ^ 149)
    by (apply (rnd_id F32.one), unit_one).
  destruct (Z.leb_spec (scaled y1) (2 ^ 149)) as [A1|A1];
    destruct (Z.leb_spec (scaled y2) (2 ^ 149)) as [A2|A2]; try lia.
  - split; [apply rnd_mono; lia|].
    rewrite <- Hone at 2. apply rnd_mono; lia.
  - split.
    + pose proof (rnd_nonneg 0 (scaled y2 - 2 ^ 149) ltac:(lia) ltac:(lia)).
      pose proof (rnd_nonneg 0 (2 ^ 149 - scaled y1) ltac:(lia) ltac:(lia)).
      lia.
    + rewrite <- Hone at 2. apply rnd_mono; lia.
  - pose proof (rnd_mono 0 (scaled y1 - 2 ^ 149) (scaled y2 - 2 ^ 149)
                  ltac:(lia) ltac:(lia)).
    pose proof (rnd_nonneg 0 (scaled y1 - 2 ^ 149) ltac:(lia) ltac:(lia)).
    lia.
Qed.

(** The Attack gain [1 - d * s] for a depth [d] up to 4 and a shaped
    position [s]: between the full duck [1 - d] and 1. *)
Lemma attack_signed d s :
  wide d -> unit_value s ->
  finite_value (F32.sub F32.one (F32.mul d s)) /\
  scaled (F32.sub F32.one d) <= scaled (F32.sub F32.one (F32.mul d s)) /\
  scaled (F32.sub F32.one (F32.mul d s)) <= 2 ^ 149.
Proof.
  intros Hd Hs. pose proof (wide_small d Hd) as Hds.
  destruct (mul_unit_r d s Hds Hs) as (Hn & Hle).
  assert (Hy : small (F32.mul d s)) by (split; [exact Hn|destruct Hds; lia]).
  split; [apply sub_one_signed, Hy|].
  apply sub_one_signed_antitone; assumption.
Qed.

(** The Release gain [(1 - d) + z] for a depth [d] up to 4 and a part
    [z] of it. *)
Lemma release_signed d z :
  wide d -> nonneg z -> scaled z <= scaled d ->
  finite_value (F32.add (F32.sub F32.one d) z) /\
  scaled (F32.sub F32.one d) <= scaled (F32.add (F32.sub F32.one d) z) /\
  scaled (F32.add (F32.sub F32.one d) z) <= 2 ^ 149.
Proof.
  intros Hd Hz Hle. pose proof (wide_small d Hd) as Hds.
  assert (Hzs : small z) by (split; [exact Hz|destruct Hds; lia]).
  assert (Hone : rnd 0 (2 ^ 149) = 2 ^ 149)
    by (apply (rnd_id F32.one), unit_one).
  destruct (Z_le_gt_dec (scaled d) (2 ^ 149)) as [Hu|Hw].
  - destruct (release_unit d z) as (Hg & Hlo); try (split; [|lia]);
      try apply Hd; try exact Hz; [exact Hle|].
    split; [apply nonneg_finite, Hg|]. split; [exact Hlo|apply Hg].
  - destruct (sub_scaled d F32.one Hds small_one) as (Ha & Hav).
    { change (scaled F32.one) with (2 ^ 149). lia. }
    change (scaled F32.one) with (2 ^ 149) in Hav.
    rewrite (rnd_minus_one d Hd ltac:(lia)) in Hav.
    set (a := F32.sub d F32.one) in *.
    assert (Has : small a) by (split; [exact Ha|destruct Hds; lia]).
    rewrite (sub_swap F32.one d (proj1 small_one) (proj1 Hd))
      by (change (scaled F32.one) with (2 ^ 149); lia).
    fold a. rewrite (add_opp_l a z Ha Hz), scaled_opp, Hav.
    pose proof (scaled_nonneg z Hz) as Pz.
    destruct (Z_le_gt_dec (scaled a) (scaled z)) as [Hge|Hlt].
    + destruct (sub_scaled z a Hzs Has Hge) as (Hn & Hv).
      split; [apply nonneg_finite, Hn|].
      pose proof (scaled_nonneg _ Hn). split; [lia|].
      rewrite Hv, <- Hone. apply rnd_mono; lia.
    + rewrite (sub_swap z a Hz Ha) by lia.
      destruct (sub_scaled a z Has Hzs ltac:(lia)) as (Hn & Hv).
      split; [apply opp_finite, nonneg_finite, Hn|].
      rewrite scaled_opp, Hv.
      pose proof (rnd_nonneg 0 (scaled a - scaled z) ltac:(lia) ltac:(lia)).
      assert (rnd 0 (scaled a - scaled z) <= scaled a).
      { rewrite <- (rnd_id a Ha) at 2. apply rnd_mono; lia. }
      assert (0 < 2 ^ 149) by reflexivity. lia.
Qed.

(** A factor in [0, 1] on the left does not increase a value either. *)
Lemma mul_unit_l x y :
  unit_value x -> small y ->
  nonneg (F32.mul x y) /\ scaled (F32.mul x y) <= scaled y.
Proof.
  intros Hx Hy. pose proof (unit_value_small x Hx) as Hxs.
  destruct (mul_scaled x y Hxs Hy) as (Hn & Hv). split; [exact Hn|].
  pose proof (scaled_nonneg x (proj1 Hx)).
  pose proof (scaled_nonneg y (proj1 Hy)).
  rewrite Hv. transitivity (rnd 149 (scaled y * 2 ^ 149)).
  - apply rnd_mono; [lia|]. destruct Hx as (_ & Hx1).
    generalize dependent (2 ^ 149). intros. nia.
  - rewrite (rnd_exact 149 y (proj1 Hy)) by lia. lia.
Qed.

(** ** The depth a note-on locks *)

(** A decidable sufficient condition for a value in [0, 3]. *)
Definition wide_check (x : float) : bool :=
  match x with
  | S754_zero _ => true
  | S754_finite false _ _ => F32.valid x && F32.leb x F32.three
  | _ => false
  end.

Lemma wide_check_sound x :
  wide_check x = true -> nonneg x /\ scaled x <= 3 * 2 ^ 149.
Proof.
  destruct x as [s|s| |s m e]; cbn [wide_check]; try discriminate.
  - intros _. split; [split; [reflexivity|exact I]|].
    cbn [scaled]. apply Z.lt_le_incl. reflexivity.
  - destruct s; [discriminate|]. intros H. apply andb_prop in H.
    destruct H as (Hv & Hl).
    assert (Hn : nonneg (S754_finite false m e)) by (split; [exact Hv|reflexivity]).
    split; [exact Hn|].
    apply (leb_scaled _ _ Hn (proj1 small_three)) in Hl. exact Hl.
Qed.

Lemma vel_norm_wide_all :
  forallb (fun n => wide_check (vel_norm (Z.of_nat n))) (seq 0 256) = true.
Proof. vm_compute. reflexivity. Qed.

(** Every velocity byte over 127 is at most 3. *)
Lemma vel_norm_wide v :
  0 <= v <= 255 -> nonneg (vel_norm v) /\ scaled (vel_norm v) <= 3 * 2 ^ 149.
Proof.
  intros H. pose proof vel_norm_wide_all as Hall.
  rewrite forallb_forall in Hall. apply wide_check_sound.
  rewrite <- (Z2Nat.id v) by lia. apply Hall.
  apply in_seq. lia.
Qed.

Lemma vel_scale_wide vs v :
  unit_value vs -> 0 <= v <= 255 ->
  wide (if F32.gtb vs F32.zero then vel_scale_formula vs v else F32.one).
Proof.
  intros Hs Hv. destruct (F32.gtb vs F32.zero); [|apply unit_wide, unit_one].
  unfold vel_scale_formula.
  destruct (vel_norm_wide v Hv) as (Hn & Hle).
  assert (Hp : 0 < 2 ^ 149) by reflexivity.
  assert (H165 : 2 ^ 165 = 65536 * 2 ^ 149) by reflexivity.
  assert (Hns : small (vel_norm v)) by (split; [exact Hn|lia]).
  destruct (mul_unit_l vs (vel_norm v) Hs Hns) as (Hm & Hmle).
  destruct (sub_one_unit vs Hs) as (Hu & _).
  destruct (add_scaled (F32.sub F32.one vs) (F32.mul vs (vel_norm v)))
    as (Ha & Hav); [apply unit_value_small, Hu|split; [exact Hm|lia]|].
  split; [exact Ha|]. rewrite Hav.
  change (2 ^ 151) with (scaled (S754_finite false 8388608 (-21))).
  rewrite <- (rnd_id (S754_finite false 8388608 (-21)))
    by (split; [reflexivity|exact eq_refl]).
  pose proof (scaled_nonneg _ (proj1 Hu)). pose proof (scaled_nonneg _ Hm).
  apply rnd_mono; [lia|].
  change (scaled (S754_finite false 8388608 (-21))) with (4 * 2 ^ 149).
  destruct Hu as (_ & Hu1). lia.
Qed.

Lemma note_on_vel_depth_wide i v :
  unit_value (depth i) -> unit_value (vel_sens i) -> 0 <= v <= 255 ->
  wide (vel_depth (note_on i v)).
Proof.
  intros Hd Hs Hv. rewrite note_on_vel_depth.
  pose proof (vel_scale_wide (vel_sens i) v Hs Hv) as Hw.
  destruct (mul_unit_l (depth i) _ Hd (wide_small _ Hw)) as (Hn & Hle).
  split; [exact Hn|]. destruct Hw as (_ & Hw).
  eapply Z.le_trans; eassumption.
Qed.

(** ** The gain stays between full duck and 1 *)

(** What holds along a run: the locked depth is a value of [wide], the
    position is inside its phase, and Idle passes the signal unchanged. *)
Definition cycle_ok (s : ducker_instance) : Prop :=
  wide (vel_depth s) /\ phase_ok s /\
  (phase s = PHASE_IDLE -> envelope s = F32.one).

(** The same with a locked depth and a gain that are unit values. *)
Definition env_ok (s : ducker_instance) : Prop :=
  cycle_ok s /\ unit_value (vel_depth s) /\ unit_value (envelope s).

Lemma ducked_finite s :
  wide (vel_depth s) ->
  finite_value (ducked s) /\ scaled (ducked s) <= 2 ^ 149.
Proof.
  intros H. pose proof (wide_small _ H) as Hs. unfold ducked.
  split; [apply sub_one_signed, Hs|].
  apply (sub_one_signed_antitone _ _ Hs Hs). lia.
Qed.

Lemma ducked_unit s : unit_value (vel_depth s) -> unit_value (ducked s).
Proof. intros H. apply sub_one_unit, H. Qed.

Lemma attack_gain_bound i :
  wide (vel_depth i) -> 0 <= phase_pos i < phase_len i ->
  phase_len i <= INT_MAX ->
  finite_value (attack_gain i) /\
  scaled (ducked i) <= scaled (attack_gain i) /\
  scaled (attack_gain i) <= 2 ^ 149.
Proof.
  intros Hd Hp Hl. unfold attack_gain, ducked.
  rewrite Z.gtb_ltb. destruct (Z.ltb_spec 0 (phase_len i)); [|lia].
  apply attack_signed; [exact Hd|]. apply shaped_position_unit; assumption.
Qed.

Lemma release_gain_bound i :
  wide (vel_depth i) -> 0 <= phase_pos i < phase_len i ->
  phase_len i <= INT_MAX ->
  finite_value (release_gain i) /\
  scaled (ducked i) <= scaled (release_gain i) /\
  scaled (release_gain i) <= 2 ^ 149.
Proof.
  intros Hd Hp Hl. unfold release_gain, ducked.
  rewrite Z.gtb_ltb. destruct (Z.ltb_spec 0 (phase_len i)); [|lia].
  pose proof (shaped_position_unit (curve i) _ _ true Hp Hl) as Hs.
  destruct (mul_unit_r _ _ (wide_small _ Hd) Hs) as (Hn & Hle).
  apply release_signed; assumption.
Qed.

Lemma finite_one : finite_value F32.one.
Proof. apply nonneg_finite, unit_one. Qed.

Lemma advance_gain s :
  cycle_ok s ->
  finite_value (envelope (advance_one_sample s)) /\
  scaled (ducked s) <= scaled (envelope (advance_one_sample s)) /\
  scaled (envelope (advance_one_sample s)) <= 2 ^ 149 /\
  (phase (advance_one_sample s) = PHASE_IDLE ->
   envelope (advance_one_sample s) = F32.one).
Proof.
  intros (Hd & Hok & Hidle).
  destruct (ducked_finite s Hd) as (Hdf & Hdu).
  assert (Hone : finite_value F32.one /\ scaled (ducked s) <= scaled F32.one /\
                 scaled F32.one <= 2 ^ 149).
  { split; [apply finite_one|]. change (scaled F32.one) with (2 ^ 149). lia. }
  destruct Hok as (Hph & Hlen & HA & HH & HR).
  destruct Hph as [Hp|[Hp|[Hp|Hp]]].
  - rewrite advance_idle by (rewrite Hp; discriminate).
    rewrite (Hidle Hp). tauto.
  - rewrite (advance_attack _ Hp). specialize (HA Hp).
    pose proof (attack_gain_bound s Hd HA Hlen) as Hb.
    destruct (_ >=? _).
    + unfold enter_hold. destruct (_ && _); cbn;
        (split; [exact Hdf|split; [lia|split; [exact Hdu|discriminate]]]).
    + cbn. repeat split; try apply Hb. discriminate.
  - rewrite (advance_hold _ Hp).
    destruct (_ && _); cbn;
      (split; [exact Hdf|split; [lia|split; [exact Hdu|discriminate]]]).
  - rewrite (advance_release _ Hp). specialize (HR Hp).
    destruct (Z.geb_spec (wrap32 (phase_pos s + 1)) (phase_len s)) as [Hge|Hlt];
      cbn.
    + tauto.
    + assert (Hin : 0 <= phase_pos s < phase_len s).
      { destruct HR as [HR|(HR1 & HR2)]; [exact HR|].
        rewrite HR2 in Hlt. change (wrap32 (0 + 1)) with 1 in Hlt. lia. }
      pose proof (release_gain_bound s Hd Hin Hlen) as Hb.
      repeat split; try apply Hb. discriminate.
Qed.

Lemma advance_cycle_ok s : cycle_ok s -> cycle_ok (advance_one_sample s).
Proof.
  intros H. destruct (advance_gain s H) as (_ & _ & _ & Hi).
  destruct H as (Hd & Hok & _).
  split; [|split]; auto using advance_one_sample_phase_ok.
  rewrite (proj2 (advance_active_notes s)). exact Hd.
Qed.

Lemma advance_env_ok s : env_ok s -> env_ok (advance_one_sample s).
Proof.
  intros (H & Hd & _).
  destruct (advance_gain s H) as (Hf & Hlo & Hhi & _).
  split; [apply advance_cycle_ok, H|]. split.
  - rewrite (proj2 (advance_active_notes s)). exact Hd.
  - pose proof (scaled_nonneg _ (proj1 (ducked_unit s Hd))).
    split; [apply finite_nonneg; [exact Hf|lia]|exact Hhi].
Qed.

Lemma iter_cycle_ok n s :
  cycle_ok s -> cycle_ok (Nat.iter n advance_one_sample s).
Proof.
  intros H. induction n as [|n IH]; [exact H|].
  change (cycle_ok (advance_one_sample (Nat.iter n advance_one_sample s))).
  now apply advance_cycle_ok.
Qed.

Lemma iter_vel_depth n : forall i,
  vel_depth (Nat.iter n advance_one_sample i) = vel_depth i.
Proof.
  induction n as [|n IH]; intros i; [reflexivity|].
  rewrite Nat.iter_succ_r, IH. apply advance_active_notes.
Qed.

(** The [k]-th gain of the trace is the envelope after [k + 1] ticks. *)
Lemma gain_trace_nth n : forall k s d,
  (k < n)%nat ->
  nth k (gain_trace n s) d = envelope (Nat.iter (S k) advance_one_sample s).
Proof.
  induction n as [|n IH]; intros k s d Hk; [inversion Hk|].
  cbn [gain_trace]. cbv zeta. destruct k as [|k]; [reflexivity|].
  cbn [nth]. rewrite IH by (apply Nat.succ_lt_mono; exact Hk).
  rewrite (Nat.iter_succ_r (S k)). reflexivity.
Qed.

Lemma gain_trace_length n : forall s, List.length (gain_trace n s) = n.
Proof.
  induction n as [|n IH]; intros s; [reflexivity|].
  cbn [gain_trace]. cbv zeta. cbn [List.length]. now rewrite IH.
Qed.

(** Every gain of a run from a state of [cycle_ok] is between the full
    duck of the cycle and 1. *)
Lemma gain_trace_bound n s g :
  cycle_ok s -> In g (gain_trace n s) ->
  F32.leb (ducked s) g = true /\ F32.leb g F32.one = true.
Proof.
  intros Hs Hin. apply (In_nth _ _ F32.zero) in Hin.
  destruct Hin as (k & Hk & <-). rewrite gain_trace_length in Hk.
  rewrite gain_trace_nth by exact Hk.
  change (Nat.iter (S k) advance_one_sample s)
    with (advance_one_sample (Nat.iter k advance_one_sample s)).
  pose proof (iter_cycle_ok k s Hs) as Hk'.
  destruct (advance_gain _ Hk') as (Hf & Hlo & Hhi & _).
  assert (Hdk : ducked (Nat.iter k advance_one_sample s) = ducked s)
    by (unfold ducked; now rewrite iter_vel_depth).
  rewrite Hdk in Hlo.
  destruct (ducked_finite s (proj1 Hs)) as (Hdf & _).
  split.
  - apply (leb_signed _ _ Hdf Hf). exact Hlo.
  - apply (leb_signed _ _ Hf finite_one). exact Hhi.
Qed.

Lemma note_on_cycle_ok i v :
  unit_value (depth i) -> unit_value (vel_sens i) -> 0 <= v <= 255 ->
  cycle_ok (note_on i v) /\ phase (note_on i v) <> PHASE_IDLE /\
  (v <= 127 -> unit_value (envelope i) ->
   unit_value (vel_depth (note_on i v)) /\
   unit_value (envelope (note_on i v))).
Proof.
  intros Hd Hs Hv.
  pose proof (note_on_vel_depth_wide i v Hd Hs Hv) as Hvd.
  assert (Hph : phase (note_on i v) <> PHASE_IDLE).
  { unfold note_on. cbv zeta. rewrite start_attack_eq. unfold enter_hold.
    repeat match goal with |- context [if ?c then _ else _] => destruct c end;
      discriminate. }
  split; [|split; [exact Hph|]].
  - split; [exact Hvd|]. split; [apply start_attack_phase_ok|].
    intros H. contradiction.
  - intros Hv7 He.
    pose proof (note_on_vel_depth_unit i v Hd Hs ltac:(lia)) as Hu.
    split; [exact Hu|].
    pose proof (ducked_unit _ Hu) as Hdu. revert Hdu.
    unfold note_on, ducked. cbv zeta. rewrite start_attack_eq.
    unfold enter_hold, ducked.
    repeat match goal with |- context [if ?c then _ else _] => destruct c end;
      cbn; auto.
Qed.

Lemma in_unit_value x : in_unit x -> unit_value x.
Proof.
  intros (Hv & H0 & H1).
  assert (Hn : nonneg x).
  { split; [exact Hv|].
    destruct x as [s|s| |s m e]; try destruct s; try discriminate; exact I
      || reflexivity. }
  split; [exact Hn|].
  apply (leb_scaled _ _ Hn (proj1 unit_one)). exact H1.
Qed.

(** ** A Trigger-mode cycle ends after its three phase lengths *)

(** The number of ticks a Trigger-mode state needs to be Idle: what is
    left of the current phase and the phases after it.  A Release without
    length still takes the tick that leaves it. *)
Definition remaining (s : ducker_instance) : Z :=
  if phase s =? PHASE_ATTACK then
    phase_len s - phase_pos s + Z.max 0 (hold_samples s)
    + Z.max 1 (release_samples s)
  else if phase s =? PHASE_HOLD then
    phase_len s - phase_pos s + Z.max 1 (release_samples s)
  else if phase s =? PHASE_RELEASE then Z.max 1 (phase_len s - phase_pos s)
  else 0.

Lemma with_state_hold i ph pos len env :
  hold_samples (with_state i ph pos len env) = hold_samples i.
Proof. reflexivity. Qed.

Lemma with_state_release i ph pos len env :
  release_samples (with_state i ph pos len env) = release_samples i.
Proof. reflexivity. Qed.

Ltac remaining_cases :=
  unfold remaining; cbn; rewrite ?with_state_hold, ?with_state_release; lia.

Lemma remaining_idle s :
  phase_ok s -> mode s = MODE_TRIGGER -> remaining s <= 0 ->
  phase s = PHASE_IDLE.
Proof.
  intros (Hph & Hlen & HA & HH & HR) Hm. unfold remaining.
  destruct Hph as [Hp|[Hp|[Hp|Hp]]]; [auto| | |]; rewrite Hp; cbn.
  - specialize (HA Hp). lia.
  - specialize (HH Hp Hm). lia.
  - lia.
Qed.

Lemma remaining_advance s :
  phase_ok s -> mode s = MODE_TRIGGER ->
  remaining (advance_one_sample s) = Z.max 0 (remaining s - 1).
Proof.
  intros (Hph & Hlen & HA & HH & HR) Hm.
  destruct (samples_range s) as (_ & Hh & Hr).
  unfold INT_MIN, INT_MAX in *.
  destruct Hph as [Hp|[Hp|[Hp|Hp]]].
  - rewrite advance_idle by (rewrite Hp; discriminate).
    unfold remaining. rewrite Hp. reflexivity.
  - rewrite (advance_attack _ Hp). specialize (HA Hp).
    rewrite wrap32_small by (unfold INT_MIN, INT_MAX; lia).
    unfold remaining at 2. rewrite Hp. cbn [Z.eqb PHASE_ATTACK].
    rewrite Z.geb_leb.
    destruct (Z.leb_spec (phase_len s) (phase_pos s + 1)).
    + unfold enter_hold. rewrite Hm. cbn [Z.eqb MODE_TRIGGER andb].
      rewrite andb_true_r.
      destruct (Z.leb_spec (hold_samples s) 0); remaining_cases.
    + remaining_cases.
  - rewrite (advance_hold _ Hp). specialize (HH Hp Hm).
    rewrite wrap32_small by (unfold INT_MIN, INT_MAX; lia).
    unfold remaining at 2. rewrite Hp, Hm. cbn [Z.eqb PHASE_HOLD PHASE_ATTACK
      MODE_TRIGGER andb].
    rewrite Z.geb_leb.
    destruct (Z.leb_spec (phase_len s) (phase_pos s + 1)); remaining_cases.
  - rewrite (advance_release _ Hp). specialize (HR Hp).
    assert (Hw : wrap32 (phase_pos s + 1) = phase_pos s + 1)
      by (apply wrap32_small; unfold INT_MIN, INT_MAX; lia).
    rewrite Hw. unfold remaining at 2. rewrite Hp.
    cbn [Z.eqb PHASE_RELEASE PHASE_ATTACK PHASE_HOLD].
    rewrite Z.geb_leb.
    destruct (Z.leb_spec (phase_len s) (phase_pos s + 1)); remaining_cases.
Qed.

Lemma trigger_settles n : forall s,
  mode s = MODE_TRIGGER -> cycle_ok s -> remaining s <= Z.of_nat n ->
  phase (Nat.iter n advance_one_sample s) = PHASE_IDLE /\
  envelope (Nat.iter n advance_one_sample s) = F32.one.
Proof.
  induction n as [|n IH]; intros s Hm Hs Hr.
  - cbn [Nat.iter nat_rect].
    assert (Hp : phase s = PHASE_IDLE)
      by (apply remaining_idle; [apply Hs|exact Hm|exact Hr]).
    split; [exact Hp|apply Hs, Hp].
  - rewrite Nat.iter_succ_r. apply IH.
    + destruct (advance_one_sample_config s) as (_ & _ & -> & _). exact Hm.
    + apply advance_cycle_ok, Hs.
    + rewrite remaining_advance by (exact Hm || apply Hs). lia.
Qed.

Lemma remaining_note_on i v :
  mode i = MODE_TRIGGER ->
  remaining (note_on i v) =
  Z.max 0 (attack_samples i) + Z.max 0 (hold_samples i)
  + Z.max 1 (release_samples i).
Proof.
  intros Hm. unfold note_on. cbv zeta. rewrite start_attack_eq.
  set (j := set_vel_depth _ _).
  assert (Hcfg : same_config j i) by (destruct i; repeat split).
  destruct (same_config_samples _ _ Hcfg) as (Ha & Hh & Hr).
  assert (Hmode : mode j = MODE_TRIGGER) by (rewrite <- Hm; apply Hcfg).
  unfold enter_hold. rewrite Hmode, Ha, Hh, Hr.
  cbn [Z.eqb MODE_TRIGGER andb]. rewrite andb_true_r.
  destruct (Z.leb_spec (attack_samples i) 0);
    [destruct (Z.leb_spec (hold_samples i) 0)|];
    unfold remaining; cbn;
    rewrite ?with_state_hold, ?with_state_release, ?Hh, ?Hr; lia.
Qed.

Lemma unit_value_in x : unit_value x -> in_unit x.
Proof.
  intros (Hn & Hle). split; [apply Hn|]. split.
  - apply (leb_scaled _ _ (proj1 unit_zero) Hn).
    change (scaled F32.zero) with 0. apply scaled_nonneg, Hn.
  - apply (leb_scaled _ _ Hn (proj1 unit_one)). exact Hle.
Qed.

(** C4. The gain bound does not hold on the code for every depth the
    parameter store keeps: [clampf] returns a NaN as it is (both of its
    comparisons are false), so the text "nan" written to [depth] is
    stored, the note-on locks a NaN depth, and every gain of the Trigger
    cycle is a NaN, neither at least [1 - effective_depth] nor at most
    1.  Here attack, hold and release last 22, 22 and 44 samples: 87
    gains are NaN, and the gain is 1.0 again at the 88th. *)
Lemma nan_depth_cycle_gain :
  let cfg := v2_set_param
               (v2_set_param
                  (v2_set_param
                     (v2_set_param v2_create_instance "depth" "nan")
                     "attack" "0.01") "hold" "0.001") "release" "0.001" in
  let s := ducker_on_midi cfg note_on_msg 3 0 in
  mode cfg = MODE_TRIGGER /\ depth cfg = S754_nan /\
  attack_samples cfg + hold_samples cfg + release_samples cfg = 88 /\
  gain_trace 88 s = (repeat S754_nan 87 ++ [F32.one])%list /\
  F32.leb (ducked s) S754_nan = false /\ F32.leb S754_nan F32.one = false.
Proof. vm_compute. repeat split. Qed.

(** X21. Trigger mode, depth and velocity sensitivity in [0, 1], any
    attack, hold and release setting, any state of the envelope before,
    any velocity byte: after one qualifying note-on every gain the block
    processor applies satisfies [1 - effective_depth <= gain <= 1] in
    binary32, and from sample index attack + hold + release samples on
    (lengths below 0 counting as 0) the gain is exactly 1.0 and the phase
    Idle.  With a velocity up to 127 the locked depth is in [0, 1]. *)
Theorem trigger_cycle_gain inst msg len source :
  mode inst = MODE_TRIGGER ->
  in_unit (depth inst) -> in_unit (vel_sens inst) ->
  accepts inst msg len -> is_start msg ->
  let s := ducker_on_midi inst msg len source in
  let total := Z.max 0 (attack_samples inst) + Z.max 0 (hold_samples inst)
               + Z.max 0 (release_samples inst) in
  (forall n g, In g (gain_trace n s) ->
     F32.leb (ducked s) g = true /\ F32.leb g F32.one = true) /\
  (forall n k, total <= Z.of_nat k -> (k < n)%nat ->
     nth k (gain_trace n s) F32.zero = F32.one /\
     phase (Nat.iter (S k) advance_one_sample s) = PHASE_IDLE) /\
  (msg_velocity msg <= 127 -> in_unit (vel_depth s)).
Proof.
  intros Hm Hd Hs Hacc Hst. cbv zeta.
  rewrite (on_midi_start _ _ _ source Hacc Hst).
  apply in_unit_value in Hd. apply in_unit_value in Hs.
  assert (Hvel : 0 <= msg_velocity msg <= 255)
    by (destruct Hst; pose proof (byte_val_range (nth 2 msg x00));
        unfold msg_velocity in *; lia).
  destruct (note_on_cycle_ok inst _ Hd Hs Hvel) as (Hok & _ & _).
  split; [|split].
  - intros n g Hin. apply (gain_trace_bound n); assumption.
  - intros n k Hk Hlt.
    rewrite gain_trace_nth by exact Hlt.
    apply and_comm, trigger_settles; [|exact Hok|].
    + destruct (note_on_config inst (msg_velocity msg)) as (_ & _ & -> & _).
      exact Hm.
    + rewrite remaining_note_on by exact Hm. lia.
  - intros Hv7. apply unit_value_in, note_on_vel_depth_unit; try assumption.
    lia.
Qed.

(** The default instance with the S-curve and a velocity sensitivity of
    0.5, started with the velocity byte 200: 220 + 4410 + 13230 samples,
    and a locked depth above 1. *)
Lemma trigger_cycle_gain_witness :
  let inst := v2_set_param (v2_set_param v2_create_instance "curve" "S-Curve")
                "vel_sens" "0.5" in
  let s := ducker_on_midi inst [x90; x24; xc8] 3 0 in
  (attack_samples inst = 220 /\ hold_samples inst = 4410 /\
   release_samples inst = 13230 /\ F32.ltb F32.one (vel_depth s) = true) /\
  (forall n g, In g (gain_trace n s) ->
     F32.leb (ducked s) g = true /\ F32.leb g F32.one = true) /\
  (forall n k, 17860 <= Z.of_nat k -> (k < n)%nat ->
     nth k (gain_trace n s) F32.zero = F32.one /\
     phase (Nat.iter (S k) advance_one_sample s) = PHASE_IDLE).
Proof.
  cbv zeta. split; [vm_compute; auto|].
  refine (let H := trigger_cycle_gain
            (v2_set_param (v2_set_param v2_create_instance "curve" "S-Curve")
               "vel_sens" "0.5") [x90; x24; xc8] 3 0 _ _ _ _ _ in
          conj (proj1 H) (proj1 (proj2 H))).
  - vm_compute. reflexivity.
  - vm_compute. auto.
  - vm_compute. auto.
  - vm_compute. repeat split; try discriminate. right; reflexivity.
  - vm_compute. split; reflexivity.
Defined.

(** ** Scaling a sample by a unit gain *)

Lemma rnd_integer x :
  0 <= x < 16777216 -> rnd 0 (x * 2 ^ 149) = x * 2 ^ 149.
Proof.
  intros Hx. destruct (Z.eq_dec x 0) as [->|Hz]; [reflexivity|].
  unfold rnd.
  assert (Hp : 0 < 2 ^ 149) by reflexivity.
  destruct (Z.eqb_spec (x * 2 ^ 149) 0) as [|Hne]; [lia|].
  cbv zeta. rewrite Zdigits2_shift by lia.
  destruct (Zdigits2_bounds x ltac:(lia)) as (Hb & Hd).
  assert (Zdigits2 x - 1 < 24)
    by (apply pow2_lt_inv; [lia|]; change (2 ^ 24) with 16777216; lia).
  set (n := Z.max (Zdigits2 x + 149 - 24) 0).
  replace (x * 2 ^ 149) with (x * 2 ^ (149 - n) * 2 ^ n)
    by (rewrite <- Z.mul_assoc, <- Z.pow_add_r by lia; f_equal; f_equal; lia).
  rewrite div_nearest_even_exact by (apply Z.pow_pos_nonneg; lia).
  rewrite Z.sub_0_r. reflexivity.
Qed.

(** [(float)x] is exact for the magnitudes of [int16_t]. *)
Lemma of_Z_sample x :
  0 <= x <= 32768 ->
  small (F32.of_Z x) /\ scaled (F32.of_Z x) = x * 2 ^ 149.
Proof.
  intros Hx. destruct (of_Z_scaled x ltac:(lia)) as (Hn & Hv).
  rewrite rnd_integer in Hv by lia.
  split; [|exact Hv]. split; [exact Hn|]. rewrite Hv.
  change (2 ^ 165) with (65536 * 2 ^ 149).
  apply Z.mul_le_mono_nonneg_r; [apply Z.lt_le_incl; reflexivity|lia].
Qed.

(** The product of a sample magnitude with a unit gain does not exceed
    the magnitude. *)
Lemma scaled_sample_bound g x :
  unit_value g -> 0 <= x <= 32768 ->
  nonneg (scaled_sample g x) /\ scaled (scaled_sample g x) <= x * 2 ^ 149.
Proof.
  intros Hg Hx. destruct (of_Z_sample x Hx) as (Hs & Hv).
  unfold scaled_sample.
  destruct (mul_unit_r _ g Hs Hg) as (Hn & Hle). rewrite Hv in Hle. auto.
Qed.

(** Truncation toward zero reads the integer part. *)
Lemma trunc_scaled p : nonneg p -> F32.trunc p = scaled p / 2 ^ 149.
Proof.
  intros (Hv & Hs).
  destruct p as [s|s| |s m e]; cbn [zero_or_positive] in Hs;
    try contradiction; [reflexivity|].
  subst s. cbn [F32.trunc scaled].
  pose proof (valid_mantissa _ _ _ Hv) as (Re & _).
  destruct e as [|q|q].
  - rewrite Z.shiftl_0_r. cbn [Z.add]. rewrite Z.div_mul; [reflexivity|].
    apply Z.pow_nonzero; lia.
  - rewrite Z.shiftl_mul_pow2 by lia.
    rewrite Z.pow_add_r, Z.mul_assoc, Z.div_mul by (try apply Z.pow_nonzero; lia).
    reflexivity.
  - rewrite Z.shiftr_div_pow2 by lia.
    replace (2 ^ 149) with (2 ^ Z.pos q * 2 ^ (Z.neg q + 149))
      by (rewrite <- Z.pow_add_r by lia; f_equal; lia).
    rewrite Z.div_mul_cancel_r; [reflexivity| |];
      apply Z.pow_nonzero; lia.
Qed.

Lemma trunc_bound p x :
  nonneg p -> 0 <= x -> scaled p <= x * 2 ^ 149 -> 0 <= F32.trunc p <= x.
Proof.
  intros Hn Hx Hle. rewrite (trunc_scaled p Hn).
  pose proof (scaled_nonneg p Hn).
  assert (Hp : 0 < 2 ^ 149) by reflexivity.
  split; [apply Z.div_pos; lia|].
  apply Z.div_le_upper_bound; lia.
Qed.

Lemma nonneg_int16_hi : nonneg int16_hi.
Proof. split; [reflexivity|exact eq_refl]. Qed.

Lemma nonneg_int16_abs : nonneg (S754_finite false 8388608 (-8)).
Proof. split; [reflexivity|exact eq_refl]. Qed.

(** A sample of [int16_t] scaled by a unit gain: the clamp leaves the
    product alone and the converted value is no larger in magnitude than
    the sample. *)
Lemma apply_gain_unit g x :
  unit_value g -> -32768 <= x <= 32767 ->
  clamp_int16 (scaled_sample g x) = scaled_sample g x /\
  Z.abs (F32.to_int16 (scaled_sample g x)) <= Z.abs x.
Proof.
  intros Hg Hx.
  assert (Hp : 0 < 2 ^ 149) by reflexivity.
  destruct (Z_le_gt_dec 0 x) as [Hpos|Hneg].
  - destruct (scaled_sample_bound g x Hg ltac:(lia)) as (Hn & Hle).
    pose proof (trunc_bound _ x Hn Hpos Hle) as Ht.
    set (p := scaled_sample g x) in *. split.
    + unfold clamp_int16. cbv zeta.
      destruct (F32.gtb p int16_hi) eqn:Hgt.
      { exfalso. unfold F32.gtb in Hgt.
        apply (proj2 (leb_scaled _ _ nonneg_int16_hi Hn)) in Hgt.
        change (scaled int16_hi) with (32767 * 2 ^ 149) in Hgt.
        assert (x * 2 ^ 149 <= 32767 * 2 ^ 149)
          by (apply Z.mul_le_mono_nonneg_r; lia).
        lia. }
      destruct Hn as (_ & Hs).
      destruct p as [s|s| |s m e]; cbn [zero_or_positive] in Hs;
        try contradiction; [reflexivity|subst s; reflexivity].
    + destruct Hn as (_ & Hs).
      destruct p as [s|s| |s m e]; cbn [zero_or_positive] in Hs;
        try contradiction; unfold F32.to_int16; lia.
  - destruct (of_Z_opp (- x)) as [Ho|Hz]; [|lia].
    rewrite Z.opp_involutive in Ho.
    destruct (scaled_sample_bound g (- x) Hg ltac:(lia)) as (Hn & Hle).
    pose proof (trunc_bound _ (- x) Hn ltac:(lia) Hle) as Ht.
    assert (Hq : scaled_sample g x = SFopp (scaled_sample g (- x)))
      by (unfold scaled_sample; rewrite Ho; apply mul_opp).
    rewrite Hq. set (q := scaled_sample g (- x)) in *.
    destruct Hn as (Hv & Hs).
    destruct q as [s|s| |s m e]; cbn [zero_or_positive] in Hs;
      try contradiction.
    + split; [destruct s; reflexivity|]. cbn. lia.
    + subst s. cbn [SFopp negb]. split.
      * unfold clamp_int16. cbv zeta.
        change (F32.gtb (S754_finite true m e) int16_hi) with false.
        cbv iota. unfold int16_lo. rewrite ltb_opp.
        destruct (F32.ltb _ _) eqn:Hlt; [exfalso|reflexivity].
        apply (proj2 (leb_scaled _ _ nonneg_int16_abs
                        (conj Hv eq_refl))) in Hlt.
        change (scaled (S754_finite false 8388608 (-8)))
          with (32768 * 2 ^ 149) in Hlt.
        assert (- x * 2 ^ 149 <= 32768 * 2 ^ 149)
          by (apply Z.mul_le_mono_nonneg_r; lia).
        lia.
      * unfold F32.to_int16.
        change (F32.trunc (S754_finite true m e))
          with (- F32.trunc (S754_finite false m e)).
        lia.
Qed.

(** ** The samples a block writes *)

Lemma store_length audio : forall k v,
  List.length (store audio k v) = List.length audio.
Proof.
  induction audio as [|a tl IH]; intros k v; [reflexivity|].
  destruct k; cbn; [reflexivity|]. now rewrite IH.
Qed.

Lemma store_nth_eq audio : forall k v d,
  (k < List.length audio)%nat -> nth k (store audio k v) d = v.
Proof.
  induction audio as [|a tl IH]; intros k v d Hk; [inversion Hk|].
  destruct k; cbn; [reflexivity|]. apply IH. cbn in Hk. lia.
Qed.

Lemma store_nth_neq audio : forall j k v d,
  j <> k -> nth k (store audio j v) d = nth k audio d.
Proof.
  induction audio as [|a tl IH]; intros j k v d Hk; [reflexivity|].
  destruct j, k; cbn; try reflexivity; [contradiction|].
  apply IH. lia.
Qed.

(** Frames from [i] on leave the samples before them alone. *)
Lemma process_frames_before n : forall i s audio k,
  (k < i * 2)%nat ->
  nth k (snd (process_frames n i s audio)) 0 = nth k audio 0.
Proof.
  induction n as [|n IH]; intros i s audio k Hk; [reflexivity|].
  cbn [process_frames]. cbv zeta. rewrite IH by lia.
  rewrite !store_nth_neq by lia. reflexivity.
Qed.

(** Sample [k] of the block is the input sample scaled by the envelope
    after the ticks up to its frame. *)
Lemma process_frames_nth n : forall i s audio k,
  (i * 2 <= k < (i + n) * 2)%nat -> (k < List.length audio)%nat ->
  nth k (snd (process_frames n i s audio)) 0 =
  apply_gain (envelope (Nat.iter (S (k / 2 - i)) advance_one_sample s))
    (nth k audio 0).
Proof.
  induction n as [|n IH]; intros i s audio k Hk Hlen; [lia|].
  cbn [process_frames]. cbv zeta.
  destruct (Nat.lt_ge_cases k (S i * 2)) as [Hin|Hout].
  - rewrite process_frames_before by exact Hin.
    assert (Hd : (k / 2 - i = 0)%nat).
    { assert (k / 2 < S i)%nat by (apply Nat.Div0.div_lt_upper_bound; lia).
      lia. }
    rewrite Hd. cbn [Nat.iter nat_rect].
    destruct (Nat.eq_dec k (i * 2)) as [->|Hne].
    + rewrite store_nth_neq by lia. now rewrite store_nth_eq.
    + assert (Hk1 : k = (i * 2 + 1)%nat) by lia. subst k.
      rewrite store_nth_eq by (rewrite store_length; exact Hlen).
      reflexivity.
  - rewrite IH by (rewrite ?store_length; lia).
    rewrite !store_nth_neq by lia.
    assert (Hd : (S (k / 2 - S i) = k / 2 - i)%nat).
    { assert (S i <= k / 2)%nat by (apply Nat.div_le_lower_bound; lia).
      lia. }
    rewrite <- Hd, (Nat.iter_succ_r (S (k / 2 - S i))). reflexivity.
Qed.

Lemma block_nth s audio frames k :
  (k < Z.to_nat frames * 2)%nat -> (k < List.length audio)%nat ->
  nth k (snd (v2_process_block s audio frames)) 0 =
  apply_gain (envelope (Nat.iter (S (k / 2)) advance_one_sample s))
    (nth k audio 0).
Proof.
  intros Hk Hlen. unfold v2_process_block.
  rewrite process_frames_nth by (cbn; lia). now rewrite Nat.sub_0_r.
Qed.

(** ** States reached with parameters and velocities of the domain *)

(** States reached from a fresh instance whose depth and velocity
    sensitivity are in [0, 1], by processed samples and by messages whose
    velocity byte is a 7-bit value. *)
Inductive reachable_unit : ducker_instance -> Prop :=
| unit_fresh inst :
    fresh inst -> in_unit (depth inst) -> in_unit (vel_sens inst) ->
    reachable_unit inst
| unit_midi s msg len source :
    reachable_unit s -> msg_velocity msg <= 127 ->
    reachable_unit (ducker_on_midi s msg len source)
| unit_sample s : reachable_unit s -> reachable_unit (advance_one_sample s).

Lemma reachable_unit_reachable s : reachable_unit s -> reachable s.
Proof. induction 1; auto using reachable. Qed.

Lemma on_midi_cases s msg len source :
  ducker_on_midi s msg len source = s \/
  (ducker_on_midi s msg len source = note_on s (msg_velocity msg) /\
   0 < msg_velocity msg) \/
  ducker_on_midi s msg len source = note_off s.
Proof.
  unfold ducker_on_midi. cbv zeta. fold (msg_velocity msg).
  destruct (len <? 3); [auto|].
  destruct (_ && _); [auto|].
  destruct (negb _); [auto|].
  rewrite Z.gtb_ltb.
  destruct (Z.ltb_spec 0 (msg_velocity msg)).
  - destruct (_ =? 144); cbn [andb]; [auto|].
    destruct (_ || _); auto.
  - rewrite andb_false_r. destruct (_ || _); auto.
Qed.

Lemma note_off_env_ok s : env_ok s -> env_ok (note_off s).
Proof.
  intros ((Hd & Hok & Hidle) & Hu & He).
  destruct (note_off_fields s) as (_ & Hvd & Hsame & Hrel).
  cbv zeta in Hsame, Hrel.
  split; [split; [|split]|split].
  - rewrite Hvd. exact Hd.
  - apply note_off_phase_ok, Hok.
  - destruct (_ && _ && _).
    + destruct (Hrel eq_refl) as (_ & _ & H0 & H1).
      destruct (Z_le_gt_dec (release_samples s) 0) as [Hle|Hgt].
      * intros _. apply H0, Hle.
      * destruct (H1 ltac:(lia)) as (-> & _). discriminate.
    + destruct (Hsame eq_refl) as (-> & _ & _ & ->). exact Hidle.
  - rewrite Hvd. exact Hu.
  - destruct (_ && _ && _).
    + destruct (Hrel eq_refl) as (_ & _ & H0 & H1).
      destruct (Z_le_gt_dec (release_samples s) 0) as [Hle|Hgt].
      * destruct (H0 Hle) as (_ & ->). apply unit_one.
      * destruct (H1 ltac:(lia)) as (_ & ->). exact He.
    + destruct (Hsame eq_refl) as (_ & _ & _ & ->). exact He.
Qed.

Lemma reachable_unit_ok s :
  reachable_unit s ->
  env_ok s /\ unit_value (depth s) /\ unit_value (vel_sens s).
Proof.
  induction 1 as [inst Hf Hd Hs|s msg len source _ IH Hv|s _ IH].
  - pose proof Hf as (Hp & _ & _ & Hvd & He & _).
    split; [|split; apply in_unit_value; assumption].
    split; [split; [|split]|split].
    + rewrite Hvd. apply unit_wide, unit_zero.
    + apply fresh_phase_ok, Hf.
    + intros _. exact He.
    + rewrite Hvd. apply unit_zero.
    + rewrite He. apply unit_one.
  - destruct IH as (Hok & Hd & Hs).
    assert (Hcfg : same_config (ducker_on_midi s msg len source) s)
      by apply ducker_on_midi_config.
    destruct Hcfg as (_ & _ & _ & Hcd & _ & _ & _ & _ & Hcs).
    rewrite Hcd, Hcs. split; [|split; assumption].
    destruct (on_midi_cases s msg len source) as [->|[(-> & Hpos)| ->]].
    + exact Hok.
    + destruct (note_on_cycle_ok s (msg_velocity msg) Hd Hs ltac:(lia))
        as (Hc & _ & He).
      split; [exact Hc|apply He; [exact Hv|apply Hok]].
    + apply note_off_env_ok, Hok.
  - destruct IH as (Hok & Hd & Hs).
    destruct (advance_one_sample_config s)
      as (_ & _ & _ & -> & _ & _ & _ & _ & ->).
    split; [apply advance_env_ok, Hok|split; assumption].
Qed.

(** C10 as stated fails: the handler does not check that the velocity
    byte is a 7-bit value, and the parameter store lets a NaN through its
    clamp.  With a velocity sensitivity of 1 a note-on carrying the
    velocity byte 255 locks a depth of about 2.008; at the end of the
    default attack the envelope is about -1.008, the input frame
    (32767, -5) leaves as (-32768, 5), and the upper sample is the work
    of the clamp: the product is -33025.  The parameter text nan makes
    the depth a NaN, and the envelope after it. *)
Lemma negative_gain_counterexample :
  let inst := v2_set_param v2_create_instance "vel_sens" "1" in
  let s := Nat.iter 219 advance_one_sample
             (ducker_on_midi inst [x90; x24; xff] 3 0) in
  let r := v2_process_block s [32767; -5] 1 in
  let g := envelope (fst r) in
  let nan := v2_set_param v2_create_instance "depth" "nan" in
  (in_unit (depth inst) /\ in_unit (vel_sens inst) /\ reachable (fst r)) /\
  (F32.ltb g F32.zero = true /\
   snd r = [-32768; 5] /\
   F32.trunc (scaled_sample g 32767) = -33025 /\
   clamp_int16 (scaled_sample g 32767) <> scaled_sample g 32767) /\
  (depth nan = S754_nan /\
   envelope (advance_one_sample (ducker_on_midi nan [x90; x24; x7f] 3 0))
     = S754_nan).
Proof.
  cbv zeta. split; [|split].
  - split; [vm_compute; auto|]. split; [vm_compute; auto|].
    apply reachable_block, reachable_iter, reach_midi, reach_fresh.
    vm_compute. repeat split.
  - vm_compute. repeat split. discriminate.
  - vm_compute. split; reflexivity.
Qed.

(** C10. From a fresh instance with depth and velocity sensitivity in
    [0, 1], through processed samples and messages whose velocity byte is
    at most 127: the envelope is in [0, 1]; and in a block of [int16_t]
    samples, sample [k] of the output is the conversion to [int16_t] of
    the binary32 product of the input sample with the envelope of its
    frame, the clamp leaves that product unchanged, and the magnitude of
    the output sample does not exceed that of the input sample. *)
Theorem block_output_scaled s audio frames k :
  reachable_unit s ->
  Forall (fun x => -32768 <= x <= 32767) audio ->
  (k < Z.to_nat frames * 2)%nat -> (k < List.length audio)%nat ->
  let out := snd (v2_process_block s audio frames) in
  let g := envelope (Nat.iter (S (k / 2)) advance_one_sample s) in
  let x := nth k audio 0 in
  in_unit (envelope s) /\ in_unit g /\
  clamp_int16 (F32.mul (F32.of_Z x) g) = F32.mul (F32.of_Z x) g /\
  nth k out 0 = F32.to_int16 (F32.mul (F32.of_Z x) g) /\
  Z.abs (nth k out 0) <= Z.abs x.
Proof.
  intros Hr Ha Hk Hlen. cbv zeta.
  destruct (reachable_unit_ok s Hr) as ((_ & _ & He) & _).
  assert (Hn : reachable_unit (Nat.iter (S (k / 2)) advance_one_sample s)).
  { induction (S (k / 2)) as [|n IH]; [exact Hr|].
    change (reachable_unit
              (advance_one_sample (Nat.iter n advance_one_sample s))).
    now apply unit_sample. }
  destruct (reachable_unit_ok _ Hn) as ((_ & _ & Hg) & _).
  assert (Hx : -32768 <= nth k audio 0 <= 32767).
  { rewrite Forall_forall in Ha. apply Ha, nth_In, Hlen. }
  destruct (apply_gain_unit _ _ Hg Hx) as (Hc & Habs).
  unfold scaled_sample in Hc, Habs.
  rewrite (block_nth s audio frames k Hk Hlen).
  unfold apply_gain, scaled_sample. rewrite Hc.
  split; [apply unit_value_in, He|]. split; [apply unit_value_in, Hg|].
  auto.
Qed.

(** Velocity sensitivity 0.5, a note-on of velocity 100, then a block of
    two frames. *)
Lemma block_output_scaled_witness :
  let inst := v2_set_param v2_create_instance "vel_sens" "0.5" in
  let s := ducker_on_midi inst [x90; x24; x64] 3 0 in
  let audio := [1000; -2000; 32767; -32768] in
  let out := snd (v2_process_block s audio 2) in
  let g := envelope (Nat.iter 2 advance_one_sample s) in
  in_unit (envelope s) /\ in_unit g /\
  clamp_int16 (F32.mul (F32.of_Z (-32768)) g) = F32.mul (F32.of_Z (-32768)) g /\
  nth 3 out 0 = F32.to_int16 (F32.mul (F32.of_Z (-32768)) g) /\
  Z.abs (nth 3 out 0) <= 32768.
Proof.
  cbv zeta.
  refine (block_output_scaled
            (ducker_on_midi (v2_set_param v2_create_instance "vel_sens" "0.5")
               [x90; x24; x64] 3 0)
            [1000; -2000; 32767; -32768] 2 3 _ _ _ _).
  - apply unit_midi; [apply unit_fresh|]; vm_compute; auto.
    + repeat split.
    + discriminate.
  - repeat constructor; discriminate.
  - vm_compute. lia.
  - vm_compute. lia.
Defined.

Local Close Scope string_scope.


(** * Further properties of the plugin interface *)

(** ** Conversion to binary32 gives a valid value *)

Lemma finish_valid s m1 e1 :
  0 <= m1 <= 16777216 -> -149 <= e1 ->
  (-149 < e1 -> 8388608 <= m1) ->
  F32.valid (finish s m1 e1) = true /\ finish s m1 e1 <> S754_nan.
Proof.
  intros Hm He Hn. unfold finish, shr_fexp. rewrite fexp32.
  destruct (Z.eq_dec m1 0) as [->|Hz].
  { cbn [Zdigits2]. replace (Z.max (0 + e1 - 24) (-149) - e1) with
      (Z.max (-24) (-149 - e1)) by lia.
    destruct (Z.max (-24) (-149 - e1)) eqn:E; try lia;
      cbn [shr shr_record_of_loc shr_m]; split; (reflexivity || discriminate). }
  destruct (Z.eq_dec m1 16777216) as [->|Hc].
  { cbn [Zdigits2 digits2_pos Pos.succ].
    replace (Z.max (25 + e1 - 24) (-149) - e1) with 1 by lia.
    cbn [shr iter_pos shr_record_of_loc shr_1 shr_m].
    destruct (Z.leb_spec (e1 + 1) (F32.emax - F32.prec)) as [Hin|Hov];
      (split; [|discriminate]); [|reflexivity].
    unfold F32.valid, valid_binary, bounded, canonical_mantissa.
    rewrite fexp32. cbn [digits2_pos Pos.succ].
    apply andb_true_intro. split; [apply Z.eqb_eq|apply Z.leb_le];
      unfold F32.emax, F32.prec in *; lia. }
  assert (Hd : Zdigits2 m1 <= 24 /\ (-149 < e1 -> Zdigits2 m1 = 24)).
  { destruct (Zdigits2_bounds m1) as (Hb & Hpos); [lia|].
    split.
    - assert (Zdigits2 m1 - 1 < 24) by (apply pow2_lt_inv; [lia|];
        change (2 ^ 24) with 16777216; lia). lia.
    - intros Hgt. apply Zdigits2_unique; [lia|].
      change (2 ^ (24 - 1)) with 8388608. change (2 ^ 24) with 16777216.
      specialize (Hn Hgt). lia. }
  destruct Hd as (Hd1 & Hd2).
  replace (Z.max (Zdigits2 m1 + e1 - 24) (-149) - e1) with 0 by lia.
  cbn [shr shr_record_of_loc shr_m].
  destruct m1 as [|p|p]; try lia.
  destruct (Z.leb_spec e1 (F32.emax - F32.prec)) as [Hin|Hov];
    (split; [|discriminate]); [|reflexivity].
  unfold F32.valid, valid_binary, bounded, canonical_mantissa.
  rewrite fexp32. cbn [Zdigits2] in Hd1, Hd2.
  apply andb_true_intro. split; [apply Z.eqb_eq|apply Z.leb_le];
    unfold F32.emax, F32.prec in *; lia.
Qed.

(** Rounding a binary64 mantissa and exponent to binary32: a valid
    value, an infinity on overflow, never a NaN. *)
Lemma binary_round_valid s m e :
  F32.valid (binary_round F32.prec F32.emax s m e) = true /\
  binary_round F32.prec F32.emax s m e <> S754_nan.
Proof.
  unfold binary_round. rewrite fexp32.
  destruct (shl_align_spec m e (Z.max (Z.pos (digits2_pos m) + e - 24) (-149)))
    as (H2 & H1).
  destruct (shl_align m e _) as [mz ez]. cbn [fst snd] in H1, H2.
  set (d := Z.pos (digits2_pos m)) in *.
  assert (Hdz : Zdigits2 (Z.pos mz) = d + (e - ez)).
  { rewrite H1. rewrite Zdigits2_shift by lia. rewrite <- H2. reflexivity. }
  destruct (round_aux_spec s (Z.pos mz) ez loc_Exact) as (m1 & -> & _ & _ & B & N);
    [lia|lia|].
  apply finish_valid; [exact B|lia|exact N].
Qed.

Lemma to_f32_valid x :
  F32.valid (F64.to_f32 x) = true /\
  (x <> S754_nan -> F64.to_f32 x <> S754_nan).
Proof.
  destruct x as [s|s| |s m e]; cbn [F64.to_f32];
    try (split; [reflexivity|tauto]).
  destruct (binary_round_valid s m e) as (Hv & Hn). split; [exact Hv|auto].
Qed.

(** ** What the clamp of the parameter store lets through *)

(** A parameter of the unit range, or the NaN the clamp returns
    unchanged. *)
Definition unit_or_nan (x : float) : Prop := x = S754_nan \/ in_unit x.

(** [clampf x 0 hi] for a positive finite [hi]: a NaN stays, anything
    else lands between 0 and [hi]. *)
Lemma clampf_zero_range x m e :
  F32.valid x = true -> F32.valid (S754_finite false m e) = true ->
  let r := clampf x F32.zero (S754_finite false m e) in
  (x = S754_nan -> r = S754_nan) /\
  (x <> S754_nan ->
   nonneg r /\ scaled r <= scaled (S754_finite false m e)).
Proof.
  intros Hx Hh. cbv zeta.
  assert (Hhn : nonneg (S754_finite false m e)) by (split; [exact Hh|reflexivity]).
  pose proof (scaled_nonneg _ Hhn) as Hh0.
  split; [intros ->; reflexivity|]. intros Hnan.
  destruct x as [s|s| |s mx ex]; [| | contradiction|].
  - unfold clampf. change (F32.ltb (S754_zero s) F32.zero) with false.
    change (F32.gtb (S754_zero s) (S754_finite false m e)) with false.
    cbv iota. split; [split; [reflexivity|exact I]|exact Hh0].
  - destruct s.
    + unfold clampf. change (F32.ltb (S754_infinity true) F32.zero) with true.
      cbv iota. split; [apply unit_zero|exact Hh0].
    + unfold clampf. change (F32.ltb (S754_infinity false) F32.zero) with false.
      change (F32.gtb (S754_infinity false) (S754_finite false m e)) with true.
      cbv iota. split; [exact Hhn|lia].
  - destruct s.
    + unfold clampf.
      change (F32.ltb (S754_finite true mx ex) F32.zero) with true.
      cbv iota. split; [apply unit_zero|exact Hh0].
    + unfold clampf.
      change (F32.ltb (S754_finite false mx ex) F32.zero) with false.
      cbv iota.
      assert (Hxn : nonneg (S754_finite false mx ex))
        by (split; [exact Hx|reflexivity]).
      destruct (F32.gtb _ _) eqn:Hg; [split; [exact Hhn|lia]|].
      split; [exact Hxn|].
      destruct (Z_le_gt_dec (scaled (S754_finite false mx ex))
                  (scaled (S754_finite false m e))) as [Hle|Hgt];
        [exact Hle|].
      exfalso. unfold F32.gtb in Hg.
      assert (F32.ltb (S754_finite false m e) (S754_finite false mx ex) = true)
        by (apply (leb_scaled _ _ Hhn Hxn); lia).
      unfold F32.ltb in *. congruence.
Qed.

Lemma clamp01_unit_or_nan x : F32.valid x = true -> unit_or_nan (clamp01 x).
Proof.
  intros Hx. unfold clamp01, F32.one.
  destruct (clampf_zero_range x 8388608 (-23) Hx eq_refl) as (Hn & Hr).
  destruct x as [s|s| |s m e]; try (left; apply Hn; reflexivity);
    right; apply unit_value_in; apply Hr; discriminate.
Qed.

Lemma spec_float_eq_nan (x : float) : x = S754_nan \/ x <> S754_nan.
Proof. destruct x; [right|right|left|right]; (reflexivity || discriminate). Qed.

(** [(int)clampf(x, 0, H)] lies in [0, H]; the conversion of a NaN is
    0. *)
Lemma to_int_clamp x H :
  F32.valid x = true -> 1 <= H <= 32768 ->
  0 <= F32.to_int (clampf x F32.zero (F32.of_Z H)) <= H.
Proof.
  intros Hx HH.
  destruct (of_Z_positive H ltac:(lia)) as (m & e & Ho & Hv & _).
  destruct (of_Z_sample H ltac:(lia)) as (_ & Hs).
  rewrite Ho in *.
  destruct (clampf_zero_range x m e Hx Hv) as (Hn & Hr).
  destruct (spec_float_eq_nan x) as [->|Hne].
  - rewrite (Hn eq_refl). cbn. lia.
  - destruct (Hr Hne) as (Hrn & Hle). rewrite Hs in Hle.
    pose proof (trunc_bound _ H Hrn ltac:(lia) Hle) as Ht.
    destruct Hrn as (_ & Hz).
    destruct (clampf x F32.zero (S754_finite false m e)) as [s'|s'| |s' m' e'];
      cbn [zero_or_positive] in Hz; try contradiction;
      unfold F32.to_int, INT_MIN, INT_MAX; lia.
Qed.

(** ** The parameter store keeps its ranges *)

Lemma parse_mode_range val :
  parse_mode val = MODE_TRIGGER \/ parse_mode val = MODE_GATE.
Proof.
  unfold parse_mode.
  repeat match goal with |- context [if ?c then _ else _] => destruct c end;
    auto.
Qed.

Lemma parse_curve_range val : 0 <= parse_curve val <= 3.
Proof.
  unfold parse_curve, CURVE_LINEAR, CURVE_EXPO, CURVE_SCURVE, CURVE_PUMP.
  repeat match goal with
         | |- context [if String.eqb ?a ?b then _ else _] =>
             destruct (String.eqb a b)
         end; try lia.
  cbv zeta. generalize (F64.to_int
    (F64.add (F64.mul (Libc.atof val) (F64.of_f32 F32.three))
       (F64.of_f32 f_0_5))). intros z.
  destruct (Z.ltb_spec z 0); rewrite Z.gtb_ltb;
    match goal with |- context [?a <? ?b] => destruct (Z.ltb_spec a b) end;
    lia.
Qed.

Lemma json_get_number_valid json key f :
  json_get_number json key = Some f -> F32.valid f = true.
Proof.
  unfold json_get_number. cbv zeta.
  destruct (Libc.strstr _ _); [|discriminate].
  intros H. injection H as <-. apply to_f32_valid.
Qed.

(** The ranges of the parameters other than the channel: the note, the
    mode and the curve in their integer ranges, each float parameter in
    [0, 1] or a NaN. *)
Definition params_ok (i : ducker_instance) : Prop :=
  0 <= trigger_note i <= 127 /\
  (mode i = MODE_TRIGGER \/ mode i = MODE_GATE) /\
  0 <= curve i <= 3 /\
  unit_or_nan (depth i) /\ unit_or_nan (attack i) /\ unit_or_nan (hold i) /\
  unit_or_nan (release i) /\ unit_or_nan (vel_sens i).

Lemma params_ok_same_config a b :
  same_config a b -> params_ok b -> params_ok a.
Proof.
  unfold same_config, params_ok.
  intros (_ & -> & -> & -> & -> & -> & -> & -> & ->). auto.
Qed.

Lemma ok_set_channel i v : params_ok i -> params_ok (set_channel i v).
Proof. auto. Qed.

Lemma ok_set_trigger_note i v :
  0 <= v <= 127 -> params_ok i -> params_ok (set_trigger_note i v).
Proof. unfold params_ok. cbn. tauto. Qed.

Lemma ok_set_mode i v :
  v = MODE_TRIGGER \/ v = MODE_GATE -> params_ok i -> params_ok (set_mode i v).
Proof. unfold params_ok. cbn. tauto. Qed.

Lemma ok_set_curve i v :
  0 <= v <= 3 -> params_ok i -> params_ok (set_curve i v).
Proof. unfold params_ok. cbn. tauto. Qed.

Lemma ok_set_depth i v :
  unit_or_nan v -> params_ok i -> params_ok (set_depth i v).
Proof. unfold params_ok. cbn. tauto. Qed.

Lemma ok_set_attack i v :
  unit_or_nan v -> params_ok i -> params_ok (set_attack i v).
Proof. unfold params_ok. cbn. tauto. Qed.

Lemma ok_set_hold i v :
  unit_or_nan v -> params_ok i -> params_ok (set_hold i v).
Proof. unfold params_ok. cbn. tauto. Qed.

Lemma ok_set_release i v :
  unit_or_nan v -> params_ok i -> params_ok (set_release i v).
Proof. unfold params_ok. cbn. tauto. Qed.

Lemma ok_set_vel_sens i v :
  unit_or_nan v -> params_ok i -> params_ok (set_vel_sens i v).
Proof. unfold params_ok. cbn. tauto. Qed.

Lemma to_int_clamp01 x :
  F32.valid x = true ->
  F32.to_int (clamp01 x) = MODE_TRIGGER \/ F32.to_int (clamp01 x) = MODE_GATE.
Proof.
  intros Hx. pose proof (to_int_clamp x 1 Hx ltac:(lia)) as H.
  change (F32.of_Z 1) with F32.one in H. fold (clamp01 x) in H.
  unfold MODE_TRIGGER, MODE_GATE. lia.
Qed.

Lemma to_int_clamp3 x :
  F32.valid x = true -> 0 <= F32.to_int (clampf x F32.zero F32.three) <= 3.
Proof. intros Hx. apply (to_int_clamp x 3 Hx). lia. Qed.

(** The restore of the state text as the nine steps of its source,
    one per key. *)
Definition restore_channel (val : string) (inst : ducker_instance) :=
  match json_get_string val "channel" 32 with
  | Some sval => set_channel inst (parse_channel sval)
  | None =>
      match json_get_number val "channel" with
      | Some fval =>
          set_channel inst (F32.to_int (clampf fval F32.zero (F32.of_Z 16)))
      | None => inst
      end
  end.

Definition restore_trigger_note (val : string) (inst : ducker_instance) :=
  match json_get_number val "trigger_note" with
  | Some fval =>
      set_trigger_note inst (F32.to_int (clampf fval F32.zero (F32.of_Z 127)))
  | None => inst
  end.

Definition restore_mode (val : string) (inst : ducker_instance) :=
  match json_get_string val "mode" 32 with
  | Some sval => set_mode inst (parse_mode sval)
  | None =>
      match json_get_number val "mode" with
      | Some fval => set_mode inst (F32.to_int (clamp01 fval))
      | None => inst
      end
  end.

Definition restore_float (key : string)
    (set : ducker_instance -> float -> ducker_instance)
    (val : string) (inst : ducker_instance) :=
  match json_get_number val key with
  | Some fval => set inst (clamp01 fval)
  | None => inst
  end.

Definition restore_curve (val : string) (inst : ducker_instance) :=
  match json_get_string val "curve" 32 with
  | Some sval => set_curve inst (parse_curve sval)
  | None =>
      match json_get_number val "curve" with
      | Some fval =>
          set_curve inst (F32.to_int (clampf fval F32.zero F32.three))
      | None => inst
      end
  end.

Lemma restore_state_steps inst val :
  restore_state inst val =
  restore_float "vel_sens" set_vel_sens val
    (restore_curve val
       (restore_float "release" set_release val
          (restore_float "hold" set_hold val
             (restore_float "attack" set_attack val
                (restore_float "depth" set_depth val
                   (restore_mode val
                      (restore_trigger_note val
                         (restore_channel val inst)))))))).
Proof. reflexivity. Qed.

Lemma restore_channel_ok val i : params_ok i -> params_ok (restore_channel val i).
Proof.
  intros H. unfold restore_channel.
  destruct (json_get_string _ _ _); [|destruct (json_get_number _ _)];
    exact H.
Qed.

Lemma restore_trigger_note_ok val i :
  params_ok i -> params_ok (restore_trigger_note val i).
Proof.
  intros H. unfold restore_trigger_note.
  destruct (json_get_number _ _) eqn:E; [|exact H].
  apply json_get_number_valid in E.
  apply ok_set_trigger_note; [apply to_int_clamp; [exact E|lia]|exact H].
Qed.

Lemma restore_mode_ok val i : params_ok i -> params_ok (restore_mode val i).
Proof.
  intros H. unfold restore_mode.
  destruct (json_get_string _ _ _);
    [apply ok_set_mode; [apply parse_mode_range|exact H]|].
  destruct (json_get_number _ _) eqn:E; [|exact H].
  apply json_get_number_valid in E.
  apply ok_set_mode; [apply to_int_clamp01, E|exact H].
Qed.

Lemma restore_curve_ok val i : params_ok i -> params_ok (restore_curve val i).
Proof.
  intros H. unfold restore_curve.
  destruct (json_get_string _ _ _);
    [apply ok_set_curve; [apply parse_curve_range|exact H]|].
  destruct (json_get_number _ _) eqn:E; [|exact H].
  apply json_get_number_valid in E.
  apply ok_set_curve; [apply to_int_clamp3, E|exact H].
Qed.

Lemma restore_float_ok key set val i :
  (forall j v, unit_or_nan v -> params_ok j -> params_ok (set j v)) ->
  params_ok i -> params_ok (restore_float key set val i).
Proof.
  intros Hset H. unfold restore_float.
  destruct (json_get_number _ _) eqn:E; [|exact H].
  apply json_get_number_valid in E.
  apply Hset; [apply clamp01_unit_or_nan, E|exact H].
Qed.

Lemma restore_state_ok i val : params_ok i -> params_ok (restore_state i val).
Proof.
  intros H. rewrite restore_state_steps.
  apply restore_float_ok; [apply ok_set_vel_sens|].
  apply restore_curve_ok.
  apply restore_float_ok; [apply ok_set_release|].
  apply restore_float_ok; [apply ok_set_hold|].
  apply restore_float_ok; [apply ok_set_attack|].
  apply restore_float_ok; [apply ok_set_depth|].
  apply restore_mode_ok, restore_trigger_note_ok, restore_channel_ok, H.
Qed.

Lemma set_param_ok i key val : params_ok i -> params_ok (v2_set_param i key val).
Proof.
  intros H. unfold v2_set_param.
  repeat match goal with
         | |- context [if String.eqb ?a ?b then _ else _] =>
             destruct (String.eqb a b)
         end; try exact H.
  - apply ok_set_trigger_note; [|exact H]. cbv zeta.
    generalize (Libc.atoi val). intros z.
    destruct (Z.ltb_spec z 0); rewrite Z.gtb_ltb;
      match goal with |- context [?a <? ?b] => destruct (Z.ltb_spec a b) end;
      lia.
  - apply ok_set_mode; [apply parse_mode_range|exact H].
  - apply ok_set_depth; [apply clamp01_unit_or_nan, to_f32_valid|exact H].
  - apply ok_set_attack; [apply clamp01_unit_or_nan, to_f32_valid|exact H].
  - apply ok_set_hold; [apply clamp01_unit_or_nan, to_f32_valid|exact H].
  - apply ok_set_release; [apply clamp01_unit_or_nan, to_f32_valid|exact H].
  - apply ok_set_curve; [apply parse_curve_range|exact H].
  - apply ok_set_vel_sens; [apply clamp01_unit_or_nan, to_f32_valid|exact H].
  - apply restore_state_ok, H.
Qed.

(** ** States reached through the interface *)

(** Everything a host can do with an instance: create it, write
    parameters, send messages, process blocks. *)
Inductive api_reachable : ducker_instance -> Prop :=
| api_create : api_reachable v2_create_instance
| api_set_param s key val :
    api_reachable s -> api_reachable (v2_set_param s key val)
| api_midi s msg len source :
    api_reachable s -> api_reachable (move_audio_fx_on_midi s msg len source)
| api_block s audio frames :
    api_reachable s -> api_reachable (fst (v2_process_block s audio frames)).

Lemma block_config s audio frames :
  same_config (fst (v2_process_block s audio frames)) s.
Proof.
  unfold v2_process_block. rewrite process_frames_inst. apply iter_config.
Qed.

Lemma create_params_ok : params_ok v2_create_instance.
Proof.
  unfold params_ok, unit_or_nan, in_unit. cbn.
  unfold MODE_TRIGGER, CURVE_LINEAR.
  repeat split; try lia; auto; right; repeat split.
Qed.

Lemma api_params_ok s : api_reachable s -> params_ok s.
Proof.
  induction 1 as [|s key val _ IH|s msg len source _ IH|s audio frames _ IH].
  - apply create_params_ok.
  - apply set_param_ok, IH.
  - eapply params_ok_same_config; [apply ducker_on_midi_config|exact IH].
  - eapply params_ok_same_config; [apply block_config|exact IH].
Qed.

(** A state text whose numbers for the three clamped integer
    parameters are not NaN.  The restore stores [(int)clampf(x, lo, hi)];
    [clampf] returns a NaN as it is, and C leaves [(int)] of a NaN
    undefined, so for such a number the stored value is whatever the
    conversion of the machine gives (0 on one, [INT_MIN] on another). *)
Definition state_numbers_defined (val : string) : Prop :=
  json_get_number val "trigger_note" <> Some S754_nan /\
  json_get_number val "mode" <> Some S754_nan /\
  json_get_number val "curve" <> Some S754_nan.

(** The states a host reaches when no state text it restores holds
    such a NaN. *)
Inductive api_reachable_defined : ducker_instance -> Prop :=
| defined_create : api_reachable_defined v2_create_instance
| defined_set_param s key val :
    api_reachable_defined s ->
    (key = "state"%string -> state_numbers_defined val) ->
    api_reachable_defined (v2_set_param s key val)
| defined_midi s msg len source :
    api_reachable_defined s ->
    api_reachable_defined (move_audio_fx_on_midi s msg len source)
| defined_block s audio frames :
    api_reachable_defined s ->
    api_reachable_defined (fst (v2_process_block s audio frames)).

Lemma defined_api_reachable s : api_reachable_defined s -> api_reachable s.
Proof. induction 1; constructor; assumption. Qed.

(** X1. Whatever texts are written to whatever keys, and whatever
    messages and blocks come in between, the trigger note stays in
    0..127, the mode is Trigger or Gate and the curve is one of the four
    curves, as long as no restored state text gives a NaN as the number
    of one of the three (the one place where the stored value is the
    result of a conversion that C leaves undefined).  Everywhere else
    the value is clamped after the conversion or the converted number
    is in range.  The channel has no such bound: the numeric fallback
    of [parse_channel] is not clamped. *)
Theorem api_integer_parameters_in_range s :
  api_reachable_defined s ->
  0 <= trigger_note s <= 127 /\
  (mode s = MODE_TRIGGER \/ mode s = MODE_GATE) /\
  0 <= curve s <= 3.
Proof.
  intros H. apply defined_api_reachable in H.
  destruct (api_params_ok s H) as (Hn & Hm & Hc & _). auto.
Qed.

Lemma api_integer_parameters_in_range_witness :
  let s := v2_set_param
             (v2_set_param (v2_set_param v2_create_instance "curve" "7")
                "trigger_note" "-40")
             "state"
             ("{" ++ dq ++ "mode" ++ dq ++ ":9," ++ dq ++ "curve" ++ dq ++ ":"
              ++ dq ++ "x" ++ dq ++ "}")%string in
  0 <= trigger_note s <= 127 /\
  (mode s = MODE_TRIGGER \/ mode s = MODE_GATE) /\
  0 <= curve s <= 3.
Proof.
  apply api_integer_parameters_in_range.
  apply defined_set_param;
    [apply defined_set_param;
       [apply defined_set_param; [apply defined_create|discriminate]
       |discriminate]
    |].
  intros _. vm_compute. repeat split; discriminate.
Defined.

(** X2. In every state reached through the interface each of depth,
    attack, hold, release and velocity sensitivity is a valid binary32
    value in [0, 1], or a NaN: the clamp of the parameter store returns
    a NaN unchanged and bounds everything else, infinities included. *)
Theorem api_float_parameters_unit_or_nan s :
  api_reachable s ->
  unit_or_nan (depth s) /\ unit_or_nan (attack s) /\ unit_or_nan (hold s) /\
  unit_or_nan (release s) /\ unit_or_nan (vel_sens s).
Proof.
  intros H. destruct (api_params_ok s H) as (_ & _ & _ & Hf). exact Hf.
Qed.

Lemma api_float_parameters_unit_or_nan_witness :
  let s := v2_set_param
             (v2_set_param (v2_set_param v2_create_instance "depth" "inf")
                "attack" "nan")
             "hold" "-3" in
  (depth s = F32.one /\ attack s = S754_nan /\ hold s = F32.zero) /\
  unit_or_nan (depth s) /\ unit_or_nan (attack s) /\ unit_or_nan (hold s) /\
  unit_or_nan (release s) /\ unit_or_nan (vel_sens s).
Proof.
  split; [vm_compute; auto|].
  apply api_float_parameters_unit_or_nan.
  repeat apply api_set_param. apply api_create.
Defined.

(** ** The envelope between cycles *)

Definition idle_gain_ok (i : ducker_instance) : Prop :=
  (phase i = PHASE_IDLE \/ phase i = PHASE_ATTACK \/
   phase i = PHASE_HOLD \/ phase i = PHASE_RELEASE) /\
  (phase i = PHASE_IDLE -> envelope i = F32.one).

(** The fields of the envelope state. *)
Definition same_envelope (a b : ducker_instance) : Prop :=
  phase a = phase b /\ phase_pos a = phase_pos b /\
  phase_len a = phase_len b /\ vel_depth a = vel_depth b /\
  envelope a = envelope b /\ active_notes a = active_notes b.

Lemma same_envelope_trans a b c :
  same_envelope a b -> same_envelope b c -> same_envelope a c.
Proof.
  unfold same_envelope.
  intros (-> & -> & -> & -> & -> & ->) (-> & -> & -> & -> & -> & ->).
  repeat split.
Qed.

Lemma restore_channel_envelope val i : same_envelope (restore_channel val i) i.
Proof.
  unfold restore_channel.
  destruct (json_get_string _ _ _); [|destruct (json_get_number _ _)];
    repeat split.
Qed.

Lemma restore_trigger_note_envelope val i :
  same_envelope (restore_trigger_note val i) i.
Proof.
  unfold restore_trigger_note. destruct (json_get_number _ _); repeat split.
Qed.

Lemma restore_mode_envelope val i : same_envelope (restore_mode val i) i.
Proof.
  unfold restore_mode.
  destruct (json_get_string _ _ _); [|destruct (json_get_number _ _)];
    repeat split.
Qed.

Lemma restore_curve_envelope val i : same_envelope (restore_curve val i) i.
Proof.
  unfold restore_curve.
  destruct (json_get_string _ _ _); [|destruct (json_get_number _ _)];
    repeat split.
Qed.

Lemma restore_float_envelope key set val i :
  (forall j v, same_envelope (set j v) j) ->
  same_envelope (restore_float key set val i) i.
Proof.
  intros H. unfold restore_float.
  destruct (json_get_number _ _); [apply H|repeat split].
Qed.

(** A parameter write leaves the envelope state alone. *)
Lemma restore_state_envelope i val : same_envelope (restore_state i val) i.
Proof.
  rewrite restore_state_steps.
  repeat (eapply same_envelope_trans;
          [first [apply restore_float_envelope; intros; repeat split
                 |apply restore_curve_envelope
                 |apply restore_mode_envelope
                 |apply restore_trigger_note_envelope]|]).
  apply restore_channel_envelope.
Qed.

Lemma set_param_envelope i key val : same_envelope (v2_set_param i key val) i.
Proof.
  unfold v2_set_param.
  repeat match goal with
         | |- context [if String.eqb ?a ?b then _ else _] =>
             destruct (String.eqb a b)
         end; try (repeat split; fail).
  apply restore_state_envelope.
Qed.

Lemma note_on_phase i v :
  phase (note_on i v) = PHASE_ATTACK \/ phase (note_on i v) = PHASE_HOLD \/
  phase (note_on i v) = PHASE_RELEASE.
Proof.
  unfold note_on. cbv zeta. rewrite start_attack_eq. unfold enter_hold.
  repeat match goal with |- context [if ?c then _ else _] => destruct c end;
    cbn; auto.
Qed.

Lemma note_off_idle_gain i : idle_gain_ok i -> idle_gain_ok (note_off i).
Proof.
  intros (Hp & Hi).
  destruct (note_off_fields i) as (_ & _ & Hsame & Hrel).
  cbv zeta in Hsame, Hrel.
  destruct (_ && _ && _).
  - destruct (Hrel eq_refl) as (_ & _ & H0 & H1).
    destruct (Z_le_gt_dec (release_samples i) 0) as [Hle|Hgt].
    + destruct (H0 Hle) as (Hph & He). split; [auto|intros _; exact He].
    + destruct (H1 ltac:(lia)) as (Hph & _). unfold idle_gain_ok.
      rewrite Hph. split; [auto|discriminate].
  - destruct (Hsame eq_refl) as (Hph & _ & _ & He).
    unfold idle_gain_ok. rewrite Hph, He. split; assumption.
Qed.

Lemma advance_idle_gain i : idle_gain_ok i -> idle_gain_ok (advance_one_sample i).
Proof.
  intros (Hp & Hi). destruct Hp as [Hp|[Hp|[Hp|Hp]]].
  - rewrite advance_idle by (rewrite Hp; discriminate). split; auto.
  - rewrite (advance_attack _ Hp). unfold enter_hold.
    repeat match goal with |- context [if ?c then _ else _] => destruct c end;
      cbn; (split; [auto|discriminate]).
  - rewrite (advance_hold _ Hp).
    repeat match goal with |- context [if ?c then _ else _] => destruct c end;
      cbn; (split; [auto|discriminate]).
  - rewrite (advance_release _ Hp).
    repeat match goal with |- context [if ?c then _ else _] => destruct c end;
      cbn; (split; [auto|intros; (reflexivity || discriminate)]).
Qed.

Lemma api_idle_gain_ok s : api_reachable s -> idle_gain_ok s.
Proof.
  induction 1 as [|s key val _ IH|s msg len source _ IH|s audio frames _ IH].
  - split; [left; reflexivity|reflexivity].
  - destruct (set_param_envelope s key val) as (Hp & _ & _ & _ & He & _).
    unfold idle_gain_ok. rewrite Hp, He. exact IH.
  - unfold move_audio_fx_on_midi.
    destruct (on_midi_cases s msg len source) as [->|[(-> & _)| ->]].
    + exact IH.
    + pose proof (note_on_phase s (msg_velocity msg)) as Hp.
      split; [tauto|]. intros Hi. rewrite Hi in Hp.
      destruct Hp as [Hp|[Hp|Hp]]; discriminate.
    + apply note_off_idle_gain, IH.
  - unfold v2_process_block. rewrite process_frames_inst.
    induction (Z.to_nat frames) as [|n IHn]; [exact IH|].
    change (idle_gain_ok
              (advance_one_sample (Nat.iter n advance_one_sample s))).
    apply advance_idle_gain, IHn.
Qed.

(** X3. In every state reached through the interface the phase is one
    of the four phases, and whenever it is Idle the gain is exactly 1.0:
    outside a cycle the effect is out of the signal path, whatever
    parameters were written and whatever messages arrived. *)
Theorem api_idle_gain_is_one s :
  api_reachable s ->
  (phase s = PHASE_IDLE \/ phase s = PHASE_ATTACK \/
   phase s = PHASE_HOLD \/ phase s = PHASE_RELEASE) /\
  (phase s = PHASE_IDLE -> envelope s = F32.one).
Proof. apply api_idle_gain_ok. Qed.

(** Depth NaN and all three durations 0: the note-on enters a Release
    without length, the sample after it finds Idle and the gain 1.0. *)
Lemma api_idle_gain_is_one_witness :
  let cfg := v2_set_param
               (v2_set_param
                  (v2_set_param
                     (v2_set_param v2_create_instance "depth" "nan")
                     "attack" "0") "hold" "0") "release" "0" in
  let s := fst (v2_process_block
                  (move_audio_fx_on_midi cfg [x90; x24; x7f] 3 0) [] 1) in
  phase s = PHASE_IDLE /\ envelope s = F32.one.
Proof.
  cbv zeta.
  split; [vm_compute; reflexivity|].
  apply api_idle_gain_is_one.
  - apply api_block, api_midi. repeat apply api_set_param. apply api_create.
  - vm_compute. reflexivity.
Defined.

(** X4. Writing a parameter, any key with any text, the state text
    included, never touches the envelope: phase, position, latched phase
    length, locked depth, gain and held-note count stay as they are, so a
    duration written during a phase takes effect with the next phase. *)
Theorem set_param_keeps_envelope_state inst key val :
  let r := v2_set_param inst key val in
  phase r = phase inst /\ phase_pos r = phase_pos inst /\
  phase_len r = phase_len inst /\ vel_depth r = vel_depth inst /\
  envelope r = envelope inst /\ active_notes r = active_notes inst.
Proof. apply set_param_envelope. Qed.

(** X5. Messages and processed blocks never change a parameter:
    channel, trigger note, mode, depth, attack, hold, release, curve and
    velocity sensitivity are written by [v2_set_param] only; and a block
    never changes the held-note count or the locked depth. *)
Theorem events_keep_parameters inst msg len source audio frames :
  same_config (move_audio_fx_on_midi inst msg len source) inst /\
  same_config (fst (v2_process_block inst audio frames)) inst /\
  active_notes (fst (v2_process_block inst audio frames)) = active_notes inst /\
  vel_depth (fst (v2_process_block inst audio frames)) = vel_depth inst.
Proof.
  split; [apply ducker_on_midi_config|]. split; [apply block_config|].
  unfold v2_process_block. rewrite process_frames_inst.
  split; [apply iter_active_notes|apply iter_vel_depth].
Qed.

(** ** Reading a parameter and writing it back *)

Lemma snprintf_fits buf n s :
  Z.of_nat (String.length s) < n -> snd (Libc.snprintf buf n s) = s.
Proof.
  intros H. unfold Libc.snprintf.
  destruct (Z.eqb_spec n 0); [lia|].
  destruct (Z.leb_spec n (Z.of_nat (String.length s))); [lia|].
  now rewrite andb_false_r.
Qed.

Lemma channel_names_parse :
  forallb (fun n => (parse_channel (channel_name (Z.of_nat n)) =? Z.of_nat n)
                    && (Z.of_nat (String.length (channel_name (Z.of_nat n))) <? 8))
          (seq 0 17) = true.
Proof. vm_compute. reflexivity. Qed.

Lemma note_texts_parse :
  forallb (fun n => (Libc.atoi (Libc.fmt_d (Z.of_nat n)) =? Z.of_nat n)
                    && (Z.of_nat (String.length (Libc.fmt_d (Z.of_nat n))) <? 8))
          (seq 0 128) = true.
Proof. vm_compute. reflexivity. Qed.

Lemma curve_names_parse :
  forallb (fun n => (parse_curve (curve_name (Z.of_nat n)) =? Z.of_nat n)
                    && (Z.of_nat (String.length (curve_name (Z.of_nat n))) <? 8))
          (seq 0 4) = true.
Proof. vm_compute. reflexivity. Qed.

Lemma checked_below (f : nat -> bool) (N : nat) (z : Z) :
  forallb f (seq 0 N) = true -> 0 <= z < Z.of_nat N -> f (Z.to_nat z) = true.
Proof.
  intros Hall Hz. rewrite forallb_forall in Hall. apply Hall, in_seq. lia.
Qed.

(** X6. For a channel in 0..16, a trigger note in 0..127, a mode and a
    curve in their ranges: the text [v2_get_param] writes for the key
    into a buffer of 8 bytes or more, written back with [v2_set_param],
    leaves the instance exactly as it was. *)
Theorem integer_parameter_round_trip inst key buf buf_len :
  8 <= buf_len ->
  0 <= channel inst <= 16 -> 0 <= trigger_note inst <= 127 ->
  mode inst = MODE_TRIGGER \/ mode inst = MODE_GATE ->
  0 <= curve inst <= 3 ->
  In key ["channel"; "trigger_note"; "mode"; "curve"]%string ->
  v2_set_param inst key (snd (v2_get_param inst key buf buf_len)) = inst.
Proof.
  intros Hb Hch Hn Hm Hc Hk.
  destruct Hk as [<-|[<-|[<-|[<-|[]]]]];
    unfold v2_get_param, v2_set_param; cbn [String.eqb Ascii.eqb Bool.eqb].
  - pose proof (checked_below _ 17 (channel inst) channel_names_parse
                  ltac:(lia)) as H; cbv beta in H.
    rewrite Z2Nat.id in H by lia. apply andb_prop in H.
    destruct H as (H1 & H2). apply Z.eqb_eq in H1. apply Z.ltb_lt in H2.
    rewrite snprintf_fits by lia. rewrite H1. destruct inst; reflexivity.
  - pose proof (checked_below _ 128 (trigger_note inst) note_texts_parse
                  ltac:(lia)) as H; cbv beta in H.
    rewrite Z2Nat.id in H by lia. apply andb_prop in H.
    destruct H as (H1 & H2). apply Z.eqb_eq in H1. apply Z.ltb_lt in H2.
    rewrite snprintf_fits by lia. rewrite H1. cbv zeta.
    destruct (Z.ltb_spec (trigger_note inst) 0); [lia|].
    rewrite Z.gtb_ltb.
    destruct (Z.ltb_spec 127 (trigger_note inst)); [lia|].
    destruct inst; reflexivity.
  - destruct Hm as [Hm|Hm]; rewrite Hm;
      (rewrite snprintf_fits by (cbn; lia)); cbn;
      rewrite <- Hm; destruct inst; reflexivity.
  - pose proof (checked_below _ 4 (curve inst) curve_names_parse
                  ltac:(lia)) as H; cbv beta in H.
    rewrite Z2Nat.id in H by lia. apply andb_prop in H.
    destruct H as (H1 & H2). apply Z.eqb_eq in H1. apply Z.ltb_lt in H2.
    rewrite snprintf_fits by lia. rewrite H1. destruct inst; reflexivity.
Qed.

Lemma integer_parameter_round_trip_witness :
  let inst := v2_set_param (v2_set_param v2_create_instance "curve" "Pump")
                "channel" "Omni" in
  v2_set_param inst "curve" (snd (v2_get_param inst "curve" "" 8)) = inst.
Proof.
  cbv zeta. apply integer_parameter_round_trip.
  - lia.
  - vm_compute. split; discriminate.
  - vm_compute. split; discriminate.
  - left. reflexivity.
  - vm_compute. split; discriminate.
  - right. right. right. left. reflexivity.
Defined.

(** The two-decimal text of [k / 100]. *)
Definition unit2 (k : Z) : string :=
  (Libc.fmt_d (k / 100) ++ "." ++ Libc.pad_digits 2 (k mod 100))%string.

Lemma div_nearest_even_hundred n d :
  0 < d -> 0 <= n <= 100 * d -> 0 <= Libc.div_nearest_even n d <= 100.
Proof.
  intros Hd Hn. unfold Libc.div_nearest_even.
  pose proof (Z.div_mod n d ltac:(lia)) as Hdm.
  pose proof (Z.mod_pos_bound n d Hd) as Hr.
  assert (Hq : 0 <= n / d <= 100).
  { split; [apply Z.div_pos; lia|].
    apply Z.div_le_upper_bound; lia. }
  assert (Hfull : n / d = 100 -> n mod d = 0) by nia.
  destruct (Z.compare_spec (2 * (n mod d)) d);
    try destruct (Z.even (n / d)); nia.
Qed.

Lemma in_unit_text2 x :
  in_unit x ->
  x = S754_zero true \/
  exists k, 0 <= k <= 100 /\ Libc.fmt_f 2 x = unit2 k.
Proof.
  intros (Hv & H0 & H1).
  destruct x as [s|s| |s m e]; try discriminate.
  - destruct s; [left; reflexivity|].
    right. exists 0. split; [lia|reflexivity].
  - destruct s; discriminate.
  - right. destruct s; [discriminate|].
    apply leb_one_bound in H1. apply valid_digits in Hv.
    destruct e as [|p|p]; try lia.
    exists (Libc.div_nearest_even (Z.pos m * 100) (2 ^ Z.pos p)).
    split; [|reflexivity].
    apply div_nearest_even_hundred; [apply Z.pow_pos_nonneg; lia|].
    assert (Hp : 2 ^ 23 <= 2 ^ Z.pos p) by (apply Z.pow_le_mono_r; lia).
    change (2 ^ 23) with 8388608 in Hp.
    destruct H1 as [He|(He & Hm)].
    + assert (Hp' : 2 ^ 24 <= 2 ^ Z.pos p) by (apply Z.pow_le_mono_r; lia).
      change (2 ^ 24) with 16777216 in Hp'. lia.
    + lia.
Qed.

(** The value a float key stores for a text. *)
Definition stored (t : string) : float := clamp01 (F64.to_f32 (Libc.atof t)).

(** Every two-decimal text of the unit range is 4 characters long and
    stores a value of the unit range that renders to the same text. *)
Lemma unit2_fixed_all :
  forallb (fun n =>
             let t := unit2 (Z.of_nat n) in
             String.eqb (Libc.fmt_f 2 (stored t)) t
             && (Z.of_nat (String.length t) =? 4)
             && unit_check (stored t))
          (seq 0 101) = true.
Proof. vm_compute. reflexivity. Qed.

Lemma display_text_fixed x :
  in_unit x ->
  let t := Libc.fmt_f 2 x in
  Z.of_nat (String.length t) <= 5 /\
  Libc.fmt_f 2 (stored t) = t /\ in_unit (stored t).
Proof.
  intros H. cbv zeta.
  destruct (in_unit_text2 x H) as [->|(k & Hk & ->)].
  { vm_compute. repeat split; discriminate. }
  pose proof (checked_below _ 101 k unit2_fixed_all ltac:(lia)) as Hc.
  cbv beta zeta in Hc. rewrite Z2Nat.id in Hc by lia.
  apply andb_prop in Hc. destruct Hc as (Hc & Hu).
  apply andb_prop in Hc. destruct Hc as (Ht & Hl).
  apply String.eqb_eq in Ht. apply Z.eqb_eq in Hl.
  split; [lia|]. split; [exact Ht|].
  apply unit_value_in, unit_check_sound, Hu.
Qed.

(** X7. For depth, attack, hold, release and velocity sensitivity in
    [0, 1]: the two-decimal text [v2_get_param] writes for the key into
    a buffer of 8 bytes or more, written back with [v2_set_param],
    stores a value of [0, 1] that reads back as the same text, whatever
    buffer is used for the second read.  (The stored value itself moves
    to the value of the text.) *)
Theorem float_parameter_text_round_trip inst key buf buf_len :
  8 <= buf_len ->
  in_unit (depth inst) -> in_unit (attack inst) -> in_unit (hold inst) ->
  in_unit (release inst) -> in_unit (vel_sens inst) ->
  In key ["depth"; "attack"; "hold"; "release"; "vel_sens"]%string ->
  let r := v2_set_param inst key (snd (v2_get_param inst key buf buf_len)) in
  (forall b n, v2_get_param r key b n = v2_get_param inst key b n) /\
  in_unit (depth r) /\ in_unit (attack r) /\ in_unit (hold r) /\
  in_unit (release r) /\ in_unit (vel_sens r).
Proof.
  intros Hb Hd Ha Hh Hr Hv Hk. cbv zeta.
  destruct Hk as [<-|[<-|[<-|[<-|[<-|[]]]]]];
    unfold v2_get_param, v2_set_param; cbn [String.eqb Ascii.eqb Bool.eqb];
    match goal with
    | |- context [Libc.fmt_f 2 ?x] =>
        match goal with
        | Hx : in_unit x |- _ =>
            destruct (display_text_fixed x Hx) as (Hlen & Hfix & Hin)
        end
    end;
    rewrite snprintf_fits by lia; fold (stored (Libc.fmt_f 2 (depth inst)));
    fold (stored (Libc.fmt_f 2 (attack inst)));
    fold (stored (Libc.fmt_f 2 (hold inst)));
    fold (stored (Libc.fmt_f 2 (release inst)));
    fold (stored (Libc.fmt_f 2 (vel_sens inst)));
    cbn [depth attack hold release vel_sens set_depth set_attack set_hold
         set_release set_vel_sens];
    rewrite Hfix; (split; [reflexivity|]);
    repeat first [assumption | split; [assumption|]].
Qed.

Lemma float_parameter_text_round_trip_witness :
  let inst := v2_set_param v2_create_instance "depth" "0.0246" in
  let r := v2_set_param inst "depth" (snd (v2_get_param inst "depth" "" 8)) in
  (v2_get_param inst "depth" "" 8 = (4, "0.02"%string) /\ depth r <> depth inst) /\
  forall b n, v2_get_param r "depth" b n = v2_get_param inst "depth" b n.
Proof.
  cbv zeta. split; [vm_compute; split; [reflexivity|discriminate]|].
  refine (proj1 (float_parameter_text_round_trip
            (v2_set_param v2_create_instance "depth" "0.0246")
            "depth" "" 8 _ _ _ _ _ _ _)).
  - lia.
  - vm_compute. auto.
  - vm_compute. auto.
  - vm_compute. auto.
  - vm_compute. auto.
  - vm_compute. auto.
  - left. reflexivity.
Defined.

(** ** Buffers *)

Lemma length_substring0 n : forall s,
  (n <= String.length s)%nat -> String.length (substring 0 n s) = n.
Proof.
  induction n as [|n IH]; intros s H.
  - destruct s; reflexivity.
  - destruct s as [|c s]; [inversion H|].
    cbn [substring String.length]. f_equal. apply IH. cbn in H. lia.
Qed.

(** What [snprintf] leaves in a buffer of [buf_len > 0] bytes. *)
Lemma snprintf_bound buf buf_len s :
  0 < buf_len ->
  let r := Libc.snprintf buf buf_len s in
  fst r = Z.of_nat (String.length s) /\
  Z.of_nat (String.length (snd r)) < buf_len /\
  (fst r < buf_len -> snd r = s) /\
  (buf_len <= fst r -> Z.of_nat (String.length (snd r)) = buf_len - 1).
Proof.
  intros Hb. cbv zeta. unfold Libc.snprintf.
  destruct (Z.eqb_spec buf_len 0); [lia|].
  destruct (Z.ltb_spec 0 buf_len); [|lia]. cbn [andb].
  destruct (Z.leb_spec buf_len (Z.of_nat (String.length s))); cbn [fst snd].
  - rewrite length_substring0 by lia. repeat split; lia.
  - repeat split; try lia.
Qed.

Lemma copy_const_bound buf buf_len s :
  Z.of_nat (String.length buf) < buf_len ->
  let r := copy_const buf buf_len s in
  Z.of_nat (String.length (snd r)) < buf_len /\
  (fst r = -1 /\ snd r = buf /\ buf_len <= Z.of_nat (String.length s) \/
   fst r = Z.of_nat (String.length s) /\ snd r = s).
Proof.
  intros Hb. cbv zeta. unfold copy_const.
  destruct (Z.ltb_spec (Z.of_nat (String.length s)) buf_len); cbn [fst snd];
    (split; [lia|]); [right|left]; repeat split; lia.
Qed.

(** X8. [v2_get_param] with a buffer of [buf_len > 0] bytes never
    leaves more than [buf_len - 1] characters in it, for any key.  The
    result is -1 (unknown key, or a description that does not fit) with
    the buffer untouched, or the full length of the text: below
    [buf_len] the buffer holds exactly that many characters, from
    [buf_len] on the text was cut to [buf_len - 1]. *)
Theorem get_param_fits_buffer inst key buf buf_len :
  0 < buf_len -> Z.of_nat (String.length buf) < buf_len ->
  let r := v2_get_param inst key buf buf_len in
  Z.of_nat (String.length (snd r)) < buf_len /\
  -1 <= fst r /\
  (fst r = -1 -> snd r = buf) /\
  (0 <= fst r < buf_len -> Z.of_nat (String.length (snd r)) = fst r) /\
  (buf_len <= fst r -> Z.of_nat (String.length (snd r)) = buf_len - 1).
Proof.
  intros Hb Hl. cbv zeta. unfold v2_get_param.
  repeat match goal with
         | |- context [if String.eqb ?a ?b then _ else _] =>
             destruct (String.eqb a b)
         end;
    try match goal with
        | |- context [Libc.snprintf ?b ?n ?s] =>
            destruct (snprintf_bound b n s Hb) as (H1 & H2 & H3 & H4);
            rewrite H1 in *;
            repeat split; try lia;
            intros H; rewrite H3 by lia; reflexivity
        | |- context [copy_const ?b ?n ?s] =>
            destruct (copy_const_bound b n s Hl)
              as (H1 & [(H2 & H3 & H4)|(H2 & H3)]);
            rewrite ?H2, ?H3 in *; repeat split; try lia; auto
        end.
  cbn [fst snd]. repeat split; try lia.
Qed.

Lemma get_param_fits_buffer_witness :
  let r := v2_get_param v2_create_instance "state" "" 16 in
  (fst r = 125 /\ snd r = ("{" ++ dq ++ "channel" ++ dq ++ ":1," ++ dq ++ "t")%string) /\
  Z.of_nat (String.length (snd r)) < 16 /\
  -1 <= fst r /\
  (fst r = -1 -> snd r = ""%string) /\
  (0 <= fst r < 16 -> Z.of_nat (String.length (snd r)) = fst r) /\
  (16 <= fst r -> Z.of_nat (String.length (snd r)) = 16 - 1).
Proof.
  cbv zeta. split; [vm_compute; split; reflexivity|].
  apply (get_param_fits_buffer v2_create_instance "state" "" 16).
  - lia.
  - cbn. lia.
Defined.

(** ** Looking up keys in a state text *)

Lemma strstr_no_quote hay key :
  no_quote hay = true -> Libc.strstr hay (String "034" key) = None.
Proof.
  induction hay as [|c hay IH]; intros H; [reflexivity|].
  cbn [no_quote] in H. apply andb_prop in H. destruct H as (Hc & Hn).
  rewrite strstr_step; [auto|].
  cbn [prefix]. destruct (ascii_dec "034" c) as [<-|]; [discriminate|reflexivity].
Qed.

Lemma copy_until_quote_bound room : forall p,
  (String.length (copy_until_quote p room) <= room)%nat /\
  no_quote (copy_until_quote p room) = true.
Proof.
  induction room as [|room IH]; intros p.
  - destruct p; split; cbn; auto.
  - destruct p as [|c p]; [split; cbn; auto; lia|].
    cbn [copy_until_quote].
    destruct (Ascii.eqb c "034") eqn:E; [split; cbn; auto; lia|].
    destruct (IH p) as (H1 & H2). cbn [String.length no_quote].
    rewrite E, H2. split; [lia|reflexivity].
Qed.

(** X9. When [json_get_string] finds its key, the text it copies out is
    at most [out_len - 1] characters long (31 for the 32-byte buffer of
    the caller) and holds no double quote: a value without closing quote
    or longer than the buffer is cut, never copied past the end. *)
Theorem json_get_string_bounded json key out_len s :
  json_get_string json key out_len = Some s ->
  Z.of_nat (String.length s) <= Z.max 0 (out_len - 1) /\ no_quote s = true.
Proof.
  unfold json_get_string. cbv zeta.
  destruct (Libc.strstr _ _); [|discriminate].
  intros H. injection H as <-.
  match goal with
  | |- context [copy_until_quote ?p ?n] =>
      destruct (copy_until_quote_bound n p) as (H1 & H2)
  end.
  split; [lia|exact H2].
Qed.

Lemma json_get_string_bounded_witness :
  let json := ("{" ++ dq ++ "mode" ++ dq ++ ":" ++ dq
               ++ "Gate-and-a-tail-that-runs-past-the-thirty-one-characters")%string in
  json_get_string json "mode" 32 = Some "Gate-and-a-tail-that-runs-past-"%string /\
  Z.of_nat (String.length "Gate-and-a-tail-that-runs-past-") <= Z.max 0 (32 - 1) /\
  no_quote "Gate-and-a-tail-that-runs-past-" = true.
Proof.
  cbv zeta.
  assert (H : json_get_string
                ("{" ++ dq ++ "mode" ++ dq ++ ":" ++ dq
                 ++ "Gate-and-a-tail-that-runs-past-the-thirty-one-characters")
                "mode" 32 = Some "Gate-and-a-tail-that-runs-past-"%string)
    by (vm_compute; reflexivity).
  split; [exact H|].
  exact (json_get_string_bounded _ _ _ _ H).
Defined.

(** The nine parameters and their keys. *)
Inductive param : Type :=
| PChannel | PTriggerNote | PMode | PDepth | PAttack | PHold | PRelease
| PCurve | PVelSens.

Definition param_key (p : param) : string :=
  match p with
  | PChannel => "channel" | PTriggerNote => "trigger_note" | PMode => "mode"
  | PDepth => "depth" | PAttack => "attack" | PHold => "hold"
  | PRelease => "release" | PCurve => "curve" | PVelSens => "vel_sens"
  end.

Definition param_value (p : param) (i : ducker_instance) : Z + float :=
  match p with
  | PChannel => inl (channel i) | PTriggerNote => inl (trigger_note i)
  | PMode => inl (mode i) | PDepth => inr (depth i)
  | PAttack => inr (attack i) | PHold => inr (hold i)
  | PRelease => inr (release i) | PCurve => inl (curve i)
  | PVelSens => inr (vel_sens i)
  end.

(** The key, in quotes and followed by a colon, occurs nowhere in the
    text. *)
Definition key_absent (p : param) (val : string) : Prop :=
  Libc.strstr val (dq ++ param_key p ++ dq ++ ":")%string = None.

Lemma prefix_app n m : forall h,
  prefix (n ++ m) h = true -> prefix n h = true.
Proof.
  induction n as [|c n IH]; intros h H; [apply prefix_nil|].
  destruct h as [|d h]; [discriminate|].
  cbn [append prefix] in *. destruct (ascii_dec c d); [auto|discriminate].
Qed.

Lemma strstr_longer n m : forall hay,
  Libc.strstr hay n = None -> Libc.strstr hay (n ++ m) = None.
Proof.
  induction hay as [|c hay IH]; intros H.
  - cbn [Libc.strstr] in *.
    destruct (prefix n "") eqn:E; [discriminate|].
    destruct (prefix (n ++ m) "") eqn:E'; [|reflexivity].
    apply prefix_app in E'. congruence.
  - cbn [Libc.strstr] in *.
    destruct (prefix n (String c hay)) eqn:E; [discriminate|].
    destruct (prefix (n ++ m) (String c hay)) eqn:E'; [|auto].
    apply prefix_app in E'. congruence.
Qed.

Lemma absent_number p val :
  key_absent p val -> json_get_number val (param_key p) = None.
Proof.
  unfold key_absent, json_get_number. cbv zeta. intros H.
  replace (snd (Libc.snprintf "" 64 (dq ++ param_key p ++ dq ++ ":")))
    with (dq ++ param_key p ++ dq ++ ":")%string
    by (destruct p; reflexivity).
  now rewrite H.
Qed.

Lemma absent_string p val n :
  key_absent p val -> json_get_string val (param_key p) n = None.
Proof.
  unfold key_absent, json_get_string. cbv zeta. intros H.
  replace (snd (Libc.snprintf "" 64 (dq ++ param_key p ++ dq ++ ":" ++ dq)))
    with ((dq ++ param_key p ++ dq ++ ":") ++ dq)%string
    by (destruct p; reflexivity).
  now rewrite (strstr_longer _ dq val H).
Qed.

(** Each step of the restore writes its own parameter only, and nothing
    when its key is absent. *)
Lemma restore_channel_param val i p :
  p <> PChannel \/ key_absent PChannel val ->
  param_value p (restore_channel val i) = param_value p i.
Proof.
  unfold restore_channel. intros [Hp|Ha].
  - destruct (json_get_string _ _ _); [|destruct (json_get_number _ _)];
      destruct p; try reflexivity; contradiction.
  - change "channel"%string with (param_key PChannel).
    now rewrite absent_string, absent_number.
Qed.

Lemma restore_trigger_note_param val i p :
  p <> PTriggerNote \/ key_absent PTriggerNote val ->
  param_value p (restore_trigger_note val i) = param_value p i.
Proof.
  unfold restore_trigger_note. intros [Hp|Ha].
  - destruct (json_get_number _ _);
      destruct p; try reflexivity; contradiction.
  - change "trigger_note"%string with (param_key PTriggerNote).
    now rewrite absent_number.
Qed.

Lemma restore_mode_param val i p :
  p <> PMode \/ key_absent PMode val ->
  param_value p (restore_mode val i) = param_value p i.
Proof.
  unfold restore_mode. intros [Hp|Ha].
  - destruct (json_get_string _ _ _); [|destruct (json_get_number _ _)];
      destruct p; try reflexivity; contradiction.
  - change "mode"%string with (param_key PMode).
    now rewrite absent_string, absent_number.
Qed.

Lemma restore_curve_param val i p :
  p <> PCurve \/ key_absent PCurve val ->
  param_value p (restore_curve val i) = param_value p i.
Proof.
  unfold restore_curve. intros [Hp|Ha].
  - destruct (json_get_string _ _ _); [|destruct (json_get_number _ _)];
      destruct p; try reflexivity; contradiction.
  - change "curve"%string with (param_key PCurve).
    now rewrite absent_string, absent_number.
Qed.

Lemma restore_float_param q set val i p :
  (forall j v, p <> q -> param_value p (set j v) = param_value p j) ->
  p <> q \/ key_absent q val ->
  param_value p (restore_float (param_key q) set val i) = param_value p i.
Proof.
  unfold restore_float. intros Hset [Hp|Ha].
  - destruct (json_get_number _ _); [apply Hset, Hp|reflexivity].
  - now rewrite absent_number.
Qed.

Ltac other_or_absent :=
  match goal with
  | H : key_absent ?p _ |- ?p <> ?q \/ key_absent ?q _ =>
      first [right; exact H | left; discriminate]
  end.

(** X10. Restoring a state text changes a parameter only when its key
    is there: a parameter whose quoted key, followed by a colon, occurs
    nowhere in the text keeps its value, whatever else the text holds. *)
Theorem restore_keeps_parameter_without_key inst val p :
  key_absent p val ->
  param_value p (v2_set_param inst "state" val) = param_value p inst.
Proof.
  intros H. change (v2_set_param inst "state" val) with (restore_state inst val).
  rewrite restore_state_steps.
  destruct p;
  change "vel_sens"%string with (param_key PVelSens); 
  change "release"%string with (param_key PRelease); 
  change "hold"%string with (param_key PHold); 
  change "attack"%string with (param_key PAttack); 
  change "depth"%string with (param_key PDepth); 
  (rewrite restore_float_param;
    [|intros j v Hne; first [reflexivity|exfalso; apply Hne; reflexivity]
     |other_or_absent]);
  rewrite restore_curve_param by other_or_absent; 
  do 4 (rewrite restore_float_param;
    [|intros j v Hne; first [reflexivity|exfalso; apply Hne; reflexivity]
     |other_or_absent]); 
  rewrite restore_mode_param by other_or_absent; 
  rewrite restore_trigger_note_param by other_or_absent; 
  rewrite restore_channel_param by other_or_absent;
  reflexivity.
Qed.

(** A state text that holds a depth only. *)
Lemma restore_keeps_parameter_without_key_witness :
  let val := ("{" ++ dq ++ "depth" ++ dq ++ ":0.5}")%string in
  let inst := v2_set_param v2_create_instance "attack" "0.75" in
  depth (v2_set_param inst "state" val) = f_0_5 /\
  param_value PAttack (v2_set_param inst "state" val) = param_value PAttack inst.
Proof.
  cbv zeta. split; [vm_compute; reflexivity|].
  apply restore_keeps_parameter_without_key. vm_compute. reflexivity.
Defined.

(** ** What a block writes *)

Lemma process_frames_length n : forall i s audio,
  List.length (snd (process_frames n i s audio)) = List.length audio.
Proof.
  induction n as [|n IH]; intros i s audio; [reflexivity|].
  cbn [process_frames]. cbv zeta. rewrite IH, !store_length. reflexivity.
Qed.

Lemma process_frames_after n : forall i s audio k,
  ((i + n) * 2 <= k)%nat ->
  nth k (snd (process_frames n i s audio)) 0 = nth k audio 0.
Proof.
  induction n as [|n IH]; intros i s audio k Hk; [reflexivity|].
  cbn [process_frames]. cbv zeta. rewrite IH by lia.
  rewrite !store_nth_neq by lia. reflexivity.
Qed.

(** The sample at index [k] after a block of [frames] frames. *)
Lemma block_sample s audio frames k :
  nth k (snd (v2_process_block s audio frames)) 0 =
  if (k <? Z.to_nat frames * 2)%nat && (k <? List.length audio)%nat
  then apply_gain (envelope (Nat.iter (S (k / 2)) advance_one_sample s))
         (nth k audio 0)
  else nth k audio 0.
Proof.
  destruct (Nat.ltb_spec k (Z.to_nat frames * 2)) as [Hk|Hk]; cbn [andb].
  - destruct (Nat.ltb_spec k (List.length audio)) as [Hl|Hl].
    + apply block_nth; assumption.
    + rewrite !nth_overflow; [reflexivity|exact Hl|].
      unfold v2_process_block. rewrite process_frames_length. exact Hl.
  - unfold v2_process_block. apply process_frames_after. cbn. exact Hk.
Qed.

(** X11. A block of [frames] frames advances the envelope by [frames]
    samples, keeps the length of the buffer, scales sample [k] below
    [2 * frames] by the gain of its own frame, the envelope after
    [k / 2 + 1] ticks, and leaves every sample from [2 * frames] on as it
    was; a count of 0 or less changes nothing. *)
Theorem block_writes_own_frames s audio frames :
  let r := v2_process_block s audio frames in
  fst r = Nat.iter (Z.to_nat frames) advance_one_sample s /\
  List.length (snd r) = List.length audio /\
  (forall k,
     nth k (snd r) 0 =
     if (k <? Z.to_nat frames * 2)%nat && (k <? List.length audio)%nat
     then apply_gain (envelope (Nat.iter (S (k / 2)) advance_one_sample s))
            (nth k audio 0)
     else nth k audio 0) /\
  (frames <= 0 -> r = (s, audio)).
Proof.
  cbv zeta. split; [apply process_frames_inst|].
  split; [apply process_frames_length|].
  split; [intros k; apply block_sample|].
  intros H. unfold v2_process_block.
  replace (Z.to_nat frames) with 0%nat by lia. reflexivity.
Qed.

(** X12. Cutting a stream into blocks at another place changes
    nothing: a block of [n + m] frames over two buffers in a row gives
    the state and the samples that a block of [n] frames over the first
    and then a block of [m] frames over the second give.  The envelope
    after a block does not depend on the samples at all. *)
Theorem block_split s a1 a2 n m :
  0 <= n -> 0 <= m -> Z.of_nat (List.length a1) = 2 * n ->
  let r1 := v2_process_block s a1 n in
  let r2 := v2_process_block (fst r1) a2 m in
  v2_process_block s (a1 ++ a2) (n + m) = (fst r2, snd r1 ++ snd r2) /\
  forall b1 b2, fst (v2_process_block s b1 n) = fst (v2_process_block s b2 n).
Proof.
  intros Hn Hm Hlen. cbv zeta. split.
  2: { intros b1 b2. unfold v2_process_block.
       now rewrite !process_frames_inst. }
  apply injective_projections; cbn [fst snd].
  - unfold v2_process_block. rewrite !process_frames_inst.
    rewrite Z2Nat.inj_add by lia. rewrite Nat.add_comm.
    apply Nat.iter_add.
  - assert (Hl1 : List.length (snd (v2_process_block s a1 n)) = List.length a1)
      by apply process_frames_length.
    apply (nth_ext _ _ 0 0).
    + unfold v2_process_block at 1. rewrite process_frames_length.
      rewrite !length_app, Hl1. f_equal.
      symmetry. apply process_frames_length.
    + intros k Hk. rewrite block_sample.
      destruct (Nat.lt_ge_cases k (List.length a1)) as [Hin|Hout].
      * rewrite (app_nth1 (snd (v2_process_block s a1 n))) by lia.
        rewrite block_sample.
        rewrite (app_nth1 a1 a2) by exact Hin.
        rewrite length_app.
        replace (k <? Z.to_nat (n + m) * 2)%nat with true
          by (symmetry; apply Nat.ltb_lt; lia).
        replace (k <? Z.to_nat n * 2)%nat with true
          by (symmetry; apply Nat.ltb_lt; lia).
        replace (k <? List.length a1 + List.length a2)%nat with true
          by (symmetry; apply Nat.ltb_lt; lia).
        replace (k <? List.length a1)%nat with true
          by (symmetry; apply Nat.ltb_lt; lia).
        reflexivity.
      * rewrite (app_nth2 (snd (v2_process_block s a1 n))) by lia.
        rewrite Hl1, block_sample.
        rewrite (app_nth2 a1 a2) by exact Hout.
        rewrite length_app.
        set (j := (k - List.length a1)%nat).
        assert (Hj : k = (Z.to_nat n * 2 + j)%nat) by lia.
        replace (k <? Z.to_nat (n + m) * 2)%nat with (j <? Z.to_nat m * 2)%nat
          by (destruct (Nat.ltb_spec j (Z.to_nat m * 2));
              symmetry; [apply Nat.ltb_lt|apply Nat.ltb_ge]; lia).
        replace (k <? List.length a1 + List.length a2)%nat
          with (j <? List.length a2)%nat
          by (destruct (Nat.ltb_spec j (List.length a2));
              symmetry; [apply Nat.ltb_lt|apply Nat.ltb_ge]; lia).
        destruct ((j <? Z.to_nat m * 2)%nat && (j <? List.length a2)%nat);
          [|reflexivity].
        f_equal. f_equal.
        unfold v2_process_block. rewrite process_frames_inst.
        assert (Hd : (k / 2 = Z.to_nat n + j / 2)%nat).
        { rewrite Hj, Nat.add_comm, Nat.div_add by lia. lia. }
        rewrite Hd, <- Nat.iter_add. f_equal. lia.
Qed.

Lemma block_split_witness :
  let s := move_audio_fx_on_midi v2_create_instance [x90; x24; x7f] 3 0 in
  let a1 := [1000; -1000; 2000; -2000] in
  let a2 := [3000; -3000] in
  let r1 := v2_process_block s a1 2 in
  let r2 := v2_process_block (fst r1) a2 1 in
  v2_process_block s (a1 ++ a2) (2 + 1) = (fst r2, snd r1 ++ snd r2).
Proof.
  cbv zeta.
  refine (proj1 (block_split
            (move_audio_fx_on_midi v2_create_instance [x90; x24; x7f] 3 0)
            [1000; -1000; 2000; -2000] [3000; -3000] 2 1 _ _ _)).
  - lia.
  - lia.
  - reflexivity.
Defined.

(** ** Outside a cycle the signal passes unchanged *)

Lemma to_int16_of_Z x :
  -32768 <= x <= 32767 ->
  F32.valid (F32.of_Z x) = true /\ F32.to_int16 (F32.of_Z x) = x.
Proof.
  intros Hx.
  assert (Hp : 0 < 2 ^ 149) by reflexivity.
  assert (Hpos : forall y, 0 <= y <= 32768 ->
            nonneg (F32.of_Z y) /\ F32.trunc (F32.of_Z y) = y).
  { intros y Hy. destruct (of_Z_sample y Hy) as ((Hn & _) & Hs).
    split; [exact Hn|]. rewrite (trunc_scaled _ Hn), Hs.
    apply Z.div_mul. lia. }
  destruct (Z_le_gt_dec 0 x) as [H0|H0].
  - destruct (Hpos x ltac:(lia)) as ((Hv & Hz) & Ht). split; [exact Hv|].
    destruct (F32.of_Z x) as [s|s| |s m e]; cbn [zero_or_positive] in Hz;
      try contradiction; unfold F32.to_int16; lia.
  - destruct (of_Z_opp (- x)) as [Ho|Hzero]; [|lia].
    rewrite Z.opp_involutive in Ho. rewrite Ho.
    destruct (Hpos (- x) ltac:(lia)) as ((Hv & Hz) & Ht).
    destruct (F32.of_Z (- x)) as [s|s| |s m e]; cbn [zero_or_positive] in Hz;
      try contradiction.
    + cbn in Ht. lia.
    + subst s. split; [exact Hv|]. cbn [SFopp negb]. unfold F32.to_int16.
      change (F32.trunc (S754_finite true m e))
        with (- F32.trunc (S754_finite false m e)).
      lia.
Qed.

(** The gain 1.0 returns every sample of [int16_t] as it came. *)
Lemma apply_gain_one x : -32768 <= x <= 32767 -> apply_gain F32.one x = x.
Proof.
  intros Hx. unfold apply_gain.
  rewrite (proj1 (apply_gain_unit F32.one x unit_one Hx)).
  unfold scaled_sample.
  destruct (to_int16_of_Z x Hx) as (Hv & Ht).
  rewrite (mul_one_r _ Hv). exact Ht.
Qed.

(** In Idle with the gain at 1.0 a block changes nothing. *)
Lemma idle_unit_block s audio frames :
  phase s = PHASE_IDLE -> envelope s = F32.one ->
  Forall (fun x => -32768 <= x <= 32767) audio ->
  v2_process_block s audio frames = (s, audio).
Proof.
  intros Hp He Ha.
  assert (Hit : forall n, Nat.iter n advance_one_sample s = s).
  { induction n as [|n IH]; [reflexivity|].
    change (advance_one_sample (Nat.iter n advance_one_sample s) = s).
    rewrite IH. apply advance_idle; rewrite Hp; discriminate. }
  apply injective_projections; cbn [fst snd].
  - unfold v2_process_block. rewrite process_frames_inst. apply Hit.
  - apply (nth_ext _ _ 0 0).
    + apply process_frames_length.
    + intros k Hk. unfold v2_process_block in Hk.
      rewrite process_frames_length in Hk.
      rewrite block_sample, Hit, He.
      destruct (_ && _); [|reflexivity].
      apply apply_gain_one. rewrite Forall_forall in Ha.
      apply Ha, nth_In, Hk.
Qed.

(** X13. Whenever an instance driven through the plugin interface is in
    Idle, a block returns every sample of the [int16_t] range exactly as
    it came and leaves the instance as it was: between cycles the effect
    is bit-transparent, whatever the parameters are. *)
Theorem idle_block_is_identity s audio frames :
  api_reachable s -> phase s = PHASE_IDLE ->
  Forall (fun x => -32768 <= x <= 32767) audio ->
  v2_process_block s audio frames = (s, audio).
Proof.
  intros Hr Hp Ha. apply idle_unit_block; [exact Hp| |exact Ha].
  apply (api_idle_gain_ok s Hr), Hp.
Qed.

(** After a cycle without length the instance is in Idle again and
    passes the extreme samples unchanged. *)
Lemma idle_block_is_identity_witness :
  let s := fst (v2_process_block
                  (move_audio_fx_on_midi
                     (v2_set_param
                        (v2_set_param
                           (v2_set_param v2_create_instance "attack" "0")
                           "hold" "0") "release" "0")
                     [x90; x24; x7f] 3 0) [] 2) in
  phase s = PHASE_IDLE /\
  v2_process_block s [32767; -32768; 1; -1] 2 = (s, [32767; -32768; 1; -1]).
Proof.
  cbv zeta. split; [vm_compute; reflexivity|].
  apply idle_block_is_identity.
  - apply api_block, api_midi. repeat apply api_set_param. apply api_create.
  - vm_compute. reflexivity.
  - repeat constructor; discriminate.
Defined.

(** ** Phase lengths *)

Lemma small_samples_per_ms : small samples_per_ms.
Proof.
  split; [split; [reflexivity|exact eq_refl]|].
  vm_compute. discriminate.
Qed.

Lemma to_int_monotone p q :
  nonneg p -> nonneg q -> scaled p <= scaled q ->
  0 <= F32.to_int p <= F32.to_int q.
Proof.
  intros Hp Hq Hle.
  pose proof (scaled_nonneg p Hp) as P0.
  assert (H149 : 0 < 2 ^ 149) by reflexivity.
  assert (Ht : 0 <= F32.trunc p <= F32.trunc q).
  { rewrite (trunc_scaled p Hp), (trunc_scaled q Hq). split.
    - apply Z.div_pos; lia.
    - apply Z.div_le_mono; lia. }
  destruct Hp as (_ & Zp), Hq as (_ & Zq).
  destruct p as [s|s| |s m e]; cbn [zero_or_positive] in Zp; try contradiction;
    destruct q as [s'|s'| |s' m' e']; cbn [zero_or_positive] in Zq;
    try contradiction; unfold F32.to_int, INT_MIN, INT_MAX; lia.
Qed.

(** The length of a phase grows with its parameter. *)
Lemma samples_monotone x y K :
  unit_value x -> unit_value y -> scaled x <= scaled y -> 1 <= K <= 32768 ->
  0 <= ms_to_samples (F32.mul x (F32.of_Z K))
    <= ms_to_samples (F32.mul y (F32.of_Z K)).
Proof.
  intros Hx Hy Hle HK.
  destruct (of_Z_sample K ltac:(lia)) as (HKs & _).
  destruct (mul_unit_l x _ Hx HKs) as (Hxn & Hxb).
  destruct (mul_unit_l y _ Hy HKs) as (Hyn & Hyb).
  assert (Hxs : small (F32.mul x (F32.of_Z K)))
    by (split; [exact Hxn|destruct HKs; lia]).
  assert (Hys : small (F32.mul y (F32.of_Z K)))
    by (split; [exact Hyn|destruct HKs; lia]).
  unfold ms_to_samples. apply to_int_monotone.
  - apply mul_scaled; [exact Hxs|apply small_samples_per_ms].
  - apply mul_scaled; [exact Hys|apply small_samples_per_ms].
  - apply mul_mono; try assumption; try apply small_samples_per_ms; [|lia].
    apply mul_mono; auto using unit_value_small. lia.
Qed.

Lemma samples_range_unit x K top :
  unit_value x -> 1 <= K <= 32768 ->
  ms_to_samples (F32.mul F32.one (F32.of_Z K)) = top ->
  0 <= ms_to_samples (F32.mul x (F32.of_Z K)) <= top.
Proof.
  intros Hx HK <-. apply samples_monotone; auto using unit_one.
  apply Hx.
Qed.

Lemma leb_unit x y :
  in_unit x -> in_unit y -> F32.leb x y = true -> scaled x <= scaled y.
Proof.
  intros Hx Hy H. apply in_unit_value in Hx. apply in_unit_value in Hy.
  apply (leb_scaled _ _ (proj1 Hx) (proj1 Hy)). exact H.
Qed.

(** X14. With attack, hold and release in [0, 1] the phases last at
    most 2205, 22050 and 44100 samples (50, 500 and 1000 ms) and never a
    negative count, and a larger parameter never gives a shorter phase. *)
Theorem phase_lengths_bounded_monotone i j :
  in_unit (attack i) -> in_unit (hold i) -> in_unit (release i) ->
  in_unit (attack j) -> in_unit (hold j) -> in_unit (release j) ->
  (0 <= attack_samples i <= 2205 /\ 0 <= hold_samples i <= 22050 /\
   0 <= release_samples i <= 44100) /\
  (F32.leb (attack i) (attack j) = true ->
     attack_samples i <= attack_samples j) /\
  (F32.leb (hold i) (hold j) = true -> hold_samples i <= hold_samples j) /\
  (F32.leb (release i) (release j) = true ->
     release_samples i <= release_samples j).
Proof.
  intros Ai Hi Ri Aj Hj Rj.
  unfold attack_samples, hold_samples, release_samples.
  split; [|split; [|split]].
  - split; [|split]; apply samples_range_unit;
      auto using in_unit_value; try lia; vm_compute; reflexivity.
  - intros H. apply samples_monotone; auto using in_unit_value, leb_unit. lia.
  - intros H. apply samples_monotone; auto using in_unit_value, leb_unit. lia.
  - intros H. apply samples_monotone; auto using in_unit_value, leb_unit. lia.
Qed.

Lemma phase_lengths_bounded_monotone_witness :
  let i := v2_create_instance in
  let j := v2_set_param v2_create_instance "attack" "1" in
  (attack_samples i = 220 /\ attack_samples j = 2205) /\
  (0 <= attack_samples i <= 2205 /\ 0 <= hold_samples i <= 22050 /\
   0 <= release_samples i <= 44100) /\
  (F32.leb (attack i) (attack j) = true ->
     attack_samples i <= attack_samples j).
Proof.
  cbv zeta. split; [vm_compute; auto|].
  refine (let H := phase_lengths_bounded_monotone v2_create_instance
            (v2_set_param v2_create_instance "attack" "1") _ _ _ _ _ _ in
          conj (proj1 H) (proj1 (proj2 H))); vm_compute; auto.
Defined.

(** ** The curves *)

Lemma shape_unit_clamped c t b :
  unit_value (clampf t F32.zero F32.one) -> unit_value (shape_curve c t b).
Proof.
  intros Hc. unfold shape_curve.
  cbv zeta. set (u := clampf t F32.zero F32.one) in *.
  destruct (c =? CURVE_EXPO); [apply mul_unit; assumption|].
  destruct (c =? CURVE_SCURVE); [apply (smoothstep_unit u Hc)|].
  destruct (c =? CURVE_PUMP); [|assumption].
  destruct b; [|assumption].
  pose proof (proj1 (sub_one_unit u Hc)) as Hi.
  apply sub_one_unit. apply mul_unit; [apply mul_unit|]; assumption.
Qed.

(** A valid value that compares equal to 1.0 is 1.0. *)
Lemma unit_top x :
  unit_value x -> 2 ^ 149 <= scaled x -> x = F32.one.
Proof.
  intros ((Hv & Hz) & Hle) Hge.
  destruct x as [s|s| |s m e]; cbn [zero_or_positive] in Hz;
    try contradiction.
  subst s. cbn [scaled] in *.
  pose proof (valid_mantissa _ _ _ Hv) as (Re & Um & Lm).
  assert (Hp : 0 < 2 ^ (e + 149)) by (apply Z.pow_pos_nonneg; lia).
  assert (He : -24 < e).
  { assert (2 ^ 149 < 2 ^ (24 + (e + 149))).
    { rewrite Z.pow_add_r by lia. change (2 ^ 24) with 16777216. nia. }
    apply pow2_lt_inv in H; lia. }
  specialize (Lm ltac:(lia)).
  assert (He2 : e <= -23).
  { assert (2 ^ (23 + (e + 149)) <= 2 ^ 149).
    { rewrite Z.pow_add_r by lia. change (2 ^ 23) with 8388608. nia. }
    apply pow2_le_inv in H; lia. }
  assert (e = -23) by lia. subst e.
  change (2 ^ (-23 + 149)) with (2 ^ 126) in *.
  change (2 ^ 149) with (8388608 * 2 ^ 126) in *.
  assert (Z.pos m = 8388608) by nia.
  unfold F32.one. congruence.
Qed.

Lemma shape_at_zero c s b :
  F32.leb (shape_curve c (S754_zero s) b) F32.zero = true.
Proof.
  unfold shape_curve.
  destruct (c =? CURVE_EXPO), (c =? CURVE_SCURVE), (c =? CURVE_PUMP), b, s;
    reflexivity.
Qed.

Lemma shape_at_one c b : shape_curve c F32.one b = F32.one.
Proof.
  unfold shape_curve.
  destruct (c =? CURVE_EXPO), (c =? CURVE_SCURVE), (c =? CURVE_PUMP), b;
    reflexivity.
Qed.

Lemma clampf_idempotent t :
  clampf (clampf t F32.zero F32.one) F32.zero F32.one =
  clampf t F32.zero F32.one.
Proof.
  unfold clampf at 2 3.
  destruct (F32.ltb t F32.zero) eqn:E0; [reflexivity|].
  destruct (F32.gtb t F32.one) eqn:E1; [reflexivity|].
  unfold clampf. now rewrite E0, E1.
Qed.

Lemma shape_clamped c t b :
  shape_curve c t b = shape_curve c (clampf t F32.zero F32.one) b.
Proof. unfold shape_curve. cbv zeta. now rewrite clampf_idempotent. Qed.

(** X15. For every curve number, the four curves and anything else,
    and both directions, a position that is not a NaN is shaped into
    [0, 1]: positions at or below 0 give 0, positions at or above 1,
    infinity included, give exactly 1.0.  A NaN position gives a NaN. *)
Theorem shape_curve_range c t b :
  F32.valid t = true -> t <> S754_nan ->
  in_unit (shape_curve c t b) /\
  (F32.leb t F32.zero = true ->
     F32.leb (shape_curve c t b) F32.zero = true) /\
  (F32.leb F32.one t = true -> shape_curve c t b = F32.one) /\
  shape_curve c S754_nan b = S754_nan.
Proof.
  intros Hv Hn.
  destruct (clampf_zero_range t 8388608 (-23) Hv eq_refl) as (_ & Hr).
  specialize (Hr Hn). fold F32.one in Hr.
  assert (Hu : unit_value (clampf t F32.zero F32.one)) by exact Hr.
  split; [apply unit_value_in, shape_unit_clamped, Hu|].
  split; [|split].
  - intros H0. rewrite shape_clamped.
    assert (Hz : exists s, clampf t F32.zero F32.one = S754_zero s).
    { unfold clampf.
      destruct t as [s|s| |s m e]; try contradiction.
      - exists s. reflexivity.
      - destruct s; [exists false; reflexivity|discriminate].
      - destruct s; [exists false; reflexivity|discriminate]. }
    destruct Hz as (s & ->). apply shape_at_zero.
  - intros H1. rewrite shape_clamped.
    replace (clampf t F32.zero F32.one) with F32.one; [apply shape_at_one|].
    symmetry. apply unit_top; [exact Hu|].
    unfold clampf.
    destruct (F32.ltb t F32.zero) eqn:E0.
    { exfalso. destruct t as [s|s| |s m e]; try contradiction;
        try destruct s; discriminate. }
    destruct (F32.gtb t F32.one) eqn:E1; [reflexivity|].
    assert (Ht : nonneg t).
    { split; [exact Hv|].
      destruct t as [s|s| |s m e]; try contradiction; try destruct s;
        try discriminate; exact I || reflexivity. }
    apply (leb_scaled _ _ (proj1 unit_one) Ht) in H1. exact H1.
  - unfold shape_curve.
    destruct (c =? CURVE_EXPO), (c =? CURVE_SCURVE), (c =? CURVE_PUMP), b;
      reflexivity.
Qed.

Lemma shape_curve_range_witness :
  let t := F32.div (F32.of_Z 3) (F32.of_Z 4) in
  in_unit (shape_curve CURVE_SCURVE t true) /\
  shape_curve CURVE_SCURVE (S754_infinity false) true = F32.one.
Proof.
  cbv zeta. split.
  - refine (proj1 (shape_curve_range CURVE_SCURVE
              (F32.div (F32.of_Z 3) (F32.of_Z 4)) true _ _)).
    + vm_compute. reflexivity.
    + vm_compute. discriminate.
  - refine (proj1 (proj2 (proj2 (shape_curve_range CURVE_SCURVE
              (S754_infinity false) true _ _))) _).
    + reflexivity.
    + discriminate.
    + reflexivity.
Defined.

(** ** Gate mode *)

Lemma ducked_with_state i ph pos len env :
  ducked (with_state i ph pos len env) = ducked i.
Proof. reflexivity. Qed.

(** Outside Trigger mode Hold keeps the full duck whatever the number
    of samples. *)
Lemma hold_keeps_duck n : forall i,
  mode i <> MODE_TRIGGER -> phase i = PHASE_HOLD -> envelope i = ducked i ->
  phase (Nat.iter n advance_one_sample i) = PHASE_HOLD /\
  envelope (Nat.iter n advance_one_sample i) = ducked i.
Proof.
  induction n as [|n IH]; intros i Hm Hp He; [auto|].
  rewrite Nat.iter_succ_r.
  assert (Hadv : advance_one_sample i =
                 with_state i PHASE_HOLD (wrap32 (phase_pos i + 1))
                   (phase_len i) (ducked i)).
  { rewrite (advance_hold _ Hp).
    destruct (Z.eqb_spec (mode i) MODE_TRIGGER); [contradiction|reflexivity]. }
  rewrite Hadv. rewrite <- (ducked_with_state i PHASE_HOLD
    (wrap32 (phase_pos i + 1)) (phase_len i) (ducked i)) at 3.
  apply IH; [exact Hm|reflexivity|reflexivity].
Qed.

Lemma enter_hold_duck i :
  mode i <> MODE_TRIGGER ->
  mode (enter_hold i) <> MODE_TRIGGER /\ phase (enter_hold i) = PHASE_HOLD /\
  envelope (enter_hold i) = ducked (enter_hold i) /\
  ducked (enter_hold i) = ducked i.
Proof.
  intros Hm. unfold enter_hold.
  destruct (Z.eqb_spec (mode i) MODE_TRIGGER); [contradiction|].
  rewrite andb_false_r. cbn. auto.
Qed.

Lemma attack_reaches_hold n : forall i,
  mode i <> MODE_TRIGGER -> phase i = PHASE_ATTACK ->
  0 <= phase_pos i < phase_len i -> phase_len i <= INT_MAX ->
  phase_len i - phase_pos i <= Z.of_nat n ->
  phase (Nat.iter n advance_one_sample i) = PHASE_HOLD /\
  envelope (Nat.iter n advance_one_sample i) = ducked i.
Proof.
  induction n as [|n IH]; intros i Hm Hp Hpos Hlen Hn; [lia|].
  rewrite Nat.iter_succ_r, (advance_attack _ Hp).
  rewrite wrap32_small by (unfold INT_MIN, INT_MAX in *; lia).
  rewrite Z.geb_leb.
  destruct (Z.leb_spec (phase_len i) (phase_pos i + 1)).
  - destruct (enter_hold_duck i Hm) as (Hm' & Hp' & He' & Hd').
    rewrite <- Hd'. apply hold_keeps_duck; assumption.
  - rewrite <- (ducked_with_state i PHASE_ATTACK (phase_pos i + 1)
                  (phase_len i) (attack_gain i)).
    apply IH; cbn; auto; lia.
Qed.

Lemma note_on_gate_hold i v n :
  mode i <> MODE_TRIGGER -> attack_samples i <= Z.of_nat n ->
  phase (Nat.iter n advance_one_sample (note_on i v)) = PHASE_HOLD /\
  envelope (Nat.iter n advance_one_sample (note_on i v)) =
    ducked (note_on i v).
Proof.
  intros Hm Hn. unfold note_on. cbv zeta.
  set (j := set_vel_depth _ _).
  assert (Hcfg : same_config j i) by (destruct i; repeat split).
  destruct (same_config_samples _ _ Hcfg) as (Ha & _).
  assert (Hmj : mode j <> MODE_TRIGGER).
  { destruct Hcfg as (_ & _ & Hmode & _). rewrite Hmode. exact Hm. }
  destruct (samples_range i) as (Hr & _).
  rewrite start_attack_eq, Ha.
  destruct (Z.leb_spec (attack_samples i) 0) as [Hle|Hgt].
  - destruct (enter_hold_duck j Hmj) as (Hm' & Hp' & He' & Hd').
    apply hold_keeps_duck; assumption.
  - apply attack_reaches_hold; cbn; auto; unfold INT_MAX in *; lia.
Qed.

(** X16. In Gate mode a qualifying note-on that is not followed by a
    note-off ducks for good: once the attack samples are over the phase
    is Hold and the gain exactly [1 - effective_depth], that is
    [ducked], after any number of further samples. *)
Theorem gate_holds_full_duck inst msg len source n :
  mode inst = MODE_GATE -> accepts inst msg len -> is_start msg ->
  attack_samples inst <= Z.of_nat n ->
  let s0 := move_audio_fx_on_midi inst msg len source in
  let s := Nat.iter n advance_one_sample s0 in
  phase s = PHASE_HOLD /\ envelope s = ducked s0 /\
  vel_depth s = vel_depth s0.
Proof.
  intros Hm Hacc Hst Hn. cbv zeta. unfold move_audio_fx_on_midi.
  rewrite (on_midi_start _ _ _ source Hacc Hst).
  assert (Hmt : mode inst <> MODE_TRIGGER) by (rewrite Hm; discriminate).
  destruct (note_on_gate_hold inst (msg_velocity msg) n Hmt Hn) as (Hp & He).
  split; [exact Hp|]. split; [exact He|apply iter_vel_depth].
Qed.

Lemma gate_holds_full_duck_witness :
  let inst := v2_set_param v2_create_instance "mode" "Gate" in
  let s0 := move_audio_fx_on_midi inst [x90; x24; x7f] 3 0 in
  let s := Nat.iter 5000 advance_one_sample s0 in
  phase s = PHASE_HOLD /\ envelope s = ducked s0 /\
  vel_depth s = vel_depth s0.
Proof.
  cbv zeta.
  refine (gate_holds_full_duck (v2_set_param v2_create_instance "mode" "Gate")
            [x90; x24; x7f] 3 0 5000 _ _ _ _).
  - vm_compute. reflexivity.
  - vm_compute. repeat split; try discriminate. right; reflexivity.
  - vm_compute. split; reflexivity.
  - vm_compute. discriminate.
Defined.

Lemma idle_stays n : forall i,
  phase i = PHASE_IDLE -> Nat.iter n advance_one_sample i = i.
Proof.
  induction n as [|n IH]; intros i Hp; [reflexivity|].
  rewrite Nat.iter_succ_r, advance_idle by (rewrite Hp; discriminate).
  apply IH, Hp.
Qed.

(** A Release of [len] samples is over after [len - pos] of them, in
    any mode. *)
Lemma release_completes n : forall i,
  phase i = PHASE_RELEASE ->
  0 <= phase_pos i < phase_len i -> phase_len i <= INT_MAX ->
  phase_len i - phase_pos i <= Z.of_nat n ->
  phase (Nat.iter n advance_one_sample i) = PHASE_IDLE /\
  envelope (Nat.iter n advance_one_sample i) = F32.one.
Proof.
  induction n as [|n IH]; intros i Hp Hpos Hlen Hn; [lia|].
  rewrite Nat.iter_succ_r, (advance_release _ Hp).
  rewrite wrap32_small by (unfold INT_MIN, INT_MAX in *; lia).
  rewrite Z.geb_leb.
  destruct (Z.leb_spec (phase_len i) (phase_pos i + 1)).
  - rewrite idle_stays by reflexivity. split; reflexivity.
  - apply IH; cbn; auto; lia.
Qed.

(** X17. In Gate mode the note-off that releases the last held note
    during Attack or Hold starts the release from its first sample:
    after [release_samples] further samples (none when that count is 0
    or less) the phase is Idle and the gain exactly 1.0, and they stay
    so. *)
Theorem gate_release_completes inst msg len source n :
  mode inst = MODE_GATE -> accepts inst msg len -> is_stop msg ->
  0 <= active_notes inst <= 1 ->
  phase inst = PHASE_HOLD \/ phase inst = PHASE_ATTACK ->
  release_samples inst <= Z.of_nat n ->
  let s := Nat.iter n advance_one_sample
             (move_audio_fx_on_midi inst msg len source) in
  active_notes s = 0 /\ phase s = PHASE_IDLE /\ envelope s = F32.one.
Proof.
  intros Hm Hacc Hst Han Hph Hn. cbv zeta. unfold move_audio_fx_on_midi.
  rewrite (on_midi_stop _ _ _ source Hacc Hst).
  destruct (note_off_fields inst) as (Hcount & _ & _ & Hrel).
  cbv zeta in Hcount, Hrel.
  assert (Hzero : (if active_notes inst >? 0 then active_notes inst - 1
                   else active_notes inst) = 0).
  { rewrite Z.gtb_ltb. destruct (Z.ltb_spec 0 (active_notes inst)); lia. }
  rewrite Hzero in *.
  assert (Hc : (mode inst =? MODE_GATE) && (0 =? 0) &&
               ((phase inst =? PHASE_HOLD) || (phase inst =? PHASE_ATTACK))
               = true).
  { rewrite Hm. destruct Hph as [-> | ->]; reflexivity. }
  destruct (Hrel Hc) as (Hpos & Hlen & H0 & H1).
  split; [rewrite iter_active_notes; exact Hcount|].
  destruct (samples_range inst) as (_ & _ & Hr).
  destruct (Z_le_gt_dec (release_samples inst) 0) as [Hle|Hgt].
  - destruct (H0 Hle) as (Hp & He). rewrite idle_stays by exact Hp. auto.
  - destruct (H1 ltac:(lia)) as (Hp & _).
    apply release_completes; try exact Hp; rewrite ?Hpos, ?Hlen;
      unfold INT_MAX in *; lia.
Qed.

Lemma gate_release_completes_witness :
  let cfg := v2_set_param (v2_set_param v2_create_instance "mode" "Gate")
               "release" "0.01" in
  let inst := Nat.iter 1000 advance_one_sample
                (move_audio_fx_on_midi cfg [x90; x24; x7f] 3 0) in
  let s := Nat.iter 441 advance_one_sample
             (move_audio_fx_on_midi inst [x80; x24; x00] 3 0) in
  (phase inst = PHASE_HOLD /\ release_samples inst = 441) /\
  active_notes s = 0 /\ phase s = PHASE_IDLE /\ envelope s = F32.one.
Proof.
  cbv zeta. split; [vm_compute; auto|].
  refine (gate_release_completes
            (Nat.iter 1000 advance_one_sample
               (move_audio_fx_on_midi
                  (v2_set_param (v2_set_param v2_create_instance "mode" "Gate")
                     "release" "0.01") [x90; x24; x7f] 3 0))
            [x80; x24; x00] 3 0 441 _ _ _ _ _ _).
  - vm_compute. reflexivity.
  - vm_compute. repeat split; try discriminate. right; reflexivity.
  - left. reflexivity.
  - vm_compute. split; discriminate.
  - left. vm_compute. reflexivity.
  - vm_compute. discriminate.
Defined.

(** ** Messages *)

(** X18. A message whose status is neither note-on nor note-off
    (aftertouch, controller, program change, pitch bend, system) never
    changes the instance, whatever its channel and data bytes. *)
Theorem non_note_messages_ignored inst msg len source :
  msg_status msg <> 144 -> msg_status msg <> 128 ->
  move_audio_fx_on_midi inst msg len source = inst.
Proof.
  intros H90 H80. unfold move_audio_fx_on_midi, ducker_on_midi. cbv zeta.
  fold (msg_status msg).
  destruct (Z.eqb_spec (msg_status msg) 144); [contradiction|].
  destruct (Z.eqb_spec (msg_status msg) 128); [contradiction|].
  cbn [andb orb].
  repeat match goal with |- context [if ?c then _ else _] => destruct c end;
    reflexivity.
Qed.

Lemma non_note_messages_ignored_witness :
  let s := move_audio_fx_on_midi v2_create_instance [x90; x24; x7f] 3 0 in
  move_audio_fx_on_midi s [xa0; x24; x7f] 3 0 = s /\
  move_audio_fx_on_midi s [xb0; x24; x00] 3 0 = s.
Proof.
  cbv zeta. split; apply non_note_messages_ignored; vm_compute; discriminate.
Defined.

(** ** A note-on restarts the cycle *)

(** Two states that differ in the gain of a running cycle and in the
    held-note count only. *)
Definition same_run (a b : ducker_instance) : Prop :=
  same_config a b /\ phase a = phase b /\ phase_pos a = phase_pos b /\
  phase_len a = phase_len b /\ vel_depth a = vel_depth b /\
  (phase a = PHASE_IDLE -> envelope a = envelope b).

Lemma same_run_samples a b :
  same_run a b ->
  hold_samples a = hold_samples b /\ release_samples a = release_samples b /\
  mode a = mode b /\ curve a = curve b /\ ducked a = ducked b.
Proof.
  intros (Hc & _ & _ & _ & Hv & _).
  destruct (same_config_samples _ _ Hc) as (_ & Hh & Hr).
  destruct Hc as (_ & _ & Hm & _ & _ & _ & _ & Hcu & _).
  unfold ducked. rewrite Hv. auto.
Qed.

Lemma with_state_same_run a b ph pos len e1 e2 :
  same_run a b -> (ph = PHASE_IDLE -> e1 = e2) ->
  same_run (with_state a ph pos len e1) (with_state b ph pos len e2).
Proof.
  intros (Hc & _ & _ & _ & Hv & _) He.
  unfold same_run, same_config in *. cbn. tauto.
Qed.

Lemma enter_hold_same_run a b :
  same_run a b ->
  same_run (enter_hold a) (enter_hold b) /\
  envelope (enter_hold a) = envelope (enter_hold b).
Proof.
  intros H. destruct (same_run_samples a b H) as (Hh & Hr & Hm & _ & Hd).
  unfold enter_hold. rewrite Hh, Hr, Hm, Hd.
  destruct (_ && _); (split; [apply with_state_same_run; auto|reflexivity]).
Qed.

(** One tick takes two such states to two such states with the same
    gain. *)
Lemma advance_same_run a b :
  same_run a b -> phase_ok a ->
  same_run (advance_one_sample a) (advance_one_sample b) /\
  envelope (advance_one_sample a) = envelope (advance_one_sample b).
Proof.
  intros H Hok.
  destruct (same_run_samples a b H) as (Hh & Hr & Hm & Hcu & Hd).
  pose proof H as (Hc & Hp & Hpos & Hlen & Hv & Hi).
  destruct Hok as (Hph & Hmax & HA & _ & HR).
  destruct Hph as [Hpa|[Hpa|[Hpa|Hpa]]].
  - rewrite !advance_idle by (rewrite <- ?Hp, Hpa; discriminate).
    split; [exact H|apply Hi, Hpa].
  - specialize (HA Hpa).
    rewrite (advance_attack a Hpa), (advance_attack b) by (rewrite <- Hp; exact Hpa).
    rewrite <- Hpos, <- Hlen.
    destruct (_ >=? _); [apply enter_hold_same_run, H|].
    assert (Hg : attack_gain a = attack_gain b).
    { unfold attack_gain. rewrite <- Hpos, <- Hlen, <- Hv, <- Hcu.
      rewrite Z.gtb_ltb. destruct (Z.ltb_spec 0 (phase_len a)); [reflexivity|lia]. }
    rewrite Hg. split; [apply with_state_same_run; auto|reflexivity].
  - rewrite (advance_hold a Hpa), (advance_hold b) by (rewrite <- Hp; exact Hpa).
    rewrite <- Hpos, <- Hlen, <- Hm, <- Hr, <- Hd.
    destruct (_ && _); (split; [apply with_state_same_run; auto|reflexivity]).
  - specialize (HR Hpa).
    rewrite (advance_release a Hpa), (advance_release b)
      by (rewrite <- Hp; exact Hpa).
    rewrite <- Hpos, <- Hlen.
    destruct (Z.geb_spec (wrap32 (phase_pos a + 1)) (phase_len a)) as [Hge|Hlt].
    + split; [apply with_state_same_run; auto|reflexivity].
    + assert (Hin : 0 < phase_len a).
      { destruct HR as [HR|(HR1 & HR2)]; [lia|].
        rewrite HR2 in Hlt. change (wrap32 (0 + 1)) with 1 in Hlt. lia. }
      assert (Hg : release_gain a = release_gain b).
      { unfold release_gain. rewrite <- Hpos, <- Hlen, <- Hv, <- Hcu.
        rewrite Z.gtb_ltb.
        destruct (Z.ltb_spec 0 (phase_len a)); [reflexivity|lia]. }
      rewrite Hg. split; [apply with_state_same_run; auto|].
      reflexivity.
Qed.

Lemma gain_trace_same_run n : forall a b,
  same_run a b -> phase_ok a -> gain_trace n a = gain_trace n b.
Proof.
  induction n as [|n IH]; intros a b H Hok; [reflexivity|].
  cbn [gain_trace]. cbv zeta.
  destruct (advance_same_run a b H Hok) as (H' & He).
  rewrite He. f_equal.
  apply IH; [exact H'|apply advance_one_sample_phase_ok, Hok].
Qed.

Lemma note_on_same_run a b v :
  same_config a b -> same_run (note_on a v) (note_on b v).
Proof.
  intros Hc.
  assert (Hv : vel_depth (note_on a v) = vel_depth (note_on b v)).
  { rewrite !note_on_vel_depth.
    destruct Hc as (_ & _ & _ & -> & _ & _ & _ & _ & ->). reflexivity. }
  assert (Hcfg : same_config (note_on a v) (note_on b v)).
  { eapply same_config_trans; [apply note_on_config|].
    eapply same_config_trans; [exact Hc|].
    destruct (note_on_config b v) as (? & ? & ? & ? & ? & ? & ? & ? & ?).
    unfold same_config. repeat split; congruence. }
  destruct (same_config_samples _ _ Hc) as (Ha & Hh & Hr).
  assert (Hm : mode a = mode b) by apply Hc.
  revert Hv Hcfg. unfold note_on. cbv zeta. rewrite !start_attack_eq.
  set (ja := set_vel_depth (set_active_notes a _) _).
  set (jb := set_vel_depth (set_active_notes b _) _).
  change (attack_samples ja) with (attack_samples a).
  change (attack_samples jb) with (attack_samples b).
  unfold enter_hold.
  change (hold_samples ja) with (hold_samples a).
  change (hold_samples jb) with (hold_samples b).
  change (release_samples ja) with (release_samples a).
  change (release_samples jb) with (release_samples b).
  change (mode ja) with (mode a). change (mode jb) with (mode b).
  rewrite Ha, Hh, Hr, Hm.
  destruct (attack_samples b <=? 0); [destruct (_ && _)|];
    cbn; intros Hv Hcfg; unfold same_run; cbn;
    repeat split; try apply Hcfg; try exact Hv; discriminate.
Qed.

(** X19. The gains after a qualifying note-on do not depend on where
    the envelope was: two instances with the same parameters receive the
    same gains from the same note-on on, whatever phase, position, gain
    and held-note count each had before.  A note-on during a cycle
    starts the cycle again from its first sample. *)
Theorem retrigger_restarts_cycle s1 s2 msg len source n :
  same_config s1 s2 -> accepts s1 msg len -> is_start msg ->
  gain_trace n (move_audio_fx_on_midi s1 msg len source) =
  gain_trace n (move_audio_fx_on_midi s2 msg len source).
Proof.
  intros Hc Hacc Hst. unfold move_audio_fx_on_midi.
  assert (Hacc2 : accepts s2 msg len).
  { destruct Hc as (Hch & Hn & _). unfold accepts in *.
    rewrite <- Hch, <- Hn. exact Hacc. }
  rewrite (on_midi_start _ _ _ source Hacc Hst),
          (on_midi_start _ _ _ source Hacc2 Hst).
  apply gain_trace_same_run; [apply note_on_same_run, Hc|].
  unfold note_on. apply start_attack_phase_ok.
Qed.

Lemma retrigger_restarts_cycle_witness :
  let s1 := v2_create_instance in
  let s2 := Nat.iter 1000 advance_one_sample
              (move_audio_fx_on_midi v2_create_instance [x90; x24; x40] 3 0) in
  (phase s2 = PHASE_HOLD /\ active_notes s2 = 1) /\
  gain_trace 300 (move_audio_fx_on_midi s1 [x90; x24; x7f] 3 0) =
  gain_trace 300 (move_audio_fx_on_midi s2 [x90; x24; x7f] 3 0).
Proof.
  cbv zeta. split; [vm_compute; auto|].
  refine (retrigger_restarts_cycle v2_create_instance
            (Nat.iter 1000 advance_one_sample
               (move_audio_fx_on_midi v2_create_instance [x90; x24; x40] 3 0))
            [x90; x24; x7f] 3 0 300 _ _ _).
  - vm_compute. repeat split.
  - vm_compute. repeat split; try discriminate. right; reflexivity.
  - vm_compute. split; reflexivity.
Defined.

Lemma shape_zero c b : shape_curve c F32.zero b = F32.zero.
Proof.
  destruct (Z.eq_dec c CURVE_EXPO) as [->|?]; [reflexivity|].
  destruct (Z.eq_dec c CURVE_SCURVE) as [->|?]; [reflexivity|].
  destruct (Z.eq_dec c CURVE_PUMP) as [->|?]; [destruct b; reflexivity|].
  unfold shape_curve. cbv zeta.
  destruct (Z.eqb_spec c CURVE_EXPO); [contradiction|].
  destruct (Z.eqb_spec c CURVE_SCURVE); [contradiction|].
  destruct (Z.eqb_spec c CURVE_PUMP); [contradiction|].
  reflexivity.
Qed.

Lemma first_attack_gain vd c L :
  wide vd -> 0 < L <= 2147483648 ->
  F32.sub F32.one
    (F32.mul vd (shape_curve c (F32.div (F32.of_Z 0) (F32.of_Z L)) false)) =
  F32.one.
Proof.
  intros ((Hv & Hz) & _) HL.
  destruct (of_Z_positive L HL) as (m & e & -> & _).
  change (F32.div (F32.of_Z 0) (S754_finite false m e)) with F32.zero.
  rewrite shape_zero.
  destruct vd as [[|]|[|]| |[|] mv ev]; try contradiction;
    try discriminate; reflexivity.
Qed.

(** X20. When the attack lasts two samples or more, the first sample
    after a qualifying note-on is played at gain exactly 1.0, whatever
    the gain was before the message: a note-on received while the signal
    is ducked lifts it back to full level before the new attack brings
    it down again. *)
Theorem attack_starts_at_unity inst msg len source :
  in_unit (depth inst) -> in_unit (vel_sens inst) ->
  accepts inst msg len -> is_start msg ->
  2 <= attack_samples inst ->
  let s := advance_one_sample (move_audio_fx_on_midi inst msg len source) in
  phase s = PHASE_ATTACK /\ envelope s = F32.one.
Proof.
  intros Hd Hs Hacc Hst HA. cbv zeta. unfold move_audio_fx_on_midi.
  rewrite (on_midi_start _ _ _ source Hacc Hst).
  assert (Hw : wide (vel_depth (note_on inst (msg_velocity msg)))).
  { apply note_on_vel_depth_wide; try apply in_unit_value; auto.
    apply byte_val_range. }
  revert Hw. unfold note_on. cbv zeta. rewrite start_attack_eq.
  set (j := set_vel_depth _ _).
  change (attack_samples j) with (attack_samples inst).
  destruct (Z.leb_spec (attack_samples inst) 0); [lia|].
  intros Hw. rewrite advance_attack by reflexivity.
  cbn [phase_pos phase_len with_state].
  change (wrap32 (0 + 1)) with 1.
  destruct (Z.geb_spec 1 (attack_samples inst)); [lia|].
  split; [reflexivity|]. cbn [envelope with_state].
  unfold attack_gain. cbn [phase_pos phase_len with_state vel_depth curve].
  destruct (Z.gtb_spec (attack_samples inst) 0); [|lia].
  apply first_attack_gain; [exact Hw|].
  destruct (samples_range inst) as ((_ & Hmax) & _).
  unfold INT_MAX in Hmax. lia.
Qed.

Lemma attack_starts_at_unity_witness :
  let held := Nat.iter 1000 advance_one_sample
                (move_audio_fx_on_midi v2_create_instance [x90; x24; x7f] 3 0) in
  let s := advance_one_sample
             (move_audio_fx_on_midi held [x90; x24; x7f] 3 0) in
  F32.ltb (envelope held) F32.one = true /\
  phase s = PHASE_ATTACK /\ envelope s = F32.one.
Proof.
  cbv zeta. split; [vm_compute; reflexivity|].
  refine (attack_starts_at_unity
            (Nat.iter 1000 advance_one_sample
               (move_audio_fx_on_midi v2_create_instance [x90; x24; x7f] 3 0))
            [x90; x24; x7f] 3 0 _ _ _ _ _).
  - vm_compute. auto.
  - vm_compute. auto.
  - vm_compute. repeat split; try discriminate. right; reflexivity.
  - vm_compute. split; reflexivity.
  - vm_compute. discriminate.
Defined.
